(** * CSV import of cabinet products: the mapper and the batch importer

    A shallow embedding of [CsvImportComponent] (csv-import.component.ts):
    [mapToCabinetProduct], [extractMeta], [resetState] and [onImportRows],
    together with the part of the ECMAScript runtime they rely on
    (binary64 numbers, [parseFloat], [parseInt], number-to-string
    conversion, the string methods and the regular expressions used by the
    mapper).

    Conventions of the embedding.
    - A JavaScript string is a Rocq [string]; a character stands for the
      code unit with the same number, so the model covers cells whose text
      lies in the first 256 code points.
    - A JavaScript number is a [number]: an IEEE 754 binary64 value, kept
      as a sign and an exact rational magnitude.  Every arithmetic
      operation computes the exact result and rounds it to nearest, ties to
      even, as the standard prescribes.
    - Array lengths, loop indices and the imported count are natural
      numbers; they are converted with [ofNat] where the code does
      arithmetic on them.
    - A raw row is a finite map from column names to cells, as PapaParse
      builds it with [header: true] and [dynamicTyping: false]. *)

From Stdlib Require Import ZArith QArith Qpower Qabs Qround Lqa Lia Bool Ascii.
From Stdlib Require Import String.
From Stdlib Require Import DecimalString Permutation.
From stdpp Require Import base gmap strings list.

Local Open Scope Z_scope.

(** ** Binary64 numbers *)

Module Num.

(** A finite value is a sign and a magnitude [mag >= 0]; the two zeros
    are [Fin false 0] and [Fin true 0].  The operations below return
    magnitudes in lowest terms, so that equal values are equal terms. *)
Inductive number : Type :=
| NaN
| Inf (neg : bool)
| Fin (neg : bool) (mag : Q).

Definition zero : number := Fin false 0.
Definition one : number := Fin false 1.

(** [ilog2 q] is the binary exponent of a positive rational:
    [2 ^ ilog2 q <= q < 2 ^ (ilog2 q + 1)]. *)
Definition ilog2 (q : Q) : Z :=
  let e := Z.log2 (Qnum q) - Z.log2 (Zpos (Qden q)) in
  if Qle_bool (2 ^ e) q then e else e - 1.

(** Round to the nearest integer, ties to the even one. *)
Definition roundHalfEven (x : Q) : Z :=
  let f := Qfloor x in
  match Qcompare (x - inject_Z f) (1 # 2) with
  | Lt => f
  | Gt => f + 1
  | Eq => if Z.even f then f else f + 1
  end.

(** The exponent of the last place of the binary64 value nearest to a
    positive [q]: 53 significant bits, and -1074 for subnormals. *)
Definition ulpExp (q : Q) : Z := Z.max (ilog2 q - 52) (-1074).

(** The magnitude of the rounded value, before the overflow test. *)
Definition roundMag (q : Q) : Q :=
  let e := ulpExp q in
  (inject_Z (roundHalfEven (q / 2 ^ e)) * 2 ^ e)%Q.

(** [round64 s q] is the binary64 value nearest to the real number of sign
    [s] and magnitude [q >= 0]; magnitudes that round to [2 ^ 1024] or more
    overflow to an infinity. *)
Definition round64 (s : bool) (q : Q) : number :=
  let q := Qred q in
  if Qeq_bool q 0 then Fin s 0
  else
    let r := roundMag q in
    if Qle_bool (2 ^ 1024) r then Inf s else Fin s (Qred r).

Definition ofZ (z : Z) : number := round64 (z <? 0) (inject_Z (Z.abs z)).
Definition ofNat (n : nat) : number := ofZ (Z.of_nat n).

(** The real number a finite value stands for. *)
Definition signed (s : bool) (q : Q) : Q := if s then (- q)%Q else q.

Definition isNaN (x : number) : bool :=
  match x with NaN => true | _ => false end.

Definition isZero (x : number) : bool :=
  match x with Fin _ q => Qeq_bool q 0 | _ => false end.

(** ToBoolean on a number: [NaN], [+0] and [-0] are falsy. *)
Definition truthy (x : number) : bool := negb (isNaN x || isZero x).

(** [x || y] on numbers. *)
Definition orElse (x y : number) : number := if truthy x then x else y.

Definition neg (x : number) : number :=
  match x with
  | NaN => NaN
  | Inf s => Inf (negb s)
  | Fin s q => Fin (negb s) q
  end.

Definition mul (x y : number) : number :=
  match x, y with
  | NaN, _ | _, NaN => NaN
  | Inf s, Inf t => Inf (xorb s t)
  | Inf s, Fin t q | Fin t q, Inf s =>
      if Qeq_bool q 0 then NaN else Inf (xorb s t)
  | Fin s p, Fin t q => round64 (xorb s t) (p * q)
  end.

Definition div (x y : number) : number :=
  match x, y with
  | NaN, _ | _, NaN => NaN
  | Inf _, Inf _ => NaN
  | Inf s, Fin t _ => Inf (xorb s t)
  | Fin s _, Inf t => Fin (xorb s t) 0
  | Fin s p, Fin t q =>
      if Qeq_bool q 0
      then (if Qeq_bool p 0 then NaN else Inf (xorb s t))
      else round64 (xorb s t) (p / q)
  end.

Definition add (x y : number) : number :=
  match x, y with
  | NaN, _ | _, NaN => NaN
  | Inf s, Inf t => if Bool.eqb s t then Inf s else NaN
  | Inf s, Fin _ _ | Fin _ _, Inf s => Inf s
  | Fin s p, Fin t q =>
      let r := (signed s p + signed t q)%Q in
      if Qeq_bool r 0 then Fin (s && t) 0
      else round64 (if Qlt_le_dec r 0 then true else false) (Qabs r)
  end.

Definition sub (x y : number) : number := add x (neg y).

(** [x < y] and [x <= y] as JavaScript evaluates them: false as soon as an
    operand is [NaN]. *)
Definition ltb (x y : number) : bool :=
  match x, y with
  | NaN, _ | _, NaN => false
  | Inf s, Inf t => s && negb t
  | Inf s, Fin _ _ => s
  | Fin _ _, Inf t => negb t
  | Fin s p, Fin t q =>
      negb (Qle_bool (signed t q) (signed s p))
  end.

Definition leb (x y : number) : bool :=
  match x, y with
  | NaN, _ | _, NaN => false
  | Inf s, Inf t => s || negb t
  | Inf s, Fin _ _ => s
  | Fin _ _, Inf t => negb t
  | Fin s p, Fin t q => Qle_bool (signed s p) (signed t q)
  end.

(** [Math.round]: the integer nearest to [x], ties towards positive
    infinity; the sign of [x] is kept when the result is zero. *)
Definition round (x : number) : number :=
  match x with
  | NaN => NaN
  | Inf s => Inf s
  | Fin s q =>
      let z := Qfloor (signed s q + (1 # 2)) in
      if z =? 0 then Fin s 0
      else Fin (z <? 0) (inject_Z (Z.abs z))
  end.

End Num.

(** ** Strings *)

Module Str.

Local Open Scope N_scope.

Definition code (c : ascii) : N := N_of_ascii c.

(** WhiteSpace and LineTerminator code units below 256: what [\s] matches
    and what [trim], [parseFloat] and [parseInt] skip. *)
Definition isSpace (c : ascii) : bool :=
  let n := code c in
  ((9 <=? n) && (n <=? 13)) || (n =? 32) || (n =? 160).

Definition isLineTerminator (c : ascii) : bool :=
  let n := code c in (n =? 10) || (n =? 13).

Definition isDigit (c : ascii) : bool :=
  let n := code c in (48 <=? n) && (n <=? 57).

Definition toLowerChar (c : ascii) : ascii :=
  let n := code c in
  if ((65 <=? n) && (n <=? 90))
     || ((192 <=? n) && (n <=? 222) && negb (n =? 215))
  then ascii_of_N (n + 32) else c.

(** Canonicalize of the regular-expression semantics (flag [i], no flag
    [u]): the upper-case form of a code unit when that is a single code
    unit of the same range. *)
Definition canonicalize (c : ascii) : ascii :=
  let n := code c in
  if ((97 <=? n) && (n <=? 122))
     || ((224 <=? n) && (n <=? 254) && negb (n =? 247))
  then ascii_of_N (n - 32) else c.

Fixpoint map (f : ascii -> ascii) (s : string) : string :=
  match s with
  | EmptyString => EmptyString
  | String c s' => String (f c) (map f s')
  end.

Definition toLowerCase (s : string) : string := map toLowerChar s.

(** ToBoolean on a string. *)
Definition truthy (s : string) : bool :=
  match s with EmptyString => false | _ => true end.

(** [x || d] where [x] is a string or [undefined]. *)
Definition orElse (x : option string) (d : string) : string :=
  match x with
  | Some s => if truthy s then s else d
  | None => d
  end.

(** [x || y] where both may be [undefined]. *)
Definition orElseOpt (x y : option string) : option string :=
  match x with
  | Some s => if truthy s then x else y
  | None => y
  end.

Fixpoint includes (s sub : string) : bool :=
  String.prefix sub s
  || match s with
     | EmptyString => false
     | String _ s' => includes s' sub
     end.

Fixpoint dropPrefix (p s : string) : option string :=
  match p, s with
  | EmptyString, _ => Some s
  | String a p', String b s' =>
      if Ascii.eqb a b then dropPrefix p' s' else None
  | String _ _, EmptyString => None
  end.

(** [s.replace(/^p/, r)] for a literal prefix [p] and a replacement [r]
    without [$] patterns. *)
Definition replacePrefix (p r s : string) : string :=
  match dropPrefix p s with
  | Some rest => r +:+ rest
  | None => s
  end.

(** [s.split(sep)] for a one-character separator. *)
Fixpoint split (sep : ascii) (s : string) : list string :=
  match s with
  | EmptyString => [EmptyString]
  | String c s' =>
      if Ascii.eqb c sep then EmptyString :: split sep s'
      else match split sep s' with
           | w :: ws => String c w :: ws
           | [] => [String c EmptyString]
           end
  end.

Fixpoint trimStart (s : string) : string :=
  match s with
  | String c s' => if isSpace c then trimStart s' else s
  | EmptyString => EmptyString
  end.

Fixpoint trimEnd (s : string) : string :=
  match s with
  | EmptyString => EmptyString
  | String c s' =>
      match trimEnd s' with
      | EmptyString => if isSpace c then EmptyString else String c EmptyString
      | t => String c t
      end
  end.

Definition trim (s : string) : string := trimEnd (trimStart s).

(** [s.endsWith(suffix)]: some tail of [s] is [suffix]. *)
Fixpoint endsWith (s suffix : string) : bool :=
  String.eqb s suffix
  || match s with
     | EmptyString => false
     | String _ s' => endsWith s' suffix
     end.

End Str.

(** ** Conversions between strings and numbers *)

Module Conv.
Import Num.

Fixpoint span (p : ascii -> bool) (s : string) : string * string :=
  match s with
  | String c s' =>
      if p c then let '(a, b) := span p s' in (String c a, b)
      else (EmptyString, s)
  | EmptyString => (EmptyString, EmptyString)
  end.

Definition isHexDigit (c : ascii) : bool :=
  let n := Str.code c in
  (Str.isDigit c || ((65 <=? n) && (n <=? 70))
   || ((97 <=? n) && (n <=? 102)))%N.

Definition digitVal (c : ascii) : Z :=
  let n := Z.of_N (Str.code c) in
  if Str.isDigit c then n - 48
  else if n <=? 70 then n - 55 else n - 87.

Fixpoint digitsValue (radix acc : Z) (ds : string) : Z :=
  match ds with
  | String c ds' => digitsValue radix (radix * acc + digitVal c) ds'
  | EmptyString => acc
  end.

Definition parseSign (s : string) : bool * string :=
  match s with
  | String "-" s' => (true, s')
  | String "+" s' => (false, s')
  | _ => (false, s)
  end.

(** The value of an ExponentPart at the head of [s], and 0 when there is
    none: an [e] not followed by digits is not part of the literal. *)
Definition parseExponent (s : string) : Z :=
  match s with
  | String c s' =>
      if Ascii.eqb c "e" || Ascii.eqb c "E" then
        let '(neg, s'') := parseSign s' in
        let '(ds, _) := span Str.isDigit s'' in
        if Str.truthy ds
        then (if neg then - digitsValue 10 0 ds else digitsValue 10 0 ds)
        else 0
      else 0
  | EmptyString => 0
  end.

(** The number value of [m * 10 ^ e]. *)
Definition decimal (neg : bool) (m e : Z) : number :=
  round64 neg (inject_Z m * 10 ^ e)%Q.

(** [parseFloat]: the longest prefix of the trimmed text that is a
    StrDecimalLiteral, [NaN] when there is none. *)
Definition parseFloat (str : string) : number :=
  let '(neg, s) := parseSign (Str.trimStart str) in
  if String.prefix "Infinity" s then Inf neg
  else
    let '(ip, r1) := span Str.isDigit s in
    match r1 with
    | String "." r2 =>
        let '(fp, r3) := span Str.isDigit r2 in
        if Str.truthy ip || Str.truthy fp
        then decimal neg (digitsValue 10 0 (ip +:+ fp))
               (parseExponent r3 - Z.of_nat (String.length fp))
        else NaN
    | _ =>
        if Str.truthy ip
        then decimal neg (digitsValue 10 0 ip) (parseExponent r1)
        else NaN
    end.

(** [parseInt] with no radix argument. *)
Definition parseInt (str : string) : number :=
  let '(neg, s) := parseSign (Str.trimStart str) in
  let '(radix, s) :=
    match s with
    | String "0" (String x s') =>
        if Ascii.eqb x "x" || Ascii.eqb x "X" then (16, s') else (10, s)
    | _ => (10, s)
    end in
  let '(ds, _) :=
    span (if radix =? 16 then isHexDigit else Str.isDigit) s in
  if Str.truthy ds then round64 neg (inject_Z (digitsValue radix 0 ds))
  else NaN.

(** [floor (log10 q)] for a positive [q]. *)
Definition ilog10 (q : Q) : Z :=
  let e := (ilog2 q * 1233) / 4096 in
  if Qle_bool (10 ^ (e + 1)) q then e + 1
  else if Qle_bool (10 ^ e) q then e else e - 1.

Definition digitsOfZ (z : Z) : string :=
  DecimalString.NilZero.string_of_uint (N.to_uint (Z.to_N z)).

Definition roundTrips (q : Q) (s : Z) (scale : Q) : bool :=
  match round64 false (inject_Z s * scale) with
  | Fin _ r => Qeq_bool r q
  | _ => false
  end.

(** The digits of Number::toString: the least [k], with an integer [s] of
    [k] digits and an [n], such that [s * 10 ^ (n - k)] has number value
    [q]; of two such [s] the one nearer to [q], and the even one on a tie.
    The candidates are the two neighbours of [q] on the grid of step
    [10 ^ (n - k)]; the upper one may be [10 ^ k], which is the digit 1 one
    decade higher. *)
Definition digitsAt (k n s : Z) : Z * Z * Z :=
  if s =? 10 ^ k then (k, 10 ^ (k - 1), n + 1) else (k, s, n).

Fixpoint shortestDigits (fuel : nat) (k n : Z) (q : Q) : Z * Z * Z :=
  let scale := (10 ^ (n - k))%Q in
  let lo := Qfloor (q / scale) in
  let hi := lo + 1 in
  let okLo := (10 ^ (k - 1) <=? lo) && roundTrips q lo scale in
  let okHi := roundTrips q hi scale in
  let dLo := (q - inject_Z lo * scale)%Q in
  let dHi := (inject_Z hi * scale - q)%Q in
  match fuel with
  | O => digitsAt k n lo
  | S fuel' =>
      if okLo && okHi then
        match Qcompare dLo dHi with
        | Lt => digitsAt k n lo
        | Gt => digitsAt k n hi
        | Eq => digitsAt k n (if Z.even lo then lo else hi)
        end
      else if okLo then digitsAt k n lo
      else if okHi then digitsAt k n hi
      else shortestDigits fuel' (k + 1) n q
  end.

Fixpoint zeros (n : nat) : string :=
  match n with O => EmptyString | S n' => String "0" (zeros n') end.

(** Number::toString in radix 10. *)
Definition toString (x : number) : string :=
  match x with
  | NaN => "NaN"
  | Inf s => if s then "-Infinity" else "Infinity"
  | Fin s q =>
      if Qeq_bool q 0 then "0"
      else
        let '(k, d, n) := shortestDigits 17 1 (ilog10 q + 1) q in
        let ds := digitsOfZ d in
        let e := n - 1 in
        let body :=
          if (k <=? n) && (n <=? 21) then ds +:+ zeros (Z.to_nat (n - k))
          else if (0 <? n) && (n <=? 21) then
            substring 0 (Z.to_nat n) ds +:+ "." +:+
            substring (Z.to_nat n) (Z.to_nat (k - n)) ds
          else if (-6 <? n) && (n <=? 0) then
            "0." +:+ zeros (Z.to_nat (- n)) +:+ ds
          else
            (if k =? 1 then ds
             else substring 0 1 ds +:+ "." +:+
                  substring 1 (Z.to_nat (k - 1)) ds)
            +:+ "e" +:+ (if e <? 0 then "-" else "+")
            +:+ digitsOfZ (Z.abs e) in
        if s then "-" +:+ body else body
  end.

(** A natural number in a template literal. *)
Definition natToString (n : nat) : string := toString (ofNat n).

End Conv.

(** ** Regular expressions

    A backtracking matcher for the pattern constructs the mapper uses,
    written after the continuation semantics of the ECMAScript standard:
    a matcher takes a state (the end index and the captures so far) and a
    continuation, and returns the final state or fails. *)

Module Regex.

Inductive cclass : Type :=
| Digit   (* \d *)
| Space   (* \s *)
| Any.    (* .  *)

Inductive regex : Type :=
| Eps
| Chr (c : ascii)
| Cls (k : cclass)
| Seq (r1 r2 : regex)
| Quant (min : nat) (max : option nat) (greedy : bool) (r : regex)
| Group (i : nat) (r : regex)
| Bol   (* ^ *)
| Eol.  (* $ *)

Definition inClass (k : cclass) (c : ascii) : bool :=
  match k with
  | Digit => Str.isDigit c
  | Space => Str.isSpace c
  | Any => negb (Str.isLineTerminator c)
  end.

Record mstate : Type := MState {
  endIndex : nat;
  captures : list (option (nat * nat))
}.

(** The capture groups inside a pattern, which a quantifier clears at the
    start of every iteration. *)
Fixpoint groupsOf (r : regex) : list nat :=
  match r with
  | Seq r1 r2 => groupsOf r1 ++ groupsOf r2
  | Quant _ _ _ r' => groupsOf r'
  | Group i r' => i :: groupsOf r'
  | _ => []
  end.

Definition clearGroups (gs : list nat) (x : mstate) : mstate :=
  MState (endIndex x) (foldr (fun i cs => <[i := None]> cs) (captures x) gs).

Section Matcher.
Variable ignoreCase : bool.
Variable input : list ascii.

Definition sameChar (a b : ascii) : bool :=
  if ignoreCase
  then Ascii.eqb (Str.canonicalize a) (Str.canonicalize b)
  else Ascii.eqb a b.

Definition step (p : ascii -> bool) (x : mstate)
    (k : mstate -> option mstate) : option mstate :=
  match input !! endIndex x with
  | Some c => if p c then k (MState (S (endIndex x)) (captures x)) else None
  | None => None
  end.

(** RepeatMatcher recurses with [min] one less, or, once [min] is 0,
    from a strictly larger end index, so the fuel given by [matcher]
    below is never exhausted. *)
Fixpoint matcher (r : regex) (x : mstate)
    (k : mstate -> option mstate) {struct r} : option mstate :=
  match r with
  | Eps => k x
  | Chr c => step (sameChar c) x k
  | Cls cl => step (inClass cl) x k
  | Seq r1 r2 => matcher r1 x (fun y => matcher r2 y k)
  | Group i r' =>
      matcher r' x (fun y =>
        k (MState (endIndex y)
             (<[i := Some (endIndex x, endIndex y)]> (captures y))))
  | Bol => if (endIndex x =? 0)%nat then k x else None
  | Eol => if (endIndex x =? length input)%nat then k x else None
  | Quant min max greedy r' =>
      (fix rep (fuel min : nat) (max : option nat) (x : mstate)
           {struct fuel} : option mstate :=
         match fuel with
         | O => None
         | S fuel' =>
             match max with
             | Some O => k x
             | _ =>
                 let d := fun y =>
                   if (min =? 0)%nat && (endIndex y =? endIndex x)%nat
                   then None
                   else rep fuel' (Nat.pred min) (Nat.pred <$> max) y in
                 let xr := clearGroups (groupsOf r') x in
                 if negb (min =? 0)%nat then matcher r' xr d
                 else if greedy then
                   match matcher r' xr d with
                   | Some z => Some z
                   | None => k x
                   end
                 else
                   match k x with
                   | Some z => Some z
                   | None => matcher r' xr d
                   end
             end
         end)
        (S (min + (length input - endIndex x))) min max x
  end.

Definition groupCount (r : regex) : nat :=
  S (foldr Nat.max 0%nat (groupsOf r)).

(** One attempt at each start index, from the left. *)
Fixpoint search (r : regex) (fuel start : nat) : option mstate :=
  match
    matcher (Group 0 r) (MState start (replicate (groupCount r) None))
      Some
  with
  | Some y => Some y
  | None =>
      match fuel with
      | O => None
      | S fuel' => search r fuel' (S start)
      end
  end.

Definition slice (a b : nat) : string :=
  string_of_list_ascii (take (b - a) (drop a input)).

End Matcher.

(** [s.match(r)] for a pattern without the [g] flag: [null], or the array
    of the whole match followed by the captures, [undefined] for a group
    that took no part. *)
Definition exec (r : regex) (ignoreCase : bool) (s : string)
  : option (list (option string)) :=
  let input := list_ascii_of_string s in
  match search ignoreCase input r (length input) 0 with
  | Some y =>
      Some ((fun c : option (nat * nat) =>
               (fun '(a, b) => slice input a b) <$> c) <$> captures y)
  | None => None
  end.

(** [m?.[i]]. *)
Definition group (m : option (list (option string))) (i : nat)
  : option string :=
  match m with
  | Some cs => match cs !! i with Some c => c | None => None end
  | None => None
  end.

(** Pattern syntax. *)
Fixpoint lit (s : string) : regex :=
  match s with
  | EmptyString => Eps
  | String c EmptyString => Chr c
  | String c s' => Seq (Chr c) (lit s')
  end.

Definition seqs (rs : list regex) : regex := foldr Seq Eps rs.
Definition star (r : regex) : regex := Quant 0 None true r.
Definition plus (r : regex) : regex := Quant 1 None true r.
Definition opt (r : regex) : regex := Quant 0 (Some 1%nat) true r.
Definition starLazy (r : regex) : regex := Quant 0 None false r.

End Regex.

(** ** The component *)

Module CsvImport.
Import Num.

Local Open Scope string_scope.

(** The fields of [Partial<CabinetProduct>] that the mapper fills: all of
    them are present in every mapped record. *)
Record CabinetProduct : Type := {
  wSKU : string;
  vSKU : string;
  brand : string;
  doorStyle : string;
  discount : number;
  costFactor : number;
  assemblyFee : number;
  assemblyCost : number;
  retailPrice : number;
  discountPrice : number;
  height : number;
  width : number;
  weight : number;
  species : string;
  imagePath : string;
  categories : string;
  tags : string;
  publish : bool
}.

(** A row of the parsed file: header name to cell. *)
Abbreviation RawRow := (gmap string string).

(** *** The patterns of [mapToCabinetProduct] *)

Import Regex.

(** The pattern "/^(.*?)\s+(.*?\s+.*?)\s+(.*?\s+Cabinet)\s+(R)$/i", where
    the last group R is the greedy ".*". *)
Definition reName : regex :=
  seqs [ Bol;
         Group 1 (starLazy (Cls Any));
         plus (Cls Space);
         Group 2 (seqs [starLazy (Cls Any); plus (Cls Space);
                        starLazy (Cls Any)]);
         plus (Cls Space);
         Group 3 (seqs [starLazy (Cls Any); plus (Cls Space);
                        lit "Cabinet"]);
         plus (Cls Space);
         Group 4 (star (Cls Any));
         Eol ].

(** The pattern "/(\d+)W\s+X\s+(\d+)H$/i". *)
Definition reSize : regex :=
  seqs [ Group 1 (plus (Cls Digit)); lit "W"; plus (Cls Space); lit "X";
         plus (Cls Space); Group 2 (plus (Cls Digit)); lit "H"; Eol ].

(** The pattern "\d+(?:\.\d+)?" of a decimal numeral. *)
Definition reDecimal : regex :=
  seqs [ plus (Cls Digit); opt (seqs [Chr "."; plus (Cls Digit)]) ].

(** The pattern "/Width:\s*(\d+(?:\.\d+)?)/i". *)
Definition reWidth : regex :=
  seqs [ lit "Width:"; star (Cls Space); Group 1 reDecimal ].

(** The pattern "/Height:\s*(\d+(?:\.\d+)?)/i". *)
Definition reHeight : regex :=
  seqs [ lit "Height:"; star (Cls Space); Group 1 reDecimal ].

(** The pattern "/Door:\s*(\d+)/i". *)
Definition reDoor : regex :=
  seqs [ lit "Door:"; star (Cls Space); Group 1 (plus (Cls Digit)) ].

(** *** [extractMeta] and [mapToCabinetProduct] *)

Definition extractMeta (row : RawRow) (key : string) : option string :=
  row !! ("Meta: " +:+ key).

(** [row => row.SKU] as a condition. *)
Definition hasSKU (row : RawRow) : bool :=
  match row !! "SKU" with
  | Some s => Str.truthy s
  | None => false
  end.

(** The title-derived style token: the [doorStyle] constant of the
    callback. *)
Definition titleDoorStyle (row : RawRow) : string :=
  let nameParts := exec reName true (Str.orElse (row !! "Name") "") in
  let collectionStyle := Str.orElse (group nameParts 2) "" in
  if Str.includes collectionStyle "Shaker" then "Shaker"
  else Str.orElse (last (Str.split " " collectionStyle)) "Shaker".

(** [doors], from the short description. *)
Definition doorCount (row : RawRow) : number :=
  let shortDesc := Str.orElse (row !! "Short description") "" in
  let doorMatch := exec reDoor true shortDesc in
  orElse (Conv.parseInt (Str.orElse (group doorMatch 1) "1")) one.

(** The [tagDoorStyle] constant of the callback. *)
Definition tagDoorStyle (row : RawRow) : string :=
  let tags := Str.toLowerCase (Str.orElse (row !! "Tags") "") in
  if Str.includes tags "double-door" then "Double Door"
  else if Str.includes tags "single-door" then "Single Door"
  else Conv.toString (doorCount row) +:+ " Door".

(** The body of the [map] callback. *)
Definition mapRow (row : RawRow) : CabinetProduct :=
  let name := Str.orElse (row !! "Name") "" in
  let nameParts := exec reName true name in
  let brand := Str.orElse (group nameParts 1) "Forevermark" in
  let doorStyle := titleDoorStyle row in
  let sizeMatch := exec reSize true name in
  let width := Conv.parseFloat (Str.orElse (group sizeMatch 1) "0") in
  let height := Conv.parseFloat (Str.orElse (group sizeMatch 2) "0") in
  let shortDesc := Str.orElse (row !! "Short description") "" in
  let widthMatch := exec reWidth true shortDesc in
  let heightMatch := exec reHeight true shortDesc in
  let width :=
    orElse (Conv.parseFloat
              (Str.orElse (group widthMatch 1) (Conv.toString width)))
      zero in
  let height :=
    orElse (Conv.parseFloat
              (Str.orElse (group heightMatch 1) (Conv.toString height)))
      zero in
  let tagDoorStyle := tagDoorStyle row in
  let retailPrice :=
    orElse (Conv.parseFloat
              (Str.orElse
                 (Str.orElseOpt (row !! "Regular price")
                    (row !! "Sale price")) "0"))
      zero in
  let weight :=
    orElse (Conv.parseFloat (Str.orElse (row !! "Weight (lbs)") "0"))
      zero in
  let imagePath :=
    match row !! "Images" with
    | Some images =>
        if Str.truthy images
        then Str.trim (Str.orElse (head (Str.split "," images)) "")
        else ""
    | None => ""
    end in
  let assemblyFee :=
    orElse (Conv.parseFloat
              (Str.orElse (extractMeta row "assembly_fee") "0")) zero in
  let assemblyCost :=
    orElse (Conv.parseFloat
              (Str.orElse (extractMeta row "assembly_cost") "0")) zero in
  {| wSKU := Str.replacePrefix "AZ-" "W-" (Str.orElse (row !! "SKU") "");
     vSKU := Str.replacePrefix "AZ-" "V-" (Str.orElse (row !! "SKU") "");
     brand := Str.orElse (Some brand) "";
     doorStyle :=
       Str.orElse (Some (Str.orElse (Some tagDoorStyle) doorStyle)) "";
     discount := zero;
     costFactor := one;
     assemblyFee := assemblyFee;
     assemblyCost := assemblyCost;
     retailPrice := retailPrice;
     discountPrice := zero;
     height := height;
     width := width;
     weight := weight;
     species := "MDF";
     imagePath := imagePath;
     categories := Str.orElse (row !! "Categories") "";
     tags := Str.orElse (row !! "Tags") "";
     publish := bool_decide (row !! "Published" = Some "1") |}.

Definition mapToCabinetProduct (rows : list RawRow) : list CabinetProduct :=
  List.map mapRow (List.filter hasSKU rows).

(** *** The session state of the component *)

Record Session : Type := {
  parsedRows : list RawRow;
  mappedRows : list CabinetProduct;
  previewRows : list CabinetProduct;
  isParsing : bool;
  isDragOver : bool;
  isImporting : bool;
  importProgress : number;
  errorMessage : option string;
  successMessage : option string;
  importedCount : nat
}.

Definition resetState : Session :=
  {| parsedRows := []; mappedRows := []; previewRows := [];
     isParsing := false; isDragOver := false; isImporting := false;
     importProgress := zero; errorMessage := None; successMessage := None;
     importedCount := 0 |}.

Definition setErrorMessage (m : option string) (s : Session) : Session :=
  {| parsedRows := parsedRows s; mappedRows := mappedRows s;
     previewRows := previewRows s; isParsing := isParsing s;
     isDragOver := isDragOver s; isImporting := isImporting s;
     importProgress := importProgress s; errorMessage := m;
     successMessage := successMessage s;
     importedCount := importedCount s |}.

Definition setSuccessMessage (m : option string) (s : Session) : Session :=
  {| parsedRows := parsedRows s; mappedRows := mappedRows s;
     previewRows := previewRows s; isParsing := isParsing s;
     isDragOver := isDragOver s; isImporting := isImporting s;
     importProgress := importProgress s; errorMessage := errorMessage s;
     successMessage := m; importedCount := importedCount s |}.

Definition setIsParsing (b : bool) (s : Session) : Session :=
  {| parsedRows := parsedRows s; mappedRows := mappedRows s;
     previewRows := previewRows s; isParsing := b;
     isDragOver := isDragOver s; isImporting := isImporting s;
     importProgress := importProgress s; errorMessage := errorMessage s;
     successMessage := successMessage s;
     importedCount := importedCount s |}.

Definition setIsImporting (b : bool) (s : Session) : Session :=
  {| parsedRows := parsedRows s; mappedRows := mappedRows s;
     previewRows := previewRows s; isParsing := isParsing s;
     isDragOver := isDragOver s; isImporting := b;
     importProgress := importProgress s; errorMessage := errorMessage s;
     successMessage := successMessage s;
     importedCount := importedCount s |}.

Definition setImportProgress (p : number) (s : Session) : Session :=
  {| parsedRows := parsedRows s; mappedRows := mappedRows s;
     previewRows := previewRows s; isParsing := isParsing s;
     isDragOver := isDragOver s; isImporting := isImporting s;
     importProgress := p; errorMessage := errorMessage s;
     successMessage := successMessage s;
     importedCount := importedCount s |}.

Definition setImportedCount (n : nat) (s : Session) : Session :=
  {| parsedRows := parsedRows s; mappedRows := mappedRows s;
     previewRows := previewRows s; isParsing := isParsing s;
     isDragOver := isDragOver s; isImporting := isImporting s;
     importProgress := importProgress s; errorMessage := errorMessage s;
     successMessage := successMessage s; importedCount := n |}.

Definition setRows (parsed : list RawRow) (mapped preview : list CabinetProduct)
    (s : Session) : Session :=
  {| parsedRows := parsed; mappedRows := mapped; previewRows := preview;
     isParsing := isParsing s; isDragOver := isDragOver s;
     isImporting := isImporting s; importProgress := importProgress s;
     errorMessage := errorMessage s; successMessage := successMessage s;
     importedCount := importedCount s |}.

(** *** The [complete] callback of [onFileUpload] *)

Record ParseError : Type := { code : string; message : string }.

Definition nonFieldError (e : ParseError) : bool :=
  negb (String.eqb (code e) "TooFewFields").

Definition onParseComplete (data : list RawRow) (errors : list ParseError)
    (s : Session) : Session :=
  let s := setIsParsing false s in
  match List.filter nonFieldError errors with
  | e :: _ => setErrorMessage (Some ("Parse errors: " +:+ message e)) s
  | [] =>
      let parsed := List.filter hasSKU data in
      let mapped := mapToCabinetProduct parsed in
      setSuccessMessage
        (Some (Conv.natToString (length mapped)
               +:+ " rows mapped successfully from "
               +:+ Conv.natToString (length parsed) +:+ " parsed."))
        (setRows parsed mapped (take 10 mapped) s)
  end.

(** *** [onImportRows] *)

(** The value of the form: a control holds a value or [null].  The form is
    invalid when a validator of [defaultDiscount] reports an error;
    Angular's [Validators.min] and [Validators.max] accept [null] and
    [NaN] and reject a number below, respectively above, their bound. *)
Record Defaults : Type := {
  defaultPublish : option bool;
  defaultDiscount : option number
}.

Definition formInvalid (f : Defaults) : bool :=
  match defaultDiscount f with
  | Some d => ltb d zero || ltb (ofNat 100) d
  | None => false
  end.

(** ToNumber on the value of the discount control: [null] is 0. *)
Definition toNumber (v : option number) : number :=
  match v with Some d => d | None => zero end.

(** The [input] object built for one row. *)
Definition makeInput (defaults : Defaults) (row : CabinetProduct)
  : CabinetProduct :=
  let discountPrice :=
    mul (orElse (retailPrice row) zero)
        (sub one (div (toNumber (defaultDiscount defaults)) (ofNat 100))) in
  {| wSKU := wSKU row; vSKU := vSKU row; brand := brand row;
     doorStyle := doorStyle row;
     discount :=
       match defaultDiscount defaults with
       | Some d => d
       | None => orElse (discount row) zero
       end;
     costFactor := costFactor row;
     assemblyFee := assemblyFee row; assemblyCost := assemblyCost row;
     retailPrice := retailPrice row;
     discountPrice := discountPrice;
     height := height row; width := width row; weight := weight row;
     species := species row; imagePath := imagePath row;
     categories := categories row; tags := tags row;
     publish :=
       match defaultPublish defaults with
       | Some b => b
       | None => publish row
       end |}.

Section Importer.
(** The values [createCabinetProduct] resolves with: the persisted
    record, never [null]. *)
Variable Created : Type.

Inductive outcome : Type :=
| Fulfilled (r : Created)
| Rejected.

(** The persistence service: the outcome of the call made for the row
    of a given index with a given input. *)
Variable createCabinetProduct : nat -> CabinetProduct -> outcome.

(** The time the call made for a row takes to settle, chosen by the
    environment.  The pending calls of a batch settle by increasing
    latency, and in call order when latencies are equal. *)
Variable latency : nat -> nat.

Fixpoint settleInsert (k : nat) (ks : list nat) : list nat :=
  match ks with
  | [] => [k]
  | k' :: ks' =>
      if (latency k <=? latency k')%nat then k :: ks
      else k' :: settleInsert k ks'
  end.

Definition settleOrder (ks : list nat) : list nat :=
  foldr settleInsert [] ks.

(** What an observer sees of a run. *)
Inductive event : Type :=
| Call (k : nat) (input : CabinetProduct)
| Settle (k : nat) (result : option Created)
| Tick (progress : number) (imported : nat)
| Yield.

(** The [try]/[catch] of the row callback: a rejection becomes [null]. *)
Definition caught (o : outcome) : option Created :=
  match o with
  | Fulfilled r => Some r
  | Rejected => None
  end.

Definition notNull (r : option Created) : bool :=
  match r with Some _ => true | None => false end.

Variable batchSize : nat.
Variable defaults : Defaults.

(** One iteration of the loop, from the slice to the progress update. *)
Definition runBatch (i : nat) (s : Session) : Session * list event :=
  let batch := take batchSize (drop i (mappedRows s)) in
  let rows := seq i (length batch) in
  let inputs := makeInput defaults <$> batch in
  let batchResults :=
    zip_with (fun k input => caught (createCabinetProduct k input))
      rows inputs in
  let settled :=
    (fun k => Settle k (default None (batchResults !! (k - i)%nat)))
      <$> settleOrder rows in
  let count :=
    (importedCount s + length (List.filter notNull batchResults))%nat in
  let progress :=
    round (mul (div (ofNat (i + length batch))
                    (ofNat (length (mappedRows s))))
               (ofNat 100)) in
  (setImportProgress progress (setImportedCount count s),
   (zip_with Call rows inputs ++ settled ++ [Tick progress count])%list).

(** The [for] loop.  [fuel] bounds the number of iterations; with a
    positive batch size the loop ends within as many iterations as there
    are rows, which is the fuel [importRows] gives it. *)
Fixpoint importLoop (fuel i : nat) (s : Session) (tr : list event)
  : option (Session * list event) :=
  if (length (mappedRows s) <=? i)%nat then Some (s, tr)
  else
    match fuel with
    | O => None
    | S fuel' =>
        let '(s', evs) := runBatch i s in
        importLoop fuel' (i + batchSize) s' (tr ++ evs ++ [Yield])%list
    end.

Definition fullSuccess (n : nat) : string :=
  "Successfully imported " +:+ Conv.natToString n +:+ " rows!".

Definition partialSuccess (imported total : nat) : string :=
  "Imported " +:+ Conv.natToString imported +:+ " of "
  +:+ Conv.natToString total +:+ " rows. Check console for errors.".

(** The body of [onImportRows], for a given batch size: the final session
    and the trace of the run. *)
Definition importRows (s : Session) : option (Session * list event) :=
  if formInvalid defaults || (length (mappedRows s) =? 0)%nat
  then Some (setErrorMessage (Some "Invalid form or no rows to import.") s,
             [])
  else
    let s0 :=
      setSuccessMessage None
        (setErrorMessage None
           (setImportedCount 0
              (setImportProgress zero (setIsImporting true s)))) in
    match importLoop (length (mappedRows s0)) 0 s0 [] with
    | Some (s1, tr) =>
        let s2 := setIsImporting false s1 in
        Some
          (if (importedCount s2 =? length (mappedRows s2))%nat
           then setSuccessMessage
                  (Some (fullSuccess (importedCount s2))) s2
           else setErrorMessage
                  (Some (partialSuccess (importedCount s2)
                           (length (mappedRows s2)))) s2,
           tr)
    | None => None
    end.

End Importer.

Arguments Fulfilled {Created} r.
Arguments Rejected {Created}.
Arguments Call {Created} k input.
Arguments Settle {Created} k result.
Arguments Tick {Created} progress imported.
Arguments Yield {Created}.
Arguments caught {Created} o.
Arguments notNull {Created} r.

(** [onImportRows] with the batch size of the source. *)
Definition onImportRows (Created : Type)
    (createCabinetProduct : nat -> CabinetProduct -> outcome Created)
    (latency : nat -> nat) (defaults : Defaults)
    (s : Session) : option (Session * list (event Created)) :=
  importRows Created createCabinetProduct latency 10 defaults s.

End CsvImport.

(** ** The other handlers of the component *)

Module Handlers.
Import Num CsvImport.

Local Open Scope string_scope.

(** [trackById]: the key of a row of the preview table. *)
Definition trackById (index : nat) (item : CabinetProduct) : string :=
  Str.orElse (Some (wSKU item)) (Conv.natToString index).

(** [ngOnInit] resets the state. *)
Definition ngOnInit : Session := resetState.

Definition setIsDragOver (b : bool) (s : Session) : Session :=
  {| parsedRows := parsedRows s; mappedRows := mappedRows s;
     previewRows := previewRows s; isParsing := isParsing s;
     isDragOver := b; isImporting := isImporting s;
     importProgress := importProgress s; errorMessage := errorMessage s;
     successMessage := successMessage s;
     importedCount := importedCount s |}.

(** [triggerFileSelect]: whether the click on the file input is issued;
    [hasFileInput] says that the view child is there. *)
Definition triggerFileSelect (hasFileInput : bool) (s : Session) : bool :=
  negb (isParsing s) && hasFileInput.

Definition onDragOver (s : Session) : Session := setIsDragOver true s.

Definition onDragLeave (s : Session) : Session := setIsDragOver false s.

(** What the component reads of a file: its name. *)
Record File : Type := { fileName : string }.

Definition isCsv (file : File) : bool := Str.endsWith (fileName file) ".csv".

(** [onFileUpload], up to the call of [Papa.parse]: the new state and the
    file handed to the parser, if any.  [files] is [event.target.files]. *)
Definition onFileUpload (files : list File) (s : Session)
  : Session * option File :=
  match head files with
  | Some file =>
      if isCsv file
      then (setErrorMessage None (setIsParsing true s), Some file)
      else (setErrorMessage (Some "Please select a valid CSV file.") s, None)
  | None => (setErrorMessage (Some "Please select a valid CSV file.") s, None)
  end.

(** [onDrop]; [files] is [event.dataTransfer?.files], empty when there is
    none. *)
Definition onDrop (files : list File) (s : Session)
  : Session * option File :=
  let s := setIsDragOver false s in
  match files with
  | file :: _ =>
      if isCsv file then onFileUpload [file] s
      else (setErrorMessage (Some "Please drop a valid CSV file.") s, None)
  | [] => (s, None)
  end.

(** The [error] callback of [Papa.parse]. *)
Definition onParseError (msg : string) (s : Session) : Session :=
  setErrorMessage (Some ("Failed to parse file: " +:+ msg))
    (setIsParsing false s).

(** What [Papa.parse] reports for a file: the [complete] callback with the
    rows and the errors of the parse, or the [error] callback. *)
Inductive parseResult : Type :=
| Completed (data : list RawRow) (errors : list ParseError)
| Failed (msg : string).

Definition onParseFinished (r : parseResult) (s : Session) : Session :=
  match r with
  | Completed data errors => onParseComplete data errors s
  | Failed msg => onParseError msg s
  end.

(** A whole upload: [onFileUpload], then the callback of the parser when
    the file was handed to it. *)
Definition uploadFile (files : list File) (r : parseResult) (s : Session)
  : Session :=
  match onFileUpload files s with
  | (s', Some _) => onParseFinished r s'
  | (s', None) => s'
  end.

(** A whole drop, likewise. *)
Definition dropFile (files : list File) (r : parseResult) (s : Session)
  : Session :=
  match onDrop files s with
  | (s', Some _) => onParseFinished r s'
  | (s', None) => s'
  end.

(** What happens to the component around an upload: the user drags,
    drops or selects files, and the parser calls back, once for each file
    it was handed.  The second component of the state counts the parses
    that have not called back yet. *)
Inductive uiEvent : Type :=
| DragOver
| DragLeave
| Drop (files : list File)
| Select (files : list File)
| ParserCallback (r : parseResult).

Definition isCallback (e : uiEvent) : bool :=
  match e with ParserCallback _ => true | _ => false end.

Definition handedOver (file : option File) (pending : nat) : nat :=
  match file with Some _ => S pending | None => pending end.

Definition fire (e : uiEvent) (st : Session * nat) : Session * nat :=
  let '(s, pending) := st in
  match e with
  | DragOver => (onDragOver s, pending)
  | DragLeave => (onDragLeave s, pending)
  | Drop files =>
      let '(s', file) := onDrop files s in (s', handedOver file pending)
  | Select files =>
      let '(s', file) := onFileUpload files s in
      (s', handedOver file pending)
  | ParserCallback r =>
      match pending with
      | O => (s, O)
      | S pending' => (onParseFinished r s, pending')
      end
  end.

Definition fireAll (es : list uiEvent) (st : Session * nat) : Session * nat :=
  foldl (fun st e => fire e st) st es.

End Handlers.

(** * Sample rows and reference definitions *)

Module Samples.
Import Num CsvImport.
Local Open Scope string_scope.

(** A row whose SKU has no "AZ-" prefix. *)
Definition rowPlainSKU : RawRow :=
  <["SKU" := "KB-30"]> (<["Name" := "Base Cabinet 30W X 34H"]> ∅).

(** The row of scenario 1. *)
Definition rowScenario1 : RawRow :=
  <["SKU" := "AZ-123"]>
    (<["Name" := "Acme Shaker Wall Cabinet 9W X 30H"]> ∅).

(** A row with a proper title and neither tags nor description. *)
Definition rowTitled : RawRow :=
  <["SKU" := "AZ-9"]>
    (<["Name" := "Forevermark Champagne Shaker Wall Cabinet 9W X 30H"]> ∅).

(** A row whose regular price is not a numeral and whose sale price is. *)
Definition rowBadRegularPrice : RawRow :=
  <["SKU" := "AZ-7"]>
    (<["Regular price" := "call us"]> (<["Sale price" := "5"]> ∅)).

(** The first cell that is present and non-empty. *)
Fixpoint firstNonEmpty (cells : list (option string)) : option string :=
  match cells with
  | [] => None
  | Some s :: rest => if Str.truthy s then Some s else firstNonEmpty rest
  | None :: rest => firstNonEmpty rest
  end.

(** The number a cell parses to, and 0 when it parses to no number. *)
Definition numberOrZero (s : string) : number :=
  let v := Conv.parseFloat s in
  if isNaN v || isZero v then zero else v.

(** The row has no door marker in its tags. *)
Definition noDoorMarker (row : RawRow) : Prop :=
  let tags := Str.toLowerCase (Str.orElse (row !! "Tags") "") in
  Str.includes tags "double-door" = false
  /\ Str.includes tags "single-door" = false.

(** Rows without an identifier: an empty SKU cell, and no SKU cell. *)
Definition rowEmptySKU : RawRow :=
  <["SKU" := ""]> (<["Name" := "Acme Shaker Wall Cabinet 12W X 30H"]> ∅).

Definition rowMissingSKU : RawRow :=
  <["Name" := "Acme Shaker Wall Cabinet 15W X 30H"]> ∅.

(** The row of scenario 3: the short description overrides the title. *)
Definition rowScenario3 : RawRow :=
  <["SKU" := "AZ-B12"]>
    (<["Name" := "Acme Midtown Grey Base Cabinet 9W X 30H"]>
       (<["Short description" := "Width: 12 Height: 33 Door: 2"]> ∅)).

(** A row with a regular price of 200. *)
Definition rowPriced : RawRow :=
  <["SKU" := "AZ-200"]>
    (<["Name" := "Acme Shaker Base Cabinet 24W X 34H"]>
       (<["Regular price" := "200"]> (<["Published" := "0"]> ∅))).

(** A session after the upload of two rows. *)
Definition session2 : Session :=
  onParseComplete [rowPriced; rowBadRegularPrice] [] resetState.

(** A session after the upload of 25 rows like that of scenario 1. *)
Definition session25 : Session :=
  onParseComplete (replicate 25 rowScenario1) [] resetState.

(** A service that rejects the call made for row 3 and accepts the rest. *)
Definition serviceFailingAt3 (k : nat) (input : CabinetProduct)
  : outcome unit :=
  if (k =? 3)%nat then Rejected else Fulfilled tt.

(** Calls that settle in reverse order within a batch. *)
Definition reverseLatency (k : nat) : nat := (100 - k)%nat.

Definition defaultsTenPercent : Defaults :=
  {| defaultPublish := Some true; defaultDiscount := Some (ofNat 10) |}.

Definition defaultsOutOfRange : Defaults :=
  {| defaultPublish := Some false; defaultDiscount := Some (ofNat 150) |}.

(** Two rows whose SKUs are sent to the same primary identifier. *)
Definition rowPrefixedSKU : RawRow := <["SKU" := "AZ-77"]> ∅.
Definition rowClashingSKU : RawRow := <["SKU" := "W-77"]> ∅.

(** A row with tags in capital letters and a list of images. *)
Definition rowTagged : RawRow :=
  <["SKU" := "AZ-W3030"]>
    (<["Tags" := "Wall, DOUBLE-Door, Soft Close"]>
       (<["Images" := "  https://cdn.example/w3030.jpg , https://cdn.example/b.jpg"]>
          ∅)).

(** The head of the text is no white space. *)
Definition cleanStart (s : string) : Prop :=
  match s with
  | EmptyString => True
  | String c _ => Str.isSpace c = false
  end.

(** Every character of a text satisfies a test. *)
Fixpoint allChars (p : ascii -> bool) (s : string) : bool :=
  match s with
  | EmptyString => true
  | String c s' => p c && allChars p s'
  end.

(** The text of a cell as the mapper reads it: a missing cell reads as an
    empty one. *)
Definition cell (row : RawRow) (column : string) : string :=
  Str.orElse (row !! column) "".

(** The columns that [mapToCabinetProduct] names. *)
Definition columns : list string :=
  [ "SKU"; "Name"; "Short description"; "Tags"; "Regular price";
    "Sale price"; "Weight (lbs)"; "Images"; "Meta: assembly_fee";
    "Meta: assembly_cost"; "Categories"; "Published" ].

(** Every error of a parse is of the kind that the upload ignores. *)
Definition onlyFieldErrors (errors : list ParseError) : Prop :=
  Forall (fun e => code e = "TooFewFields") errors.

(** An upload goes through: the first file is a ".csv" file and the parser
    completes with no error but of the ignored kind. *)
Definition uploadSucceeds (files : list Handlers.File)
    (r : Handlers.parseResult) : Prop :=
  exists file data errors,
    head files = Some file
    /\ (exists base, Handlers.fileName file = base +:+ ".csv")
    /\ r = Handlers.Completed data errors
    /\ onlyFieldErrors errors.

(** A row whose price is beyond the range of binary64. *)
Definition rowInfinitePrice : RawRow :=
  <["SKU" := "AZ-300"]> (<["Regular price" := "1e999"]> ∅).

Definition defaultsFullDiscount : Defaults :=
  {| defaultPublish := None; defaultDiscount := Some (ofNat 100) |}.

Definition fileCsv : Handlers.File := {| Handlers.fileName := "export.csv" |}.
Definition fileUpperCase : Handlers.File :=
  {| Handlers.fileName := "EXPORT.CSV" |}.

Definition errorShortRow : ParseError :=
  {| code := "TooFewFields"; message := "Too few fields" |}.
Definition errorQuotes : ParseError :=
  {| code := "MissingQuotes"; message := "Quoted field unterminated" |}.

Fixpoint occurs (c : ascii) (s : string) : bool :=
  match s with
  | EmptyString => false
  | String a s' => Ascii.eqb a c || occurs c s'
  end.

End Samples.

(** * What a run shows

    Reference definitions used to state the properties of [importRows]:
    the observable parts of a trace, and the trace a run is expected to
    leave, batch by batch. *)

Module Run.
Import Num CsvImport.

Section Observables.
Context {Created : Type}.

(** The rows for which [createCabinetProduct] was called, in call order. *)
Fixpoint callRows (tr : list (event Created)) : list nat :=
  match tr with
  | [] => []
  | Call k _ :: tr' => k :: callRows tr'
  | _ :: tr' => callRows tr'
  end.

(** The rows whose call has settled, in settling order. *)
Fixpoint settleRows (tr : list (event Created)) : list nat :=
  match tr with
  | [] => []
  | Settle k _ :: tr' => k :: settleRows tr'
  | _ :: tr' => settleRows tr'
  end.

(** The successive values of [importProgress]. *)
Fixpoint progressOf (tr : list (event Created)) : list number :=
  match tr with
  | [] => []
  | Tick p _ :: tr' => p :: progressOf tr'
  | _ :: tr' => progressOf tr'
  end.

(** Every update of the progress, with the number of records processed
    when it is made: the calls that have settled so far. *)
Fixpoint progressLog (processed : nat) (tr : list (event Created))
  : list (nat * number) :=
  match tr with
  | [] => []
  | Settle _ _ :: tr' => progressLog (S processed) tr'
  | Tick p _ :: tr' => (processed, p) :: progressLog processed tr'
  | _ :: tr' => progressLog processed tr'
  end.

(** The calls of a trace with their inputs, in call order. *)
Fixpoint callsOf (tr : list (event Created)) : list (nat * CabinetProduct) :=
  match tr with
  | [] => []
  | Call k input :: tr' => (k, input) :: callsOf tr'
  | _ :: tr' => callsOf tr'
  end.

(** The number of calls in flight after each event of a trace, from
    [pending] calls at its start. *)
Fixpoint inFlight (pending : nat) (tr : list (event Created)) : list nat :=
  match tr with
  | [] => []
  | Call _ _ :: tr' => S pending :: inFlight (S pending) tr'
  | Settle _ _ :: tr' => Nat.pred pending :: inFlight (Nat.pred pending) tr'
  | _ :: tr' => pending :: inFlight pending tr'
  end.

(** The number of calls in flight at the end of a trace. *)
Fixpoint pendingAfter (pending : nat) (tr : list (event Created)) : nat :=
  match tr with
  | [] => pending
  | Call _ _ :: tr' => pendingAfter (S pending) tr'
  | Settle _ _ :: tr' => pendingAfter (Nat.pred pending) tr'
  | _ :: tr' => pendingAfter pending tr'
  end.

(** The number of calls in flight at each update of the counters. *)
Fixpoint inFlightAtTicks (pending : nat) (tr : list (event Created))
  : list nat :=
  match tr with
  | [] => []
  | Call _ _ :: tr' => inFlightAtTicks (S pending) tr'
  | Settle _ _ :: tr' => inFlightAtTicks (Nat.pred pending) tr'
  | Tick _ _ :: tr' => pending :: inFlightAtTicks pending tr'
  | Yield :: tr' => inFlightAtTicks pending tr'
  end.

End Observables.

Section Expected.
Variable Created : Type.
Variable createCabinetProduct : nat -> CabinetProduct -> outcome Created.
Variable latency : nat -> nat.
Variable batchSize : nat.
Variable defaults : Defaults.
Variable rows : list CabinetProduct.

(** The result of the callback for row [k]. *)
Definition resultOf (k : nat) : option Created :=
  match rows !! k with
  | Some row => caught (createCabinetProduct k (makeInput defaults row))
  | None => None
  end.

(** The create-operation succeeded for row [k]. *)
Definition succeeded (k : nat) : Prop :=
  exists row r, rows !! k = Some row
    /\ createCabinetProduct k (makeInput defaults row) = Fulfilled r.

(** How many of the first [k] rows were imported. *)
Definition importedUpTo (k : nat) : nat :=
  length (List.filter notNull (resultOf <$> seq 0 k)).

(** The progress after [k] of the rows. *)
Definition progressAt (k : nat) : number :=
  round (mul (div (ofNat k) (ofNat (length rows))) (ofNat 100)).

(** The size of the batch that starts at row [i]. *)
Definition batchLen (i : nat) : nat := Nat.min batchSize (length rows - i).

(** The events of the batch that starts at row [i]: the calls in row
    order, the settlements, and the update of the counters. *)
Definition batchEvents (i : nat) : list (event Created) :=
  let ks := seq i (batchLen i) in
  zip_with Call ks (makeInput defaults <$> take batchSize (drop i rows))
  ++ ((fun k => Settle k (resultOf k)) <$> settleOrder latency ks)
  ++ [Tick (progressAt (i + batchLen i)) (importedUpTo (i + batchLen i))].

(** A batch followed by the pause that lets the page repaint. *)
Definition segment (i : nat) : list (event Created) :=
  batchEvents i ++ [Yield].

(** The state in which a run that was not refused ends. *)
Definition finalState (s : Session) : Session :=
  let n := length rows in
  let s2 :=
    setIsImporting false
      (setImportProgress (progressAt n)
         (setImportedCount (importedUpTo n)
            (setSuccessMessage None
               (setErrorMessage None
                  (setImportedCount 0
                     (setImportProgress zero (setIsImporting true s))))))) in
  if (importedUpTo n =? n)%nat
  then setSuccessMessage (Some (fullSuccess (importedUpTo n))) s2
  else setErrorMessage (Some (partialSuccess (importedUpTo n) n)) s2.

(** The first rows of [m] consecutive batches, from batch [j] on. *)
Definition batchStarts (j m : nat) : list nat :=
  (fun j' => j' * batchSize)%nat <$> seq j m.

(** The number of batches: the ceiling of [n / b]. *)
Definition batchCount : nat :=
  (length rows + batchSize - 1) / batchSize.

End Expected.

End Run.

(** * Properties *)

Import Num CsvImport Samples Run.

Local Open Scope string_scope.

(** ** Checks of the runtime model *)

Example parseFloat_prefix :
  Conv.parseFloat "  12.5px" = Fin false (25 # 2)
  /\ Conv.parseFloat ".5e1" = ofNat 5
  /\ Conv.parseFloat "abc" = NaN
  /\ Conv.parseFloat "-0" = Fin true 0
  /\ Conv.parseInt "2 doors" = ofNat 2.
Proof. vm_compute. repeat split. Qed.

Example toString_shortest :
  Conv.toString (add (Conv.parseFloat "0.1") (Conv.parseFloat "0.2"))
    = "0.30000000000000004"
  /\ Conv.toString (mul (Conv.parseFloat "1.005") (ofNat 100))
      = "100.49999999999999"
  /\ Conv.toString (Conv.parseFloat "1e21") = "1e+21"
  /\ Conv.toString (Conv.parseFloat "0.000001") = "0.000001"
  /\ Conv.toString (Conv.parseFloat "1e-7") = "1e-7"
  /\ Conv.toString (Conv.parseFloat "1e400") = "Infinity".
Proof. vm_compute. repeat split. Qed.

Example reName_groups :
  Regex.exec reName true "Forevermark Champagne Shaker Wall Cabinet 9W X 30H"
  = Some [Some "Forevermark Champagne Shaker Wall Cabinet 9W X 30H";
          Some "Forevermark"; Some "Champagne Shaker"; Some "Wall Cabinet";
          Some "9W X 30H"]
  /\ Regex.exec reName true "Acme Shaker Wall Cabinet 9W X 30H" = None.
Proof. vm_compute. repeat split. Qed.

Example scenario3_description_wins :
  width (mapRow rowScenario3) = ofNat 12
  /\ height (mapRow rowScenario3) = ofNat 33
  /\ doorCount rowScenario3 = ofNat 2
  /\ doorStyle (mapRow rowScenario3) = "2 Door"
  /\ brand (mapRow rowScenario3) = "Acme".
Proof. vm_compute. repeat split. Qed.

(** The progress is computed in binary64: 290 of 2000 rows give
    [0.145 * 100 = 14.499999999999998], which rounds to 14. *)
Example progress_in_binary64 :
  Conv.toString (mul (div (ofNat 290) (ofNat 2000)) (ofNat 100))
    = "14.499999999999998"
  /\ round (mul (div (ofNat 290) (ofNat 2000)) (ofNat 100)) = ofNat 14.
Proof. vm_compute. repeat split. Qed.

(** ** Strings and prefixes *)

Lemma dropPrefix_spec (p s rest : string) :
  Str.dropPrefix p s = Some rest <-> s = p +:+ rest.
Proof.
  revert s. induction p as [|a p IH]; intros s; simpl.
  - split; [intros [= ->]; reflexivity | intros ->; reflexivity].
  - destruct s as [|b s]; [split; discriminate|].
    destruct (Ascii.eqb_spec a b) as [->|Hne].
    + rewrite IH. split; [intros ->; reflexivity | intros [= ->]; reflexivity].
    + split; [discriminate | intros [= Hab _]; congruence].
Qed.

Lemma replacePrefix_hit (p r rest : string) :
  Str.replacePrefix p r (p +:+ rest) = r +:+ rest.
Proof.
  unfold Str.replacePrefix.
  assert (H : Str.dropPrefix p (p +:+ rest) = Some rest)
    by (apply dropPrefix_spec; reflexivity).
  rewrite H. reflexivity.
Qed.

Lemma replacePrefix_miss (p r s : string) :
  (forall rest, s <> p +:+ rest) -> Str.replacePrefix p r s = s.
Proof.
  intros Hno. unfold Str.replacePrefix.
  destruct (Str.dropPrefix p s) as [rest|] eqn:E; [|reflexivity].
  apply dropPrefix_spec in E. exfalso. exact (Hno rest E).
Qed.

Lemma orElse_truthy (s d : string) :
  s <> "" -> Str.orElse (Some s) d = s.
Proof. destruct s; [congruence | reflexivity]. Qed.

(** ** The mapper *)

Lemma mapToCabinetProduct_cons (row : RawRow) (rows : list RawRow) :
  mapToCabinetProduct (row :: rows) =
  if hasSKU row then mapRow row :: mapToCabinetProduct rows
  else mapToCabinetProduct rows.
Proof.
  unfold mapToCabinetProduct. simpl. destruct (hasSKU row); reflexivity.
Qed.

Lemma hasSKU_true (row : RawRow) :
  hasSKU row = true <-> exists sku, row !! "SKU" = Some sku /\ sku <> "".
Proof.
  unfold hasSKU. destruct (row !! "SKU") as [s|].
  - destruct s; simpl; split.
    + discriminate.
    + intros (sku & [= <-] & Hne). congruence.
    + intros _. eexists. split; [reflexivity | discriminate].
    + reflexivity.
  - split; [discriminate | intros (sku & H & _); discriminate].
Qed.

Lemma hasSKU_false (row : RawRow) :
  hasSKU row = false <-> row !! "SKU" = None \/ row !! "SKU" = Some "".
Proof.
  unfold hasSKU. destruct (row !! "SKU") as [s|].
  - destruct s; simpl; split; auto; try discriminate.
    intros [H|H]; discriminate.
  - split; auto.
Qed.

Lemma filter_hasSKU_sublist (rows : list RawRow) :
  sublist (List.filter hasSKU rows) rows.
Proof.
  induction rows as [|row rows IH]; simpl.
  - constructor.
  - destruct (hasSKU row); [apply sublist_skip | apply sublist_cons]; exact IH.
Qed.

Lemma filter_hasSKU_idem (rows : list RawRow) :
  List.filter hasSKU (List.filter hasSKU rows) = List.filter hasSKU rows.
Proof.
  induction rows as [|row rows IH]; simpl; [reflexivity|].
  destruct (hasSKU row) eqn:E; simpl; rewrite ?E, IH; reflexivity.
Qed.

(** C9: no canonical record comes from a row whose SKU cell is empty or
    missing.  The output of the mapper is the image, in order, of the
    rows that have a non-empty SKU; the other rows leave no trace, and the
    upload callback stores exactly these records without reporting an
    error. *)
Theorem C9_rows_without_sku_dropped (rows : list RawRow) :
  exists srcs : list RawRow,
    mapToCabinetProduct rows = List.map mapRow srcs
    /\ sublist srcs rows
    /\ (forall row, In row srcs <->
          In row rows /\ exists sku, row !! "SKU" = Some sku /\ sku <> "")
    /\ (forall row, In row rows ->
          row !! "SKU" = None \/ row !! "SKU" = Some "" -> ~ In row srcs)
    /\ (forall s,
          mappedRows (onParseComplete rows [] s) = List.map mapRow srcs
          /\ errorMessage (onParseComplete rows [] s) = errorMessage s).
Proof.
  exists (List.filter hasSKU rows). repeat split.
  - apply filter_hasSKU_sublist.
  - apply filter_In in H. tauto.
  - apply filter_In in H. apply hasSKU_true. tauto.
  - intros [Hin Hsku]. apply filter_In. split; [exact Hin|].
    apply hasSKU_true. exact Hsku.
  - intros row Hin Hno Hsrc. apply filter_In in Hsrc as [_ Hhas].
    apply hasSKU_false in Hno. congruence.
  - unfold onParseComplete. simpl.
    unfold mapToCabinetProduct. rewrite filter_hasSKU_idem. reflexivity.
Qed.

Lemma C9_witness :
  exists srcs : list RawRow,
    mapToCabinetProduct [rowScenario1; rowEmptySKU; rowMissingSKU]
      = List.map mapRow srcs
    /\ In rowScenario1 srcs
    /\ ~ In rowEmptySKU srcs
    /\ ~ In rowMissingSKU srcs.
Proof.
  destruct (C9_rows_without_sku_dropped
              [rowScenario1; rowEmptySKU; rowMissingSKU])
    as (srcs & Hmap & _ & Hin & Hout & _).
  exists srcs. split; [exact Hmap|]. split; [|split].
  - apply Hin. split; [simpl; auto|].
    exists "AZ-123". split; [vm_compute; reflexivity | discriminate].
  - apply Hout; [simpl; auto|]. right. vm_compute. reflexivity.
  - apply Hout; [simpl; auto|]. left. vm_compute. reflexivity.
Defined.

(** C10: a non-empty SKU that does not start with "AZ-" is copied
    unchanged into both canonical identifiers. *)
Theorem C10_sku_without_prefix_unchanged (row : RawRow) (sku : string) :
  row !! "SKU" = Some sku ->
  sku <> "" ->
  (forall rest, sku <> "AZ-" +:+ rest) ->
  mapToCabinetProduct [row] = [mapRow row]
  /\ wSKU (mapRow row) = sku
  /\ vSKU (mapRow row) = sku.
Proof.
  intros Hsku Hne Hno. split; [|split].
  - rewrite mapToCabinetProduct_cons.
    assert (H : hasSKU row = true) by (apply hasSKU_true; eauto).
    rewrite H. reflexivity.
  - simpl. rewrite Hsku, (orElse_truthy _ _ Hne).
    apply replacePrefix_miss, Hno.
  - simpl. rewrite Hsku, (orElse_truthy _ _ Hne).
    apply replacePrefix_miss, Hno.
Qed.

Lemma C10_witness :
  mapToCabinetProduct [rowPlainSKU] = [mapRow rowPlainSKU]
  /\ wSKU (mapRow rowPlainSKU) = "KB-30"
  /\ vSKU (mapRow rowPlainSKU) = "KB-30".
Proof.
  apply (C10_sku_without_prefix_unchanged rowPlainSKU "KB-30").
  - vm_compute. reflexivity.
  - discriminate.
  - intros rest H. simpl in H. discriminate.
Defined.

(** C8: both identifiers are computed from the one SKU cell by the same
    prefix substitution, with targets "W-" and "V-": either the SKU starts
    with "AZ-" and the two identifiers share the rest, or both are the SKU
    itself.  The row of scenario 1 maps to W-123, V-123, width 9 and
    height 30. *)
Theorem C8_identifiers_from_one_sku (row : RawRow) (sku : string) :
  row !! "SKU" = Some sku ->
  (wSKU (mapRow row) = Str.replacePrefix "AZ-" "W-" sku
   /\ vSKU (mapRow row) = Str.replacePrefix "AZ-" "V-" sku)
  /\ ((exists rest, sku = "AZ-" +:+ rest
         /\ wSKU (mapRow row) = "W-" +:+ rest
         /\ vSKU (mapRow row) = "V-" +:+ rest)
      \/ ((forall rest, sku <> "AZ-" +:+ rest)
          /\ wSKU (mapRow row) = sku /\ vSKU (mapRow row) = sku))
  /\ (exists r, mapToCabinetProduct [rowScenario1] = [r]
        /\ wSKU r = "W-123" /\ vSKU r = "V-123"
        /\ width r = ofNat 9 /\ height r = ofNat 30
        /\ Conv.toString (width r) = "9" /\ Conv.toString (height r) = "30").
Proof.
  intros Hsku.
  assert (Hor : Str.orElse (row !! "SKU") "" = sku).
  { rewrite Hsku. destruct sku; reflexivity. }
  assert (Hw : wSKU (mapRow row) = Str.replacePrefix "AZ-" "W-" sku)
    by (simpl; rewrite Hor; reflexivity).
  assert (Hv : vSKU (mapRow row) = Str.replacePrefix "AZ-" "V-" sku)
    by (simpl; rewrite Hor; reflexivity).
  split; [split; assumption|]. split.
  - rewrite Hw, Hv.
    destruct (Str.dropPrefix "AZ-" sku) as [rest|] eqn:E.
    + left. exists rest. apply dropPrefix_spec in E.
      rewrite E, !replacePrefix_hit. auto.
    + right.
      assert (Hno : forall rest, sku <> "AZ-" +:+ rest).
      { intros rest Heq. apply dropPrefix_spec in Heq. congruence. }
      rewrite !replacePrefix_miss by exact Hno. auto.
  - exists (mapRow rowScenario1). vm_compute. repeat split.
Qed.

Lemma C8_witness :
  wSKU (mapRow rowScenario1) = "W-123" /\ vSKU (mapRow rowScenario1) = "V-123".
Proof.
  destruct (C8_identifiers_from_one_sku rowScenario1 "AZ-123")
    as [[Hw Hv] _].
  - vm_compute. reflexivity.
  - split; [rewrite Hw | rewrite Hv]; reflexivity.
Defined.

(** C2, as the code has it: the price is read from the first non-empty
    one of the two columns, "Regular price" before "Sale price"; it is the
    number that cell parses to, and 0 when the cell parses to no number or
    both columns are empty.  A regular price that is present but not a
    numeral therefore gives 0, whatever the sale price holds. *)
Theorem C2_price_from_first_nonempty_cell (row : RawRow) :
  retailPrice (mapRow row) =
    match firstNonEmpty [row !! "Regular price"; row !! "Sale price"] with
    | Some cell => numberOrZero cell
    | None => zero
    end
  /\ (forall regular, row !! "Regular price" = Some regular ->
        regular <> "" -> Conv.parseFloat regular = NaN ->
        retailPrice (mapRow row) = zero).
Proof.
  assert (Hnum : forall s, orElse (Conv.parseFloat s) zero = numberOrZero s).
  { intros s. unfold orElse, truthy, numberOrZero.
    destruct (isNaN (Conv.parseFloat s) || isZero (Conv.parseFloat s));
      reflexivity. }
  assert (Hzero : orElse (Conv.parseFloat "0") zero = zero)
    by (vm_compute; reflexivity).
  split.
  - cbn [retailPrice mapRow firstNonEmpty].
    destruct (row !! "Regular price") as [[|a r]|];
      destruct (row !! "Sale price") as [[|b t]|];
      cbn [Str.orElseOpt Str.orElse Str.truthy];
      solve [apply Hnum | exact Hzero].
  - intros regular Hreg Hne Hnan. cbn [retailPrice mapRow].
    rewrite Hreg. destruct regular as [|a r]; [congruence|].
    cbn [Str.orElseOpt Str.orElse Str.truthy].
    rewrite Hnan. reflexivity.
Qed.

Lemma C2_witness : retailPrice (mapRow rowBadRegularPrice) = zero.
Proof.
  apply (proj2 (C2_price_from_first_nonempty_cell rowBadRegularPrice)
           "call us").
  - vm_compute. reflexivity.
  - discriminate.
  - vm_compute. reflexivity.
Defined.

(** C2, as stated, fails: with a regular price that is no numeral and the
    sale price 5, the mapped price is 0 and not 5. *)
Lemma C2_counterexample :
  rowBadRegularPrice !! "Regular price" = Some "call us"
  /\ Conv.parseFloat "call us" = NaN
  /\ rowBadRegularPrice !! "Sale price" = Some "5"
  /\ Conv.parseFloat "5" = ofNat 5
  /\ retailPrice (mapRow rowBadRegularPrice) = zero
  /\ retailPrice (mapRow rowBadRegularPrice) <> Conv.parseFloat "5".
Proof.
  vm_compute. repeat split; discriminate.
Qed.

(** ** The door style *)

Lemma occurs_app_space (s t : string) :
  occurs " " (s +:+ " " +:+ t) = true.
Proof.
  induction s as [|a s IH]; simpl; [reflexivity|].
  rewrite IH. apply orb_true_r.
Qed.

Lemma split_no_separator (sep : ascii) (s w : string) :
  In w (Str.split sep s) -> occurs sep w = false.
Proof.
  revert w. induction s as [|c s IH]; intros w; simpl.
  - intros [<-|[]]. reflexivity.
  - destruct (Ascii.eqb_spec c sep) as [->|Hne].
    + intros [<-|Hin]; [reflexivity | apply IH, Hin].
    + destruct (Str.split sep s) as [|w0 ws] eqn:E.
      * intros [<-|[]]. simpl.
        apply Ascii.eqb_neq in Hne. rewrite Hne. reflexivity.
      * intros [<-|Hin].
        -- simpl. apply Ascii.eqb_neq in Hne. rewrite Hne. simpl.
           apply IH. left. reflexivity.
        -- apply IH. right. exact Hin.
Qed.

Lemma titleDoorStyle_no_space (row : RawRow) :
  occurs " " (titleDoorStyle row) = false.
Proof.
  unfold titleDoorStyle.
  set (cs := Str.orElse _ ""). clearbody cs.
  destruct (Str.includes cs "Shaker"); [reflexivity|].
  destruct (last (Str.split " " cs)) as [w|] eqn:E; [|reflexivity].
  unfold Str.orElse. destruct (Str.truthy w); [|reflexivity].
  apply (split_no_separator " " cs).
  apply list_elem_of_In, last_Some_elem_of, E.
Qed.

Lemma tagDoorStyle_nonempty (row : RawRow) : tagDoorStyle row <> "".
Proof.
  unfold tagDoorStyle.
  destruct (Str.includes _ "double-door"); [discriminate|].
  destruct (Str.includes _ "single-door"); [discriminate|].
  destruct (Conv.toString (doorCount row)); discriminate.
Qed.

(** The final door style is the tag constant, whatever the title gives. *)
Lemma doorStyle_is_tagDoorStyle (row : RawRow) :
  doorStyle (mapRow row) = tagDoorStyle row.
Proof.
  cbn [doorStyle mapRow].
  rewrite (orElse_truthy (tagDoorStyle row)) by apply tagDoorStyle_nonempty.
  apply orElse_truthy, tagDoorStyle_nonempty.
Qed.

(** C1: what the mapper does with the door style.  With a "double-door"
    marker the style is "Double Door", else with a "single-door" marker it
    is "Single Door", else it is the label made of the door count.  That
    label is never empty, so the fallback to the title-derived token is
    never taken: for no row without marker is that token the final style.
    The titled row has the token "Shaker" and is mapped to "1 Door". *)
Theorem C1_door_style_never_from_title (row : RawRow) :
  let tags := Str.toLowerCase (Str.orElse (row !! "Tags") "") in
  (Str.includes tags "double-door" = true ->
     doorStyle (mapRow row) = "Double Door")
  /\ (Str.includes tags "double-door" = false ->
      Str.includes tags "single-door" = true ->
      doorStyle (mapRow row) = "Single Door")
  /\ (noDoorMarker row ->
      doorStyle (mapRow row) = Conv.toString (doorCount row) +:+ " Door"
      /\ doorStyle (mapRow row) <> titleDoorStyle row)
  /\ (noDoorMarker rowTitled
      /\ titleDoorStyle rowTitled = "Shaker"
      /\ doorStyle (mapRow rowTitled) = "1 Door").
Proof.
  intros tags. rewrite doorStyle_is_tagDoorStyle.
  unfold tagDoorStyle, noDoorMarker. fold tags.
  split; [|split; [|split]].
  - intros ->. reflexivity.
  - intros -> ->. reflexivity.
  - intros [-> ->]. split; [reflexivity|].
    intros Heq.
    pose proof (titleDoorStyle_no_space row) as Hno.
    rewrite <- Heq in Hno.
    change (Conv.toString (doorCount row) +:+ " Door")
      with (Conv.toString (doorCount row) +:+ " " +:+ "Door") in Hno.
    rewrite occurs_app_space in Hno. discriminate.
  - vm_compute. repeat split.
Qed.

Lemma C1_witness :
  doorStyle (mapRow rowTitled) = "1 Door"
  /\ doorStyle (mapRow rowTitled) <> titleDoorStyle rowTitled.
Proof.
  destruct (C1_door_style_never_from_title rowTitled)
    as (_ & _ & Hlabel & _).
  destruct Hlabel as [Hl Hne].
  - vm_compute. split; reflexivity.
  - split; [rewrite Hl; vm_compute; reflexivity | exact Hne].
Defined.

(** ** Rounding to binary64 *)

Section Rounding.
Local Open Scope Q_scope.

Lemma pow2_pos (e : Z) : 0 < 2 ^ e.
Proof. apply Qpower_0_lt. reflexivity. Qed.

Lemma pow2_add (a b : Z) : 2 ^ (a + b) == 2 ^ a * 2 ^ b.
Proof. apply Qpower_plus. discriminate. Qed.

Lemma pow2_le (a b : Z) : (a <= b)%Z -> 2 ^ a <= 2 ^ b.
Proof. intros H. apply Qpower_le_compat_l; [exact H | discriminate]. Qed.

Lemma pow2_lt_inv (a b : Z) : 2 ^ a < 2 ^ b -> (a < b)%Z.
Proof. intros H. apply (Qpower_lt_compat_l_inv 2); [exact H | reflexivity]. Qed.

Lemma pow2_Z (k : Z) : (0 <= k)%Z -> 2 ^ k == inject_Z (2 ^ k).
Proof. intros H. rewrite Zpower_Qpower by exact H. reflexivity. Qed.

Lemma pow2_succ (a : Z) : 2 ^ (a + 1) == 2 * 2 ^ a.
Proof. rewrite pow2_add. change (2 ^ 1) with 2. ring. Qed.

Lemma ilog2_spec (q : Q) :
  0 < q -> 2 ^ ilog2 q <= q /\ q < 2 ^ (ilog2 q + 1).
Proof.
  intros Hq. destruct q as [a d].
  assert (Ha : (0 < a)%Z).
  { unfold Qlt in Hq. simpl in Hq. lia. }
  unfold ilog2. cbn [Qnum Qden].
  set (la := Z.log2 a). set (ld := Z.log2 (Z.pos d)).
  pose proof (Z.log2_spec a Ha) as [Ha1 Ha2].
  pose proof (Z.log2_spec (Z.pos d) ltac:(lia)) as [Hd1 Hd2].
  fold la in Ha1, Ha2. fold ld in Hd1, Hd2.
  pose proof (Z.log2_nonneg a) as Hla.
  pose proof (Z.log2_nonneg (Z.pos d)) as Hld.
  fold la in Hla. fold ld in Hld.
  assert (HA1 : 2 ^ la <= inject_Z a).
  { rewrite pow2_Z by lia. rewrite <- Zle_Qle. exact Ha1. }
  assert (HA2 : inject_Z a < 2 * 2 ^ la).
  { rewrite <- pow2_succ, pow2_Z by lia. rewrite <- Zlt_Qlt. exact Ha2. }
  assert (HD1 : 2 ^ ld <= inject_Z (Z.pos d)).
  { rewrite pow2_Z by lia. rewrite <- Zle_Qle. exact Hd1. }
  assert (HD2 : inject_Z (Z.pos d) < 2 * 2 ^ ld).
  { rewrite <- pow2_succ, pow2_Z by lia. rewrite <- Zlt_Qlt. exact Hd2. }
  assert (Hqd : (a # d) * inject_Z (Z.pos d) == inject_Z a).
  { rewrite (Qmake_Qdiv a d). field. discriminate. }
  assert (HX : 2 ^ (la - ld) * 2 ^ ld == 2 ^ la).
  { rewrite <- pow2_add. replace (la - ld + ld)%Z with la by lia. reflexivity. }
  pose proof (pow2_pos la) as PA. pose proof (pow2_pos ld) as PD.
  pose proof (pow2_pos (la - ld)) as PX.
  assert (Hup : (a # d) < 2 * 2 ^ (la - ld)).
  { set (X := 2 ^ (la - ld)) in *. set (A := 2 ^ la) in *.
    set (D := 2 ^ ld) in *. set (q := a # d) in *.
    set (x := inject_Z a) in *. set (y := inject_Z (Z.pos d)) in *.
    clearbody X A D q x y. nra. }
  assert (Hlow : 2 ^ (la - ld) < 2 * (a # d)).
  { set (X := 2 ^ (la - ld)) in *. set (A := 2 ^ la) in *.
    set (D := 2 ^ ld) in *. set (q := a # d) in *.
    set (x := inject_Z a) in *. set (y := inject_Z (Z.pos d)) in *.
    clearbody X A D q x y. nra. }
  destruct (Qle_bool (2 ^ (la - ld)) (a # d)) eqn:E.
  - apply Qle_bool_iff in E. split; [exact E|].
    rewrite pow2_succ. exact Hup.
  - assert (E' : (a # d) < 2 ^ (la - ld)).
    { apply Qnot_le_lt. intros H. apply Qle_bool_iff in H. congruence. }
    replace (la - ld - 1 + 1)%Z with (la - ld)%Z by lia.
    split; [|exact E'].
    assert (H2 : 2 ^ (la - ld) == 2 * 2 ^ (la - ld - 1)).
    { rewrite <- pow2_succ.
      replace (la - ld - 1 + 1)%Z with (la - ld)%Z by lia. reflexivity. }
    rewrite H2 in Hlow. lra.
Qed.

Lemma ilog2_mono (p q : Q) : 0 < p -> p <= q -> (ilog2 p <= ilog2 q)%Z.
Proof.
  intros Hp Hpq.
  destruct (ilog2_spec p Hp) as [Hp1 _].
  destruct (ilog2_spec q ltac:(lra)) as [_ Hq2].
  assert (H : 2 ^ ilog2 p < 2 ^ (ilog2 q + 1)) by lra.
  apply pow2_lt_inv in H. lia.
Qed.

Lemma roundHalfEven_bounds (x : Q) :
  (Qfloor x <= roundHalfEven x <= Qfloor x + 1)%Z.
Proof.
  unfold roundHalfEven.
  destruct (x - inject_Z (Qfloor x) ?= 1 # 2); [destruct (Z.even _)| |]; lia.
Qed.

Lemma roundHalfEven_mono (x y : Q) :
  x <= y -> (roundHalfEven x <= roundHalfEven y)%Z.
Proof.
  intros Hxy.
  pose proof (Qfloor_resp_le x y Hxy) as Hf.
  pose proof (roundHalfEven_bounds x) as Bx.
  pose proof (roundHalfEven_bounds y) as By.
  destruct (Z.eq_dec (Qfloor x) (Qfloor y)) as [Heq|Hne]; [|lia].
  unfold roundHalfEven. rewrite <- Heq.
  destruct (Qcompare_spec (x - inject_Z (Qfloor x)) (1 # 2)) as [Ex|Ex|Ex];
    destruct (Qcompare_spec (y - inject_Z (Qfloor x)) (1 # 2)) as [Ey|Ey|Ey];
    try destruct (Z.even (Qfloor x)); try lia; exfalso; lra.
Qed.

Lemma roundHalfEven_le_Z (x : Q) (z : Z) :
  x <= inject_Z z -> (roundHalfEven x <= z)%Z.
Proof.
  intros Hx.
  pose proof (Qfloor_resp_le _ _ Hx) as Hf. rewrite Qfloor_Z in Hf.
  pose proof (roundHalfEven_bounds x) as Bx.
  destruct (Z.eq_dec (Qfloor x) z) as [Heq|Hne]; [|lia].
  unfold roundHalfEven. rewrite Heq.
  pose proof (Qfloor_le x) as Hle. rewrite Heq in Hle.
  destruct (Qcompare_spec (x - inject_Z z) (1 # 2)) as [E|E|E];
    try lia; exfalso; lra.
Qed.

Lemma roundHalfEven_ge_Z (x : Q) (z : Z) :
  inject_Z z <= x -> (z <= roundHalfEven x)%Z.
Proof.
  intros Hx.
  pose proof (Qfloor_resp_le _ _ Hx) as Hf. rewrite Qfloor_Z in Hf.
  pose proof (roundHalfEven_bounds x). lia.
Qed.

Lemma ulpExp_mono (p q : Q) : 0 < p -> p <= q -> (ulpExp p <= ulpExp q)%Z.
Proof.
  intros Hp Hpq. unfold ulpExp.
  pose proof (ilog2_mono p q Hp Hpq). lia.
Qed.

Lemma roundMag_nonneg (q : Q) : 0 < q -> 0 <= roundMag q.
Proof.
  intros Hq. unfold roundMag.
  pose proof (pow2_pos (ulpExp q)) as He.
  assert (H : (0 <= roundHalfEven (q / 2 ^ ulpExp q))%Z).
  { apply roundHalfEven_ge_Z. change (inject_Z 0) with 0.
    apply Qle_shift_div_l; [exact He | lra]. }
  rewrite Zle_Qle in H. change (inject_Z 0) with 0 in H. nra.
Qed.

Lemma roundMag_mono (p q : Q) : 0 < p -> p <= q -> roundMag p <= roundMag q.
Proof.
  intros Hp Hpq.
  assert (Hq : 0 < q) by lra.
  pose proof (ulpExp_mono p q Hp Hpq) as He.
  unfold roundMag.
  pose proof (pow2_pos (ulpExp p)) as Pp.
  pose proof (pow2_pos (ulpExp q)) as Pq.
  destruct (Z.eq_dec (ulpExp p) (ulpExp q)) as [Heq|Hne].
  - rewrite Heq.
    assert (H : (roundHalfEven (p / 2 ^ ulpExp q)
                 <= roundHalfEven (q / 2 ^ ulpExp q))%Z).
    { apply roundHalfEven_mono.
      apply Qmult_le_compat_r; [exact Hpq|].
      apply Qlt_le_weak, Qinv_lt_0_compat, Pq. }
    rewrite Zle_Qle in H. nra.
  - assert (Hlt : (ulpExp p < ulpExp q)%Z) by lia.
    assert (Heq : ulpExp q = (ilog2 q - 52)%Z) by (unfold ulpExp in *; lia).
    assert (Hpe : (ilog2 p - 52 <= ulpExp p)%Z) by (unfold ulpExp; lia).
    destruct (ilog2_spec p Hp) as [_ Hp2].
    destruct (ilog2_spec q Hq) as [Hq1 _].
    assert (Hup : (roundHalfEven (p / 2 ^ ulpExp p) <= 2 ^ 53)%Z).
    { apply roundHalfEven_le_Z. rewrite <- pow2_Z by lia.
      apply Qle_shift_div_r; [exact Pp|].
      rewrite <- pow2_add.
      apply Qle_trans with (2 ^ (ilog2 p + 1)); [lra|].
      apply pow2_le. lia. }
    assert (Hlo : (2 ^ 52 <= roundHalfEven (q / 2 ^ ulpExp q))%Z).
    { apply roundHalfEven_ge_Z. rewrite <- pow2_Z by lia.
      apply Qle_shift_div_l; [exact Pq|].
      rewrite <- pow2_add.
      apply Qle_trans with (2 ^ ilog2 q); [|lra].
      apply pow2_le. lia. }
    rewrite Zle_Qle in Hup. rewrite Zle_Qle in Hlo.
    rewrite <- pow2_Z in Hup, Hlo by lia.
    apply Qle_trans with (2 ^ 53 * 2 ^ ulpExp p).
    { apply Qmult_le_compat_r; [exact Hup | lra]. }
    apply Qle_trans with (2 ^ 52 * 2 ^ ulpExp q).
    { rewrite <- !pow2_add. apply pow2_le. lia. }
    apply Qmult_le_compat_r; [exact Hlo | lra].
Qed.

Lemma round64_Qeq (s : bool) (p q : Q) : p == q -> round64 s p = round64 s q.
Proof.
  intros H. unfold round64. rewrite (Qred_complete p q H). reflexivity.
Qed.

Lemma round64_zero (s : bool) (q : Q) : q == 0 -> round64 s q = Fin s 0.
Proof. intros H. rewrite (round64_Qeq s q 0 H). reflexivity. Qed.

Lemma round64_pos (s : bool) (q : Q) :
  0 < q ->
  round64 s q =
    if Qle_bool (2 ^ 1024) (roundMag (Qred q)) then Inf s
    else Fin s (Qred (roundMag (Qred q))).
Proof.
  intros Hq. unfold round64.
  destruct (Qeq_bool (Qred q) 0) eqn:E; [|reflexivity].
  apply Qeq_bool_eq in E. rewrite Qred_correct in E. lra.
Qed.

(** Rounding is monotone on the non-negative rationals below a bound
    whose rounding is finite. *)
Lemma round64_fin_le (p q B b : Q) :
  0 <= p -> p <= q -> q <= B ->
  round64 false B = Fin false b ->
  exists p' q',
    round64 false p = Fin false p' /\ round64 false q = Fin false q'
    /\ 0 <= p' /\ p' <= q' /\ q' <= b.
Proof.
  intros Hp Hpq HqB HB.
  assert (Hfin : forall x, 0 < x -> x <= B ->
            round64 false x = Fin false (Qred (roundMag (Qred x)))
            /\ roundMag (Qred x) <= b).
  { intros x Hx HxB.
    assert (HBpos : 0 < B) by lra.
    rewrite (round64_pos false B HBpos) in HB.
    destruct (Qle_bool (2 ^ 1024) (roundMag (Qred B))) eqn:EB; [discriminate|].
    injection HB as HB.
    assert (Hm : roundMag (Qred x) <= roundMag (Qred B)).
    { apply roundMag_mono; rewrite !Qred_correct; assumption. }
    assert (Hb : roundMag (Qred B) == b)
      by (rewrite <- HB; symmetry; apply Qred_correct).
    rewrite (round64_pos false x Hx).
    destruct (Qle_bool (2 ^ 1024) (roundMag (Qred x))) eqn:Ex.
    - apply Qle_bool_iff in Ex.
      assert (Hc : Qle_bool (2 ^ 1024) (roundMag (Qred B)) = true)
        by (apply Qle_bool_iff; lra).
      congruence.
    - split; [reflexivity | lra]. }
  assert (Hnn : forall x, 0 < x -> 0 <= roundMag (Qred x)).
  { intros x Hx. apply roundMag_nonneg. rewrite Qred_correct. exact Hx. }
  destruct (Qlt_le_dec 0 q) as [Hq|Hq].
  - destruct (Hfin q Hq HqB) as [Eq Bq].
    destruct (Qlt_le_dec 0 p) as [Hp'|Hp'].
    + destruct (Hfin p Hp' ltac:(lra)) as [Ep Bp].
      exists (Qred (roundMag (Qred p))), (Qred (roundMag (Qred q))).
      split; [exact Ep|]. split; [exact Eq|].
      rewrite !(Qred_correct (roundMag _)). split; [|split].
      * apply Hnn, Hp'.
      * apply roundMag_mono; rewrite !Qred_correct; assumption.
      * exact Bq.
    + exists 0, (Qred (roundMag (Qred q))).
      split; [apply round64_zero; lra|]. split; [exact Eq|].
      rewrite !(Qred_correct (roundMag _)). split; [lra|]. split.
      * apply Hnn, Hq.
      * exact Bq.
  - exists 0, 0.
    assert (Hb : 0 <= b).
    { destruct (Qlt_le_dec 0 B) as [HBp|HBp].
      - destruct (Hfin B HBp ltac:(lra)) as [EB _].
        rewrite EB in HB. injection HB as <-.
        rewrite Qred_correct. apply Hnn, HBp.
      - rewrite round64_zero in HB by lra. injection HB as <-. lra. }
    repeat split; try lra; apply round64_zero; lra.
Qed.

Lemma ofNat_round64 (k : nat) :
  ofNat k = round64 false (inject_Z (Z.of_nat k)).
Proof.
  unfold ofNat, ofZ.
  destruct (Z.ltb_spec (Z.of_nat k) 0) as [H|H]; [lia|].
  rewrite Z.abs_eq by lia. reflexivity.
Qed.

Lemma round_mono (p q : Q) :
  0 <= p -> p <= q -> leb (round (Fin false p)) (round (Fin false q)) = true.
Proof.
  intros Hp Hpq. unfold round, signed.
  assert (Hf : (Qfloor (p + (1 # 2)) <= Qfloor (q + (1 # 2)))%Z)
    by (apply Qfloor_resp_le; lra).
  assert (H0 : (0 <= Qfloor (p + (1 # 2)))%Z).
  { change 0%Z with (Qfloor 0). apply Qfloor_resp_le. lra. }
  set (zp := Qfloor (p + (1 # 2))) in *. set (zq := Qfloor (q + (1 # 2))) in *.
  destruct (Z.eqb_spec zp 0) as [Ep|Ep]; destruct (Z.eqb_spec zq 0) as [Eq|Eq].
  - reflexivity.
  - destruct (Z.ltb_spec zq 0); [lia|]. simpl.
    apply Qle_bool_iff. rewrite Z.abs_eq by lia.
    change 0 with (inject_Z 0). rewrite <- Zle_Qle. lia.
  - lia.
  - destruct (Z.ltb_spec zq 0); [lia|]. destruct (Z.ltb_spec zp 0); [lia|].
    simpl. apply Qle_bool_iff. rewrite !Z.abs_eq by lia.
    rewrite <- Zle_Qle. lia.
Qed.


Lemma ofNat_100 : ofNat 100 = Fin false 100.
Proof. vm_compute. reflexivity. Qed.

Lemma round64_one : round64 false 1 = Fin false 1.
Proof. vm_compute. reflexivity. Qed.

Lemma round64_100 : round64 false 100 = Fin false 100.
Proof. vm_compute. reflexivity. Qed.

Lemma round64_2_32 :
  round64 false (inject_Z (2 ^ 32)) = Fin false (inject_Z (2 ^ 32)).
Proof. vm_compute. reflexivity. Qed.

(** The scaled ratio [k / n * 100] before [Math.round]. *)
Lemma ratio_chain (k1 k2 n : nat) :
  (k1 <= k2)%nat -> (k2 <= n)%nat -> (0 < n)%nat ->
  (Z.of_nat n < 2 ^ 32)%Z ->
  exists m1 m2,
    mul (div (ofNat k1) (ofNat n)) (ofNat 100) = Fin false m1
    /\ mul (div (ofNat k2) (ofNat n)) (ofNat 100) = Fin false m2
    /\ 0 <= m1 /\ m1 <= m2 /\ m2 <= 100.
Proof.
  intros H12 H2n Hn Hbound.
  rewrite ofNat_100, !ofNat_round64.
  assert (Hz : forall a b : nat, (a <= b)%nat ->
            inject_Z (Z.of_nat a) <= inject_Z (Z.of_nat b)).
  { intros a b Hab. rewrite <- Zle_Qle. lia. }
  assert (Hz0 : forall a : nat, 0 <= inject_Z (Z.of_nat a)).
  { intros a. change 0 with (inject_Z 0). rewrite <- Zle_Qle. lia. }
  assert (HnB : inject_Z (Z.of_nat n) <= inject_Z (2 ^ 32)).
  { rewrite <- Zle_Qle. lia. }
  destruct (round64_fin_le _ _ _ _ (Hz0 k1) (Hz k1 k2 H12)
              (Qle_trans _ _ _ (Hz k2 n H2n) HnB) round64_2_32)
    as (a1 & a2 & E1 & E2 & Ha1 & Ha12 & _).
  destruct (round64_fin_le _ _ _ _ (Hz0 k2) (Hz k2 n H2n) HnB round64_2_32)
    as (a2' & an & E2' & En & _ & Ha2n & _).
  rewrite E2 in E2'. injection E2' as <-.
  assert (H1n : inject_Z 1 <= inject_Z (Z.of_nat n)).
  { rewrite <- Zle_Qle. lia. }
  destruct (round64_fin_le (inject_Z 1) _ _ _ ltac:(discriminate) H1n HnB
              round64_2_32)
    as (o & an' & Eo & En' & _ & Hon & _).
  rewrite En in En'. injection En' as <-.
  change (inject_Z 1) with 1 in Eo. rewrite round64_one in Eo.
  injection Eo as <-.
  rewrite E1, E2, En. unfold div.
  assert (Hnz : Qeq_bool an 0 = false).
  { destruct (Qeq_bool an 0) eqn:E; [|reflexivity].
    apply Qeq_bool_eq in E. lra. }
  rewrite Hnz. cbn [xorb].
  assert (Hinv : 0 < / an) by (apply Qinv_lt_0_compat; lra).
  assert (Hd0 : 0 <= a1 / an) by (unfold Qdiv; nra).
  assert (Hd12 : a1 / an <= a2 / an) by (unfold Qdiv; nra).
  assert (Hd1 : a2 / an <= 1).
  { apply Qle_shift_div_r; lra. }
  destruct (round64_fin_le _ _ _ _ Hd0 Hd12 Hd1 round64_one)
    as (d1 & d2 & Ed1 & Ed2 & Hd1' & Hd12' & Hd2').
  rewrite Ed1, Ed2. unfold mul. cbn [xorb].
  apply (round64_fin_le (d1 * 100) (d2 * 100) 100 100); try lra.
  exact round64_100.
Qed.

Lemma progressAt_mono (rows : list CabinetProduct) (k1 k2 : nat) :
  (k1 <= k2)%nat -> (k2 <= length rows)%nat -> (0 < length rows)%nat ->
  (Z.of_nat (length rows) < 2 ^ 32)%Z ->
  leb (progressAt rows k1) (progressAt rows k2) = true.
Proof.
  intros H12 H2n Hn Hbound. unfold progressAt.
  destruct (ratio_chain k1 k2 (length rows) H12 H2n Hn Hbound)
    as (m1 & m2 & -> & -> & H0 & Hm & _).
  apply round_mono; assumption.
Qed.

Lemma progressAt_full (rows : list CabinetProduct) :
  (0 < length rows)%nat ->
  (Z.of_nat (length rows) < 2 ^ 32)%Z ->
  progressAt rows (length rows) = ofNat 100.
Proof.
  intros Hn Hbound. unfold progressAt.
  set (n := length rows) in *.
  assert (H1n : inject_Z 1 <= inject_Z (Z.of_nat n)).
  { rewrite <- Zle_Qle. lia. }
  assert (HnB : inject_Z (Z.of_nat n) <= inject_Z (2 ^ 32)).
  { rewrite <- Zle_Qle. lia. }
  destruct (round64_fin_le (inject_Z 1) _ _ _ ltac:(discriminate) H1n HnB
              round64_2_32)
    as (o & an & Eo & En & _ & Hon & _).
  change (inject_Z 1) with 1 in Eo. rewrite round64_one in Eo.
  injection Eo as <-.
  rewrite ofNat_100, ofNat_round64, En. unfold div.
  assert (Hnz : Qeq_bool an 0 = false).
  { destruct (Qeq_bool an 0) eqn:E; [|reflexivity].
    apply Qeq_bool_eq in E. lra. }
  rewrite Hnz. cbn [xorb].
  rewrite (round64_Qeq false (an / an) 1) by (field; lra).
  rewrite round64_one. unfold mul. cbn [xorb].
  rewrite (round64_Qeq false (1 * 100) 100) by ring.
  rewrite round64_100. vm_compute. reflexivity.
Qed.

End Rounding.

(** ** The loop of [importRows] *)

Local Close Scope string_scope.

Section Observed.
Context {Created : Type}.

Lemma callRows_app (t1 t2 : list (event Created)) :
  callRows (t1 ++ t2) = callRows t1 ++ callRows t2.
Proof.
  induction t1 as [|[] t1 IH]; simpl; rewrite ?IH; reflexivity.
Qed.

Lemma settleRows_app (t1 t2 : list (event Created)) :
  settleRows (t1 ++ t2) = settleRows t1 ++ settleRows t2.
Proof.
  induction t1 as [|[] t1 IH]; simpl; rewrite ?IH; reflexivity.
Qed.

Lemma progressOf_app (t1 t2 : list (event Created)) :
  progressOf (t1 ++ t2) = progressOf t1 ++ progressOf t2.
Proof.
  induction t1 as [|[] t1 IH]; simpl; rewrite ?IH; reflexivity.
Qed.

Lemma calls_observed (ks : list nat) (inputs : list CabinetProduct) :
  length ks = length inputs ->
  callRows (zip_with (Call (Created:=Created)) ks inputs) = ks
  /\ settleRows (zip_with (Call (Created:=Created)) ks inputs) = []
  /\ progressOf (zip_with (Call (Created:=Created)) ks inputs) = [].
Proof.
  revert inputs. induction ks as [|k ks IH]; intros [|input inputs] Hlen;
    simpl in *; try discriminate; [auto|].
  destruct (IH inputs ltac:(lia)) as (-> & -> & ->). auto.
Qed.

Lemma settles_observed (f : nat -> option Created) (ks : list nat) :
  callRows ((fun k => Settle k (f k)) <$> ks) = []
  /\ settleRows ((fun k => Settle k (f k)) <$> ks) = ks
  /\ progressOf ((fun k => Settle k (f k)) <$> ks) = [].
Proof.
  induction ks as [|k ks (IH1 & IH2 & IH3)]; [auto|].
  rewrite fmap_cons. cbn [callRows settleRows progressOf].
  rewrite IH1, IH2, IH3. auto.
Qed.

End Observed.

Section RunLemmas.
Variable Created : Type.
Variable svc : nat -> CabinetProduct -> outcome Created.
Variable latency : nat -> nat.
Variable b : nat.
Variable defaults : Defaults.
Variable rows : list CabinetProduct.

Local Abbreviation n := (length rows).
Local Abbreviation resultOf := (resultOf Created svc defaults rows).
Local Abbreviation succeeded := (succeeded Created svc defaults rows).
Local Abbreviation importedUpTo := (importedUpTo Created svc defaults rows).
Local Abbreviation progressAt := (progressAt rows).
Local Abbreviation batchLen := (batchLen b rows).
Local Abbreviation segment := (segment Created svc latency b defaults rows).
Local Abbreviation batchEvents := (batchEvents Created svc latency b defaults rows).
Local Abbreviation batchCount := (batchCount b rows).
Local Abbreviation starts := (batchStarts b).
Local Abbreviation finalState := (finalState Created svc defaults rows).

(** *** One batch *)

Lemma settleInsert_perm (k : nat) (ks : list nat) :
  Permutation (settleInsert latency k ks) (k :: ks).
Proof.
  induction ks as [|k' ks IH]; simpl; [reflexivity|].
  destruct (latency k <=? latency k')%nat; [reflexivity|].
  rewrite IH. apply perm_swap.
Qed.

Lemma settleOrder_perm (ks : list nat) :
  Permutation (settleOrder latency ks) ks.
Proof.
  induction ks as [|k ks IH]; simpl; [reflexivity|].
  rewrite settleInsert_perm, IH. reflexivity.
Qed.

Lemma batch_length (i : nat) :
  length (take b (drop i rows)) = batchLen i.
Proof. unfold Run.batchLen. rewrite length_take, length_drop. reflexivity. Qed.

Lemma batch_lookup (i j : nat) :
  (j < b)%nat -> take b (drop i rows) !! j = rows !! (i + j)%nat.
Proof. intros Hj. rewrite lookup_take_lt by exact Hj. apply lookup_drop. Qed.

Lemma batchResults_spec (i : nat) (l : list CabinetProduct) :
  (forall j, (j < length l)%nat -> l !! j = rows !! (i + j)%nat) ->
  zip_with (fun k input => caught (svc k input)) (seq i (length l))
    (makeInput defaults <$> l)
  = resultOf <$> seq i (length l).
Proof.
  revert i. induction l as [|row l IH]; intros i Hl; simpl; [reflexivity|].
  f_equal.
  - unfold Run.resultOf. specialize (Hl 0%nat ltac:(simpl; lia)).
    rewrite Nat.add_0_r in Hl. simpl in Hl. rewrite <- Hl. reflexivity.
  - apply IH. intros j Hj. specialize (Hl (S j) ltac:(simpl; lia)).
    simpl in Hl. rewrite Hl. f_equal. lia.
Qed.

Lemma batch_results (i : nat) :
  zip_with (fun k input => caught (svc k input)) (seq i (batchLen i))
    (makeInput defaults <$> take b (drop i rows))
  = resultOf <$> seq i (batchLen i).
Proof.
  rewrite <- batch_length. apply batchResults_spec.
  intros j Hj. apply batch_lookup.
  rewrite length_take in Hj. lia.
Qed.

Lemma importedUpTo_add (i len : nat) :
  importedUpTo (i + len) =
  (importedUpTo i
   + length (List.filter notNull (resultOf <$> seq i len)))%nat.
Proof.
  unfold Run.importedUpTo.
  rewrite seq_app, fmap_app, List.filter_app, length_app. reflexivity.
Qed.

Lemma resultOf_ge (k : nat) : (n <= k)%nat -> resultOf k = None.
Proof.
  intros Hk. unfold Run.resultOf.
  rewrite (lookup_ge_None_2 rows k Hk). reflexivity.
Qed.

Lemma settle_results (i len : nat) :
  (fun k => Settle k (default None ((resultOf <$> seq i len) !! (k - i)%nat)))
    <$> settleOrder latency (seq i len)
  = (fun k => Settle k (resultOf k)) <$> settleOrder latency (seq i len).
Proof.
  apply Forall_fmap_ext_1, Forall_forall. intros k Hk.
  rewrite settleOrder_perm in Hk. apply elem_of_seq in Hk.
  rewrite list_lookup_fmap, lookup_seq_lt by lia. simpl.
  do 2 f_equal. lia.
Qed.

(** One iteration, in terms of the expected events. *)
Lemma runBatch_spec (i : nat) (s : Session) :
  mappedRows s = rows ->
  importedCount s = importedUpTo i ->
  runBatch Created svc latency b defaults i s =
    (setImportProgress (progressAt (i + batchLen i))
       (setImportedCount (importedUpTo (i + batchLen i)) s),
     batchEvents i).
Proof.
  intros Hrows Hcount. unfold runBatch. rewrite Hrows, Hcount.
  rewrite batch_length, batch_results, settle_results.
  rewrite <- importedUpTo_add. reflexivity.
Qed.

Lemma segment_observed (i : nat) :
  callRows (segment i) = seq i (batchLen i)
  /\ settleRows (segment i) = settleOrder latency (seq i (batchLen i))
  /\ progressOf (segment i) = [progressAt (i + batchLen i)].
Proof.
  unfold Run.segment, Run.batchEvents.
  rewrite !callRows_app, !settleRows_app, !progressOf_app.
  destruct (calls_observed (Created:=Created) (seq i (batchLen i))
              (makeInput defaults <$> take b (drop i rows)))
    as (-> & -> & ->).
  { rewrite length_seq, length_fmap. symmetry. apply batch_length. }
  destruct (settles_observed resultOf (settleOrder latency (seq i (batchLen i))))
    as (-> & -> & ->).
  simpl. rewrite !app_nil_r. auto.
Qed.

Lemma progressLog_app (c : nat) (t1 t2 : list (event Created)) :
  progressLog c (t1 ++ t2) =
  progressLog c t1 ++ progressLog (c + length (settleRows t1)) t2.
Proof.
  revert c. induction t1 as [|e t1 IH]; intros c; simpl.
  - rewrite Nat.add_0_r. reflexivity.
  - destruct e; simpl; rewrite IH, ?Nat.add_succ_r; reflexivity.
Qed.

Lemma progressLog_snd (c : nat) (tr : list (event Created)) :
  progressOf tr = snd <$> progressLog c tr.
Proof.
  revert c. induction tr as [|e tr IH]; intros c; [reflexivity|].
  destruct e; simpl; first [apply IH | f_equal; apply IH].
Qed.

Lemma progressLog_calls (c : nat) (ks : list nat) (inputs : list CabinetProduct) :
  progressLog c (zip_with (Call (Created:=Created)) ks inputs) = [].
Proof.
  revert inputs. induction ks as [|k ks IH]; intros [|input inputs];
    simpl; auto.
Qed.

Lemma progressLog_settles (c : nat) (f : nat -> option Created) (ks : list nat) :
  progressLog c ((fun k => Settle k (f k)) <$> ks) = [].
Proof.
  revert c. induction ks as [|k ks IH]; intros c; [reflexivity|].
  rewrite fmap_cons. cbn [progressLog]. apply IH.
Qed.

Lemma progressLog_segment (c i : nat) :
  progressLog c (segment i) =
  [((c + batchLen i)%nat, progressAt (i + batchLen i))].
Proof.
  unfold Run.segment, Run.batchEvents.
  rewrite !progressLog_app, progressLog_calls, progressLog_settles.
  destruct (calls_observed (Created:=Created) (seq i (batchLen i))
              (makeInput defaults <$> take b (drop i rows)))
    as (_ & -> & _).
  { rewrite length_seq, length_fmap. symmetry. apply batch_length. }
  destruct (settles_observed resultOf (settleOrder latency (seq i (batchLen i))))
    as (_ & -> & _).
  rewrite (Permutation_length (settleOrder_perm (seq i (batchLen i)))).
  rewrite length_seq. simpl. do 2 f_equal. lia.
Qed.

Lemma call_in_segment (i k : nat) (input : CabinetProduct) :
  In (Call k input) (segment i) ->
  (i <= k < i + batchLen i)%nat
  /\ exists row, rows !! k = Some row /\ input = makeInput defaults row.
Proof.
  unfold Run.segment, Run.batchEvents. rewrite !in_app_iff.
  intros [[Hin|[Hin|Hin]]|Hin].
  - apply list_elem_of_In, list_elem_of_lookup in Hin as [t Ht].
    apply lookup_zip_with_Some in Ht as (k0 & input0 & [= <- <-] & Hk & Hi).
    apply lookup_seq in Hk as [-> Hlt].
    rewrite list_lookup_fmap in Hi.
    rewrite batch_lookup in Hi by (unfold Run.batchLen in Hlt; lia).
    destruct (rows !! (i + t)%nat) as [row|] eqn:E; [|discriminate].
    injection Hi as <-. split; [lia|]. exists row. auto.
  - apply list_elem_of_In, list_elem_of_fmap in Hin as (k0 & [=] & _).
  - destruct Hin as [[=]|[]].
  - destruct Hin as [[=]|[]].
Qed.

Lemma settled_in_segment (i k : nat) :
  (i <= k < i + batchLen i)%nat -> In (Settle k (resultOf k)) (segment i).
Proof.
  intros Hk. unfold Run.segment, Run.batchEvents. rewrite !in_app_iff.
  left. right. left.
  apply list_elem_of_In, list_elem_of_fmap. exists k. split; [reflexivity|].
  rewrite settleOrder_perm. apply elem_of_seq. lia.
Qed.

Lemma called_in_segment (i k : nat) (row : CabinetProduct) :
  (i <= k < i + batchLen i)%nat -> rows !! k = Some row ->
  In (Call k (makeInput defaults row)) (segment i).
Proof.
  intros Hk Hrow. unfold Run.segment, Run.batchEvents. rewrite !in_app_iff.
  left. left.
  apply list_elem_of_In, (list_elem_of_lookup_2 _ (k - i)%nat).
  apply lookup_zip_with_Some. exists k, (makeInput defaults row).
  split; [reflexivity|]. split.
  - replace k with (i + (k - i))%nat at 2 by lia.
    apply lookup_seq. split; [reflexivity | lia].
  - rewrite list_lookup_fmap.
    rewrite batch_lookup by (unfold Run.batchLen in Hk; lia).
    replace (i + (k - i))%nat with k by lia. rewrite Hrow. reflexivity.
Qed.

Lemma filter_length_le {A : Type} (f : A -> bool) (l : list A) :
  (length (List.filter f l) <= length l)%nat.
Proof.
  induction l as [|x l IH]; simpl; [lia|]. destruct (f x); simpl; lia.
Qed.

Lemma filter_length_all {A : Type} (f : A -> bool) (l : list A) :
  length (List.filter f l) = length l <-> (forall x, In x l -> f x = true).
Proof.
  induction l as [|x l IH]; simpl.
  - split; [intros _ x [] | reflexivity].
  - pose proof (filter_length_le f l) as Hle.
    destruct (f x) eqn:E; simpl; split.
    + intros H y [<-|Hy]; [exact E|]. apply IH; [lia | exact Hy].
    + intros H. f_equal. apply IH. auto.
    + lia.
    + intros H. specialize (H x (or_introl eq_refl)). congruence.
Qed.

Lemma notNull_succeeded (k : nat) :
  notNull (resultOf k) = true <-> succeeded k.
Proof.
  unfold Run.resultOf, Run.succeeded.
  destruct (rows !! k) as [row|]; simpl.
  - destruct (svc k (makeInput defaults row)) as [r|] eqn:E; simpl; split.
    + intros _. exists row, r. auto.
    + reflexivity.
    + discriminate.
    + intros (row' & r & [= <-] & H). congruence.
  - split; [discriminate | intros (row & r & H & _); discriminate].
Qed.

Lemma importedUpTo_le (k : nat) : (importedUpTo k <= k)%nat.
Proof.
  unfold Run.importedUpTo.
  pose proof (filter_length_le notNull (resultOf <$> seq 0 k)) as H.
  rewrite length_fmap, length_seq in H. exact H.
Qed.

(** Every row is counted exactly when every create-operation succeeded. *)
Lemma importedUpTo_all :
  importedUpTo n = n <-> (forall k, (k < n)%nat -> succeeded k).
Proof.
  unfold Run.importedUpTo.
  pose proof (filter_length_all notNull (resultOf <$> seq 0 n)) as H.
  rewrite length_fmap, length_seq in H. rewrite H. split.
  - intros Hall k Hk. apply notNull_succeeded, Hall.
    apply list_elem_of_In, list_elem_of_fmap. exists k.
    split; [reflexivity|]. apply elem_of_seq. lia.
  - intros Hall x Hx.
    apply list_elem_of_In, list_elem_of_fmap in Hx as (k & -> & Hk).
    apply elem_of_seq in Hk. apply notNull_succeeded, Hall. lia.
Qed.

Lemma importedUpTo_ge (k : nat) :
  (n <= k)%nat -> importedUpTo k = importedUpTo n.
Proof.
  intros Hk. replace k with (n + (k - n))%nat by lia.
  rewrite importedUpTo_add.
  assert (H : forall i len, (n <= i)%nat ->
            List.filter notNull (resultOf <$> seq i len) = []).
  { intros i len. revert i. induction len as [|len IH]; intros i Hi; simpl;
      [reflexivity|].
    rewrite resultOf_ge by exact Hi. simpl. apply IH. lia. }
  rewrite H by lia. simpl. lia.
Qed.

(** *** The batches in sequence *)

Hypothesis Hb : (0 < b)%nat.

Lemma batchStarts_S (j m : nat) :
  starts j (S m) = (j * b)%nat :: starts (S j) m.
Proof. reflexivity. Qed.

Lemma batchCount_le (j : nat) : (batchCount <= j <-> n <= j * b)%nat.
Proof.
  unfold Run.batchCount.
  pose proof (Nat.div_mod_eq (n + b - 1) b) as Hdm.
  pose proof (Nat.mod_upper_bound (n + b - 1) b ltac:(lia)) as Hr.
  set (q := ((n + b - 1) / b)%nat) in *.
  set (r := ((n + b - 1) mod b)%nat) in *.
  split; intros H; nia.
Qed.

Lemma batchCount_le_length : (batchCount <= n)%nat.
Proof. apply batchCount_le. nia. Qed.

(** The loop, from batch [j] on. *)
Lemma importLoop_spec (fuel j : nat) (s : Session) (tr : list (event Created)) :
  mappedRows s = rows ->
  importedCount s = importedUpTo (j * b) ->
  (batchCount - j <= fuel)%nat ->
  importLoop Created svc latency b defaults fuel (j * b) s tr =
    Some (if (j <? batchCount)%nat
          then setImportProgress (progressAt n)
                 (setImportedCount (importedUpTo n) s)
          else s,
          tr ++ flat_map segment (starts j (batchCount - j)%nat)).
Proof.
  revert j s tr. induction fuel as [|fuel IH]; intros j s tr Hrows Hcount Hfuel.
  - assert (Hj : (batchCount <= j)%nat) by lia.
    simpl. rewrite Hrows.
    apply batchCount_le in Hj as Hn. apply Nat.leb_le in Hn as ->.
    apply Nat.ltb_ge in Hj as Hlt. rewrite Hlt.
    replace (batchCount - j)%nat with 0%nat by lia. simpl.
    rewrite app_nil_r. reflexivity.
  - cbn [importLoop]. rewrite Hrows.
    destruct (Nat.leb_spec n (j * b)) as [Hn|Hn].
    + apply batchCount_le in Hn as Hj.
      apply Nat.ltb_ge in Hj as Hlt. rewrite Hlt.
      replace (batchCount - j)%nat with 0%nat by lia. simpl.
      rewrite app_nil_r. reflexivity.
    + assert (Hj : (j < batchCount)%nat).
      { destruct (Nat.lt_ge_cases j batchCount) as [H|H]; [exact H|].
        apply batchCount_le in H. lia. }
      apply Nat.ltb_lt in Hj as Hlt. rewrite Hlt.
      rewrite runBatch_spec by assumption.
      replace (j * b + b)%nat with (S j * b)%nat by lia.
      rewrite IH; cycle 1.
      { exact Hrows. }
      { cbn [importedCount setImportProgress setImportedCount].
        unfold Run.batchLen.
        destruct (Nat.min_spec b (n - j * b)) as [[_ ->]|[Hle ->]].
        - f_equal. lia.
        - rewrite (importedUpTo_ge (S j * b)) by lia. f_equal. lia. }
      { lia. }
      replace (batchCount - j)%nat with (S (batchCount - S j)) by lia.
      rewrite batchStarts_S. cbn [flat_map].
      unfold Run.segment at 2. rewrite <- !app_assoc.
      f_equal.
      destruct (Nat.ltb_spec (S j) batchCount) as [Hlast|Hlast];
        [reflexivity|].
      assert (Hend : (j * b + batchLen (j * b) = n)%nat).
      { apply batchCount_le in Hlast. unfold Run.batchLen. lia. }
      rewrite Hend. reflexivity.
Qed.

Lemma batchCount_pos : (0 < n)%nat -> (0 < batchCount)%nat.
Proof.
  intros Hn. destruct (Nat.lt_ge_cases 0 batchCount) as [H|H]; [exact H|].
  apply batchCount_le in H. lia.
Qed.

Lemma batch_not_last (j : nat) :
  (S j < batchCount)%nat -> batchLen (j * b) = b.
Proof.
  intros Hj. unfold Run.batchLen.
  assert (H : ~ (n <= S j * b)%nat).
  { intros H. apply batchCount_le in H. lia. }
  lia.
Qed.

Lemma batch_last (j : nat) :
  (j < batchCount)%nat -> (batchCount <= S j)%nat ->
  (j * b + batchLen (j * b) = n)%nat.
Proof.
  intros Hj Hlast. apply batchCount_le in Hlast.
  assert (H : ~ (n <= j * b)%nat).
  { intros H. apply batchCount_le in H. lia. }
  unfold Run.batchLen. lia.
Qed.

Lemma batch_end (j : nat) :
  (j < batchCount)%nat ->
  (j * b + batchLen (j * b) = Nat.min n ((j + 1) * b))%nat.
Proof.
  intros Hj.
  destruct (Nat.lt_ge_cases (S j) batchCount) as [H|H].
  - rewrite (batch_not_last j H).
    assert (~ (n <= S j * b)%nat) by (intros H'; apply batchCount_le in H'; lia).
    lia.
  - rewrite (batch_last j Hj H). apply batchCount_le in H. lia.
Qed.

(** A row past the batch [j] lies at or after the start of the next
    batch. *)
Lemma next_batch_start (j k : nat) :
  (j < batchCount)%nat -> (j * b + batchLen (j * b) <= k)%nat ->
  (k < n)%nat -> (S j * b <= k)%nat.
Proof.
  intros Hj Hk Hkn.
  destruct (Nat.lt_ge_cases (S j) batchCount) as [Hl|Hl].
  - rewrite (batch_not_last j Hl) in Hk. lia.
  - rewrite (batch_last j Hj Hl) in Hk. lia.
Qed.

(** The calls of the batches [j], ..., [j + m - 1], when these are the
    last [m] batches. *)
Lemma calls_from (m j : nat) :
  (j + m = batchCount)%nat ->
  callRows (flat_map segment (starts j m)) = seq (j * b) (n - j * b).
Proof.
  revert j. induction m as [|m IH]; intros j Hjm.
  - assert (H : (n <= j * b)%nat) by (apply batchCount_le; lia).
    replace (n - j * b)%nat with 0%nat by lia. reflexivity.
  - rewrite batchStarts_S. cbn [flat_map].
    rewrite callRows_app.
    destruct (segment_observed (j * b)) as (-> & _ & _).
    rewrite (IH (S j)) by lia.
    destruct (Nat.lt_ge_cases (S j) batchCount) as [H|H].
    + rewrite (batch_not_last j H).
      assert (~ (n <= S j * b)%nat)
        by (intros H'; apply batchCount_le in H'; lia).
      replace (n - j * b)%nat with (b + (n - S j * b))%nat by lia.
      rewrite seq_app. do 2 f_equal. lia.
    + pose proof (batch_last j ltac:(lia) H) as Hend.
      apply batchCount_le in H.
      replace (n - S j * b)%nat with 0%nat by lia.
      rewrite app_nil_r. f_equal. lia.
Qed.

(** The progress log of the batches from [j] on. *)
Lemma progressLog_from (m j : nat) :
  (j + m <= batchCount)%nat ->
  progressLog (j * b) (flat_map segment (starts j m)) =
  (fun j' => let k := Nat.min n ((j' + 1) * b) in (k, progressAt k))
    <$> seq j m.
Proof.
  revert j. induction m as [|m IH]; intros j Hjm; [reflexivity|].
  rewrite batchStarts_S. cbn [flat_map seq fmap list_fmap].
  rewrite progressLog_app, progressLog_segment.
  destruct (segment_observed (j * b)) as (_ & -> & _).
  rewrite (Permutation_length (settleOrder_perm _)), length_seq.
  rewrite (batch_end j) by lia. cbn [app]. f_equal.
  destruct m as [|m]; [reflexivity|].
  assert (H : ~ (n <= S j * b)%nat)
    by (intros H'; apply batchCount_le in H'; lia).
  replace (Nat.min n ((j + 1) * b)) with (S j * b)%nat by lia.
  apply IH. lia.
Qed.

Lemma div_batch (j k : nat) :
  (j * b <= k)%nat -> (k < j * b + b)%nat -> (k / b = j)%nat.
Proof.
  intros H1 H2. symmetry. apply (Nat.div_unique k b j (k - j * b)); lia.
Qed.

Lemma div_batch_ge (j k : nat) : (j * b <= k)%nat -> (j <= k / b)%nat.
Proof. intros H. apply Nat.div_le_lower_bound; lia. Qed.

(** Every call of a run carries the input built from its row. *)
Lemma call_inputs (m j k : nat) (input : CabinetProduct) :
  In (Call k input) (flat_map segment (starts j m)) ->
  exists row, rows !! k = Some row /\ input = makeInput defaults row.
Proof.
  intros Hin. apply in_flat_map in Hin as (i & _ & Hin).
  apply call_in_segment in Hin. tauto.
Qed.

(** Every row from batch [j] on has a settled call. *)
Lemma settled_from (m j k : nat) :
  (j + m = batchCount)%nat -> (j * b <= k < n)%nat ->
  In (Settle k (resultOf k)) (flat_map segment (starts j m)).
Proof.
  revert j. induction m as [|m IH]; intros j Hjm Hk.
  - assert (H : (n <= j * b)%nat) by (apply batchCount_le; lia). lia.
  - rewrite batchStarts_S. cbn [flat_map]. apply in_app_iff.
    destruct (Nat.lt_ge_cases k (j * b + batchLen (j * b))) as [H|H].
    + left. apply settled_in_segment. lia.
    + right. apply IH; [lia|].
      pose proof (next_batch_start j k ltac:(lia) H). lia.
Qed.

(** Every row from batch [j] on is called with the input built from its
    record. *)
Lemma called_from (m j k : nat) (row : CabinetProduct) :
  (j + m = batchCount)%nat -> (j * b <= k)%nat -> rows !! k = Some row ->
  In (Call k (makeInput defaults row)) (flat_map segment (starts j m)).
Proof.
  revert j. induction m as [|m IH]; intros j Hjm Hk Hrow.
  - assert (H : (n <= j * b)%nat) by (apply batchCount_le; lia).
    apply lookup_lt_Some in Hrow. lia.
  - rewrite batchStarts_S. cbn [flat_map]. apply in_app_iff.
    destruct (Nat.lt_ge_cases k (j * b + batchLen (j * b))) as [H|H].
    + left. apply called_in_segment; [lia | exact Hrow].
    + right. apply IH; [lia | | exact Hrow].
      apply lookup_lt_Some in Hrow.
      pose proof (next_batch_start j k ltac:(lia) H). lia.
Qed.

(** When a call of a later batch is issued, the calls of the earlier
    batches have settled. *)
Lemma ordering_from (m j : nat) (t1 t2 : list (event Created)) (k : nat)
    (input : CabinetProduct) :
  (j + m = batchCount)%nat ->
  flat_map segment (starts j m) = t1 ++ Call k input :: t2 ->
  forall k', (j * b <= k' < n)%nat -> (k' / b < k / b)%nat ->
  In k' (settleRows t1).
Proof.
  revert j t1. induction m as [|m IH]; intros j t1 Hjm Heq k' Hk' Hdiv.
  - destruct t1; discriminate.
  - rewrite batchStarts_S in Heq. cbn [flat_map] in Heq.
    destruct (segment_observed (j * b)) as (Hcalls & Hsettles & _).
    assert (Hlen : (batchLen (j * b) <= b)%nat) by (unfold Run.batchLen; lia).
    assert (Hafter : forall l, t1 = segment (j * b) ++ l ->
              flat_map segment (starts (S j) m) = l ++ Call k input :: t2 ->
              In k' (settleRows t1)).
    { intros l -> Hrest. rewrite settleRows_app. apply in_app_iff.
      destruct (Nat.lt_ge_cases k' (j * b + batchLen (j * b))) as [H|H].
      - left. rewrite Hsettles.
        apply list_elem_of_In. rewrite settleOrder_perm.
        apply elem_of_seq. lia.
      - right. apply (IH (S j) l ltac:(lia) Hrest); [|exact Hdiv].
        pose proof (next_batch_start j k' ltac:(lia) H). lia. }
    apply app_eq_app in Heq as [l [[Hseg Hrest]|[Ht1 Hrest]]].
    + destruct l as [|e l].
      * apply (Hafter []).
        -- rewrite app_nil_r in Hseg |- *. symmetry. exact Hseg.
        -- symmetry. exact Hrest.
      * injection Hrest as <- _.
        assert (Hin : In k (callRows (segment (j * b)))).
        { rewrite Hseg, callRows_app. apply in_app_iff. right. left.
          reflexivity. }
        rewrite Hcalls in Hin. apply in_seq in Hin.
        rewrite (div_batch j k) in Hdiv by lia.
        pose proof (div_batch_ge j k' ltac:(lia)). lia.
    + apply (Hafter l Ht1 Hrest).
Qed.

(** A run over a valid form and a non-empty list of rows. *)
Lemma importRows_spec (s : Session) :
  formInvalid defaults = false ->
  mappedRows s = rows ->
  (0 < n)%nat ->
  importRows Created svc latency b defaults s =
    Some (finalState s,
          flat_map segment (starts 0%nat batchCount)).
Proof.
  intros Hvalid Hrows Hn. unfold importRows.
  rewrite Hvalid, Hrows.
  destruct (Nat.eqb_spec n 0%nat) as [H0|_]; [lia|]. cbn [orb].
  set (s0 := setSuccessMessage None _).
  change (mappedRows s0) with (mappedRows s). rewrite Hrows.
  change 0%nat with (0 * b)%nat at 1.
  rewrite importLoop_spec; cycle 1.
  { exact Hrows. }
  { reflexivity. }
  { pose proof batchCount_le_length. lia. }
  pose proof (batchCount_pos Hn) as Hbc.
  apply Nat.ltb_lt in Hbc as ->.
  rewrite Nat.sub_0_r. cbn [app].
  cbn [importedCount setIsImporting setImportProgress setImportedCount
       mappedRows].
  change (mappedRows s0) with (mappedRows s). rewrite Hrows.
  unfold Run.finalState.
  destruct (importedUpTo n =? n)%nat; reflexivity.
Qed.

End RunLemmas.

(** ** The importer *)

Lemma mapped_retailPrice (raw : list RawRow) (row : CabinetProduct) :
  In row (mapToCabinetProduct raw) ->
  orElse (retailPrice row) zero = retailPrice row
  /\ orElse (discount row) zero = discount row.
Proof.
  unfold mapToCabinetProduct. intros Hin.
  apply in_map_iff in Hin as (r0 & <- & _). split; [|reflexivity].
  cbn [retailPrice mapRow].
  set (x := Conv.parseFloat _). unfold orElse.
  destruct (truthy x) eqn:E; [rewrite E|]; reflexivity.
Qed.

Lemma importRows_refused (Created : Type)
    (svc : nat -> CabinetProduct -> outcome Created) (latency : nat -> nat)
    (b : nat) (defaults : Defaults) (s : Session) :
  formInvalid defaults = true \/ mappedRows s = [] ->
  importRows Created svc latency b defaults s =
    Some (setErrorMessage (Some "Invalid form or no rows to import."%string) s,
          []).
Proof.
  intros [H|H]; unfold importRows; rewrite H; [reflexivity|].
  simpl. rewrite orb_true_r. reflexivity.
Qed.

(** C7: with no mapped rows, or with a discount below 0 or above 100, the
    importer refuses to run: it sets the one error message, calls the
    create-operation for no row and leaves every other field of the
    session as it was. *)
Theorem C7_refuses_to_run (Created : Type)
    (svc : nat -> CabinetProduct -> outcome Created) (latency : nat -> nat)
    (defaults : Defaults) (s : Session) :
  mappedRows s = []
  \/ (exists d, defaultDiscount defaults = Some d
        /\ (ltb d zero = true \/ ltb (ofNat 100) d = true)) ->
  exists s',
    onImportRows Created svc latency defaults s = Some (s', [])
    /\ errorMessage s' = Some "Invalid form or no rows to import."%string
    /\ importProgress s' = importProgress s
    /\ importedCount s' = importedCount s
    /\ successMessage s' = successMessage s
    /\ isImporting s' = isImporting s
    /\ isParsing s' = isParsing s
    /\ isDragOver s' = isDragOver s
    /\ parsedRows s' = parsedRows s
    /\ mappedRows s' = mappedRows s
    /\ previewRows s' = previewRows s.
Proof.
  intros H. eexists. split.
  - apply importRows_refused.
    destruct H as [H|(d & Hd & Hout)]; [right; exact H|left].
    unfold formInvalid. rewrite Hd.
    destruct Hout as [-> | ->]; [reflexivity | apply orb_true_r].
  - repeat split.
Qed.

Lemma C7_witness :
  exists s',
    onImportRows unit serviceFailingAt3 reverseLatency defaultsOutOfRange
      session25 = Some (s', [])
    /\ importProgress s' = zero /\ importedCount s' = 0%nat.
Proof.
  destruct (C7_refuses_to_run unit serviceFailingAt3 reverseLatency
              defaultsOutOfRange session25)
    as (s' & Hrun & _ & Hp & Hc & _).
  - right. exists (ofNat 150). split; [reflexivity|].
    right. vm_compute. reflexivity.
  - exists s'. split; [exact Hrun|]. split; [exact Hp | exact Hc].
Defined.

(** A run is either refused or described by [importRows_spec]. *)
Lemma importRows_total (Created : Type)
    (svc : nat -> CabinetProduct -> outcome Created) (latency : nat -> nat)
    (b : nat) (defaults : Defaults) (s : Session) :
  (0 < b)%nat ->
  importRows Created svc latency b defaults s =
    Some (setErrorMessage (Some "Invalid form or no rows to import."%string) s,
          [])
  \/ importRows Created svc latency b defaults s =
       Some (finalState Created svc defaults (mappedRows s) s,
             flat_map (segment Created svc latency b defaults (mappedRows s))
               (batchStarts b 0 (batchCount b (mappedRows s)))).
Proof.
  intros Hb.
  destruct (formInvalid defaults) eqn:Hvalid.
  - left. apply importRows_refused. left. exact Hvalid.
  - destruct (mappedRows s) as [|row rows] eqn:Hrows.
    + left. apply importRows_refused. right. exact Hrows.
    + right. rewrite <- Hrows. apply importRows_spec; try assumption.
      * reflexivity.
      * rewrite Hrows. simpl. lia.
Qed.

(** C3: the input handed to the create-operation for a mapped record.
    In a run with a valid form the create-operation is called once for
    every mapped record, in the order of the rows, and the call for a
    record hands over the input built from it: with a discount [d] between
    0 and 100 and a price [p >= 0] the [discountPrice] is
    [p * (1 - d / 100)], computed in binary64 as the code does; [publish]
    and [discount] are the overrides of the form when these are set and the
    values of the record otherwise.  No call of any run carries another
    input. *)
Theorem C3_input_of_a_call (Created : Type)
    (svc : nat -> CabinetProduct -> outcome Created) (latency : nat -> nat)
    (defaults : Defaults) (raw : list RawRow) (s : Session) :
  mappedRows s = mapToCabinetProduct raw ->
  exists s' tr,
    onImportRows Created svc latency defaults s = Some (s', tr)
    /\ (formInvalid defaults = false ->
        callRows tr = seq 0 (length (mappedRows s))
        /\ forall k row, mappedRows s !! k = Some row ->
             exists input,
               In (Call k input) tr
               /\ input = makeInput defaults row
               /\ (forall d, defaultDiscount defaults = Some d ->
                     leb zero d = true -> leb d (ofNat 100) = true ->
                     leb zero (retailPrice row) = true ->
                     discountPrice input =
                       mul (retailPrice row) (sub one (div d (ofNat 100))))
               /\ publish input =
                    match defaultPublish defaults with
                    | Some p => p
                    | None => publish row
                    end
               /\ discount input =
                    match defaultDiscount defaults with
                    | Some d => d
                    | None => discount row
                    end)
    /\ forall k input, In (Call k input) tr ->
         exists row,
           mappedRows s !! k = Some row
           /\ (forall d, defaultDiscount defaults = Some d ->
                 leb zero d = true -> leb d (ofNat 100) = true ->
                 leb zero (retailPrice row) = true ->
                 discountPrice input =
                   mul (retailPrice row) (sub one (div d (ofNat 100))))
           /\ publish input =
                match defaultPublish defaults with
                | Some p => p
                | None => publish row
                end
           /\ discount input =
                match defaultDiscount defaults with
                | Some d => d
                | None => discount row
                end.
Proof.
  intros Hmapped. unfold onImportRows.
  assert (Hinput : forall k row, mappedRows s !! k = Some row ->
            (forall d, defaultDiscount defaults = Some d ->
               leb zero d = true -> leb d (ofNat 100) = true ->
               leb zero (retailPrice row) = true ->
               discountPrice (makeInput defaults row) =
                 mul (retailPrice row) (sub one (div d (ofNat 100))))
            /\ publish (makeInput defaults row) =
                 match defaultPublish defaults with
                 | Some p => p
                 | None => publish row
                 end
            /\ discount (makeInput defaults row) =
                 match defaultDiscount defaults with
                 | Some d => d
                 | None => discount row
                 end).
  { intros k row Hrow.
    assert (Hin : In row (mapToCabinetProduct raw)).
    { rewrite <- Hmapped. apply list_elem_of_In.
      apply (list_elem_of_lookup_2 _ k). exact Hrow. }
    destruct (mapped_retailPrice raw row Hin) as [Hp Hd].
    cbn [discountPrice publish discount makeInput]. rewrite Hp.
    split; [|split].
    - intros d -> _ _ _. reflexivity.
    - reflexivity.
    - destruct (defaultDiscount defaults); [reflexivity | exact Hd]. }
  assert (H10 : (0 < 10)%nat) by lia.
  destruct (formInvalid defaults) eqn:Hvalid.
  - rewrite (importRows_refused Created svc latency 10 defaults s)
      by (left; exact Hvalid).
    do 2 eexists. split; [reflexivity|]. split; [discriminate|].
    intros k input [].
  - destruct (mappedRows s) as [|row0 rows0] eqn:Hrows.
    + rewrite (importRows_refused Created svc latency 10 defaults s)
        by (right; exact Hrows).
      do 2 eexists. split; [reflexivity|]. split.
      * intros _. split; [reflexivity|].
        intros k row Hrow. rewrite lookup_nil in Hrow. discriminate.
      * intros k input [].
    + rewrite <- Hrows in *.
      assert (Hn : (0 < length (mappedRows s))%nat)
        by (rewrite Hrows; simpl; lia).
      rewrite (importRows_spec Created svc latency 10 defaults (mappedRows s)
                 H10 s Hvalid eq_refl Hn).
      do 2 eexists. split; [reflexivity|]. split.
      * intros _. split.
        -- rewrite (calls_from Created svc latency 10 defaults (mappedRows s)
                      H10 (batchCount 10 (mappedRows s)) 0) by reflexivity.
           simpl. rewrite Nat.sub_0_r. reflexivity.
        -- intros k row Hrow. exists (makeInput defaults row).
           split; [|split; [reflexivity | exact (Hinput k row Hrow)]].
           apply (called_from Created svc latency 10 defaults (mappedRows s)
                    H10); [reflexivity | lia | exact Hrow].
      * intros k input Hin.
        apply (call_inputs Created svc latency 10 defaults (mappedRows s))
          in Hin as (row & Hrow & ->).
        exists row. split; [exact Hrow | exact (Hinput k row Hrow)].
Qed.

Lemma C3_witness :
  exists s' tr,
    onImportRows unit serviceFailingAt3 reverseLatency defaultsTenPercent
      session2 = Some (s', tr)
    /\ callRows tr = [0%nat; 1%nat]
    /\ (exists input,
          In (Call 0 input) tr
          /\ discountPrice input = ofNat 180
          /\ publish input = true /\ discount input = ofNat 10)
    /\ forall k input, In (Call k input) tr ->
         publish input = true /\ discount input = ofNat 10
         /\ (k = 0%nat -> discountPrice input = ofNat 180).
Proof.
  destruct (C3_input_of_a_call unit serviceFailingAt3 reverseLatency
              defaultsTenPercent [rowPriced; rowBadRegularPrice] session2)
    as (s' & tr & Hrun & Hrows & Hcalls).
  - vm_compute. reflexivity.
  - destruct (Hrows ltac:(vm_compute; reflexivity)) as [Hseq Hall].
    exists s', tr. split; [exact Hrun|]. split; [exact Hseq|]. split.
    + destruct (Hall 0%nat (mapRow rowPriced) ltac:(vm_compute; reflexivity))
        as (input & Hin & _ & Hprice & Hp & Hd).
      exists input. split; [exact Hin|]. split; [|split; assumption].
      rewrite (Hprice (ofNat 10)); vm_compute; reflexivity.
    + intros k input Hin.
      destruct (Hcalls k input Hin) as (row & Hrow & Hprice & Hp & Hd).
      split; [exact Hp|]. split; [exact Hd|].
      intros ->. vm_compute in Hrow. injection Hrow as <-.
      rewrite (Hprice (ofNat 10)); vm_compute; reflexivity.
Defined.

(** C4: a run over [n > 0] records with batch size [b > 0].  The trace is
    the concatenation of [ceil (n / b)] consecutive batches; batch [j]
    calls the create-operation once for each of the rows [j * b], ...,
    in order, at most [b] of them and exactly [b] except possibly in the
    last batch, so that the calls of the run are those of the rows
    [0 .. n - 1]; the calls of a batch all settle within the batch; and when
    a call is issued, every call of an earlier batch has settled. *)
Theorem C4_sequential_batches (Created : Type)
    (svc : nat -> CabinetProduct -> outcome Created) (latency : nat -> nat)
    (b : nat) (defaults : Defaults) (s : Session) :
  let n := length (mappedRows s) in
  (0 < n)%nat -> (0 < b)%nat -> formInvalid defaults = false ->
  exists s' segs,
    importRows Created svc latency b defaults s = Some (s', List.concat segs)
    /\ callRows (List.concat segs) = seq 0 n
    /\ length segs = ((n + b - 1) / b)%nat
    /\ (forall j seg, segs !! j = Some seg ->
          callRows seg = seq (j * b) (Nat.min b (n - j * b))
          /\ (0 < length (callRows seg) <= b)%nat
          /\ ((S j < length segs)%nat -> length (callRows seg) = b)
          /\ Permutation (settleRows seg) (callRows seg))
    /\ (forall t1 k input t2,
          List.concat segs = t1 ++ Call k input :: t2 ->
          forall k', (k' < n)%nat -> (k' / b < k / b)%nat ->
          In k' (settleRows t1)).
Proof.
  intros n Hn Hb Hvalid.
  set (rows := mappedRows s) in *.
  set (starts := batchStarts b 0 (batchCount b rows)).
  exists (finalState Created svc defaults rows s),
         (segment Created svc latency b defaults rows <$> starts).
  assert (Hflat : List.concat (segment Created svc latency b defaults rows
                                 <$> starts)
                  = flat_map (segment Created svc latency b defaults rows)
                      starts).
  { symmetry. apply flat_map_concat_map. }
  rewrite Hflat. split; [|split; [|split; [|split]]].
  - apply importRows_spec; auto.
  - unfold starts. rewrite calls_from by (auto; lia).
    rewrite Nat.sub_0_r. reflexivity.
  - unfold starts, batchStarts. rewrite !length_fmap, length_seq. reflexivity.
  - intros j seg Hseg. unfold starts, batchStarts in Hseg.
    rewrite !list_lookup_fmap in Hseg.
    destruct (seq 0 (batchCount b rows) !! j) as [j'|] eqn:Ej;
      [|discriminate].
    apply lookup_seq in Ej as [-> Hj]. simpl in Hj, Hseg.
    injection Hseg as <-.
    destruct (segment_observed Created svc latency b defaults rows (j * b))
      as (Hc & Hs & _).
    rewrite Hc, Hs, length_seq.
    assert (Hjn : (j * b < n)%nat).
    { destruct (Nat.lt_ge_cases (j * b) n) as [H|H]; [exact H|].
      apply (batchCount_le b rows Hb) in H. lia. }
    split; [reflexivity|]. split; [unfold batchLen; fold n; lia|]. split.
    + unfold starts, batchStarts. rewrite !length_fmap, length_seq.
      intros Hlast.
      apply (batch_not_last b rows Hb). exact Hlast.
    + apply settleOrder_perm.
  - intros t1 k input t2 Heq k' Hk' Hdiv.
    apply (ordering_from Created svc latency b defaults rows Hb
             (batchCount b rows) 0 t1 t2 k input); auto; lia.
Qed.

Lemma C4_witness :
  exists s' segs,
    importRows unit serviceFailingAt3 reverseLatency 10 defaultsTenPercent
      session25 = Some (s', List.concat segs)
    /\ callRows (List.concat segs) = seq 0 25
    /\ length segs = 3%nat.
Proof.
  destruct (C4_sequential_batches unit serviceFailingAt3 reverseLatency 10
              defaultsTenPercent session25)
    as (s' & segs & Hrun & Hcalls & Hlen & _).
  - vm_compute. lia.
  - lia.
  - vm_compute. reflexivity.
  - exists s', segs. split; [exact Hrun|]. split; [exact Hcalls|].
    rewrite Hlen. reflexivity.
Defined.

(** C5: the progress of a run over [n > 0] records (an array has fewer
    than [2 ^ 32] elements).  After batch [j] the progress is
    [round (k / n * 100)], evaluated in binary64 as the code does, where
    [k = min n ((j + 1) * b)] is the number of records processed so far;
    the successive values never decrease; the last one, which the session
    keeps, is exactly 100; and 25 records in batches of 10 give 40, 80,
    100. *)
Theorem C5_progress (Created : Type)
    (svc : nat -> CabinetProduct -> outcome Created) (latency : nat -> nat)
    (b : nat) (defaults : Defaults) (s : Session) :
  let n := length (mappedRows s) in
  (0 < n)%nat -> (0 < b)%nat -> formInvalid defaults = false ->
  Z.of_nat n < 2 ^ 32 ->
  exists s' tr,
    importRows Created svc latency b defaults s = Some (s', tr)
    /\ progressLog 0 tr =
         (fun j => let k := Nat.min n ((j + 1) * b) in
                   (k, round (mul (div (ofNat k) (ofNat n)) (ofNat 100))))
           <$> seq 0 ((n + b - 1) / b)
    /\ progressOf tr = snd <$> progressLog 0 tr
    /\ (forall j1 j2 p q, (j1 <= j2)%nat ->
          progressOf tr !! j1 = Some p -> progressOf tr !! j2 = Some q ->
          leb p q = true)
    /\ last (progressOf tr) = Some (ofNat 100)
    /\ importProgress s' = ofNat 100
    /\ (n = 25%nat -> b = 10%nat ->
        progressOf tr = [ofNat 40; ofNat 80; ofNat 100]).
Proof.
  intros n Hn Hb Hvalid Hbound.
  set (rows := mappedRows s) in *.
  set (bc := ((n + b - 1) / b)%nat).
  set (f := fun j => let k := Nat.min n ((j + 1) * b) in
                     (k, round (mul (div (ofNat k) (ofNat n)) (ofNat 100)))).
  exists (finalState Created svc defaults rows s),
         (flat_map (segment Created svc latency b defaults rows)
            (batchStarts b 0 (batchCount b rows))).
  split; [apply importRows_spec; auto|].
  assert (Hlog : progressLog 0
            (flat_map (segment Created svc latency b defaults rows)
               (batchStarts b 0 (batchCount b rows)))
          = f <$> seq 0 bc).
  { change 0%nat with (0 * b)%nat at 1.
    rewrite (progressLog_from Created svc latency b defaults rows Hb)
      by lia.
    reflexivity. }
  assert (Hof : progressOf
            (flat_map (segment Created svc latency b defaults rows)
               (batchStarts b 0 (batchCount b rows)))
          = (fun j => progressAt rows (Nat.min n ((j + 1) * b)))
              <$> seq 0 bc).
  { rewrite (progressLog_snd Created 0%nat), Hlog, <- list_fmap_compose.
    reflexivity. }
  assert (Hbc : (0 < bc)%nat) by (apply (batchCount_pos b rows Hb); exact Hn).
  assert (Hfull : progressAt rows n = ofNat 100)
    by (apply progressAt_full; assumption).
  split; [exact Hlog|]. split; [apply progressLog_snd|].
  split; [|split; [|split]].
  - intros j1 j2 p q Hj. rewrite Hof, !list_lookup_fmap.
    destruct (seq 0 bc !! j1) as [i1|] eqn:E1; [|discriminate].
    destruct (seq 0 bc !! j2) as [i2|] eqn:E2; [|discriminate].
    apply lookup_seq in E1 as [-> _]. apply lookup_seq in E2 as [-> _].
    simpl. intros [= <-] [= <-].
    apply progressAt_mono; try assumption; fold n; nia.
  - rewrite Hof, last_lookup, length_fmap, length_seq, list_lookup_fmap.
    rewrite lookup_seq_lt by lia. simpl.
    replace (Nat.min n ((Nat.pred bc + 1) * b)) with n; [congruence|].
    assert (H : (n <= bc * b)%nat)
      by (apply (batchCount_le b rows Hb); unfold batchCount; fold n bc; lia).
    replace (Nat.pred bc + 1)%nat with bc by lia. lia.
  - unfold finalState. fold n.
    destruct (importedUpTo Created svc defaults rows n =? n)%nat;
      exact Hfull.
  - intros Hn25 Hb10. rewrite Hof. unfold bc, progressAt.
    fold n. rewrite Hn25, Hb10. vm_compute. reflexivity.
Qed.

Lemma C5_witness :
  exists s' tr,
    importRows unit serviceFailingAt3 reverseLatency 10 defaultsTenPercent
      session25 = Some (s', tr)
    /\ progressOf tr = [ofNat 40; ofNat 80; ofNat 100]
    /\ importProgress s' = ofNat 100.
Proof.
  destruct (C5_progress unit serviceFailingAt3 reverseLatency 10
              defaultsTenPercent session25)
    as (s' & tr & Hrun & _ & _ & _ & _ & Hend & Hseq).
  - vm_compute. lia.
  - lia.
  - vm_compute. reflexivity.
  - vm_compute. reflexivity.
  - exists s', tr. split; [exact Hrun|]. split; [|exact Hend].
    apply Hseq; vm_compute; reflexivity.
Defined.



(** * Further properties of the mapper *)

Import Handlers.

Local Open Scope string_scope.

Lemma orElse_default_nonempty (x : option string) (d : string) :
  d <> "" -> Str.orElse x d <> "".
Proof.
  intros Hd. destruct x as [[|a s]|]; simpl; [exact Hd | discriminate | exact Hd].
Qed.

Lemma replacePrefix_nonempty (p r s : string) :
  r <> "" -> s <> "" -> Str.replacePrefix p r s <> "".
Proof.
  intros Hr Hs. unfold Str.replacePrefix.
  destruct (Str.dropPrefix p s) as [rest|]; [|exact Hs].
  destruct r; [congruence | discriminate].
Qed.

Lemma mapped_from_row (raw : list RawRow) (r : CabinetProduct) :
  In r (mapToCabinetProduct raw) ->
  exists row sku, In row raw /\ row !! "SKU" = Some sku /\ sku <> ""
                  /\ r = mapRow row.
Proof.
  unfold mapToCabinetProduct. intros Hin.
  apply in_map_iff in Hin as (row & <- & Hrow).
  apply filter_In in Hrow as [Hraw Hsku].
  apply hasSKU_true in Hsku as (sku & Hsku & Hne).
  exists row, sku. auto.
Qed.

Lemma mapped_wSKU_nonempty (raw : list RawRow) (r : CabinetProduct) :
  In r (mapToCabinetProduct raw) -> wSKU r <> "".
Proof.
  intros Hin.
  apply mapped_from_row in Hin as (row & sku & _ & Hsku & Hne & ->).
  cbn [wSKU mapRow]. rewrite Hsku, (orElse_truthy sku "" Hne).
  apply replacePrefix_nonempty; [discriminate | exact Hne].
Qed.

(** The four fields that the schema of [CabinetProduct] requires are
    never empty in a mapped record. *)
Theorem mapped_required_fields_nonempty (raw : list RawRow)
    (r : CabinetProduct) :
  In r (mapToCabinetProduct raw) ->
  wSKU r <> "" /\ vSKU r <> "" /\ brand r <> "" /\ doorStyle r <> "".
Proof.
  intros Hin.
  apply mapped_from_row in Hin as (row & sku & _ & Hsku & Hne & ->).
  assert (Hor : Str.orElse (row !! "SKU") "" = sku)
    by (rewrite Hsku; apply orElse_truthy, Hne).
  repeat split.
  - cbn [wSKU mapRow]. rewrite Hor.
    apply replacePrefix_nonempty; [discriminate | exact Hne].
  - cbn [vSKU mapRow]. rewrite Hor.
    apply replacePrefix_nonempty; [discriminate | exact Hne].
  - cbn [brand mapRow].
    set (b := Str.orElse _ "Forevermark").
    assert (Hb : b <> "") by (apply orElse_default_nonempty; discriminate).
    rewrite (orElse_truthy b "" Hb). exact Hb.
  - rewrite doorStyle_is_tagDoorStyle. apply tagDoorStyle_nonempty.
Qed.

Lemma mapped_required_fields_witness :
  wSKU (mapRow rowScenario1) <> "" /\ brand (mapRow rowScenario1) <> "".
Proof.
  destruct (mapped_required_fields_nonempty [rowScenario1]
              (mapRow rowScenario1)) as (Hw & _ & Hb & _).
  - vm_compute. left. reflexivity.
  - split; assumption.
Defined.

Lemma orElse_zero_not_NaN (x : number) : isNaN (orElse x zero) = false.
Proof.
  unfold orElse, truthy. destruct (isNaN x) eqn:E; simpl; [reflexivity|].
  destruct (isZero x); simpl; [reflexivity | exact E].
Qed.

(** No numeric field of a mapped record is [NaN]: a cell that does not
    parse gives 0. *)
Theorem mapped_numbers_not_NaN (row : RawRow) :
  let r := mapRow row in
  isNaN (width r) = false /\ isNaN (height r) = false
  /\ isNaN (weight r) = false /\ isNaN (retailPrice r) = false
  /\ isNaN (assemblyFee r) = false /\ isNaN (assemblyCost r) = false
  /\ isNaN (discount r) = false /\ isNaN (costFactor r) = false
  /\ isNaN (discountPrice r) = false.
Proof.
  cbn [width height weight retailPrice assemblyFee assemblyCost discount
       costFactor discountPrice mapRow].
  repeat split; try apply orElse_zero_not_NaN; reflexivity.
Qed.

(** The two identifiers of a record differ exactly when the SKU starts
    with "AZ-". *)
Theorem identifiers_differ_iff_prefixed (row : RawRow) (sku : string) :
  row !! "SKU" = Some sku ->
  (wSKU (mapRow row) <> vSKU (mapRow row)
   <-> exists rest, sku = "AZ-" +:+ rest).
Proof.
  intros Hsku.
  assert (Hor : Str.orElse (row !! "SKU") "" = sku).
  { rewrite Hsku. destruct sku; reflexivity. }
  cbn [wSKU vSKU mapRow]. rewrite Hor.
  destruct (Str.dropPrefix "AZ-" sku) as [rest|] eqn:E.
  - apply dropPrefix_spec in E. rewrite E, !replacePrefix_hit.
    split; [eauto | intros _ [=]].
  - assert (Hno : forall rest, sku <> "AZ-" +:+ rest).
    { intros rest Heq. apply dropPrefix_spec in Heq. congruence. }
    rewrite !replacePrefix_miss by exact Hno.
    split; [congruence | intros (rest & Hrest)]. destruct (Hno rest Hrest).
Qed.

Lemma identifiers_differ_witness :
  wSKU (mapRow rowScenario1) <> vSKU (mapRow rowScenario1).
Proof.
  apply (identifiers_differ_iff_prefixed rowScenario1 "AZ-123").
  - vm_compute. reflexivity.
  - exists "123". reflexivity.
Defined.

Lemma append_inj_l (p a b : string) : p +:+ a = p +:+ b -> a = b.
Proof.
  induction p as [|c p IH]; simpl; [auto|]. intros [= H]. apply IH, H.
Qed.

Lemma replacePrefix_cases (p r s : string) :
  (exists rest, s = p +:+ rest /\ Str.replacePrefix p r s = r +:+ rest)
  \/ ((forall rest, s <> p +:+ rest) /\ Str.replacePrefix p r s = s).
Proof.
  destruct (Str.dropPrefix p s) as [rest|] eqn:E.
  - left. exists rest. apply dropPrefix_spec in E. subst s.
    split; [reflexivity | apply replacePrefix_hit].
  - right.
    assert (Hno : forall rest, s <> p +:+ rest).
    { intros rest Heq. apply dropPrefix_spec in Heq. congruence. }
    split; [exact Hno | apply replacePrefix_miss, Hno].
Qed.

(** Two rows get the same primary identifier exactly when their SKUs are
    equal or are "AZ-r" and "W-r" for the same [r]: the substitution maps
    a prefixed SKU onto an identifier that an unprefixed SKU may already
    be. *)
Theorem primary_identifier_collisions (row1 row2 : RawRow)
    (sku1 sku2 : string) :
  row1 !! "SKU" = Some sku1 -> row2 !! "SKU" = Some sku2 ->
  (wSKU (mapRow row1) = wSKU (mapRow row2)
   <-> sku1 = sku2
       \/ (exists r, sku1 = "AZ-" +:+ r /\ sku2 = "W-" +:+ r)
       \/ (exists r, sku1 = "W-" +:+ r /\ sku2 = "AZ-" +:+ r)).
Proof.
  intros H1 H2.
  assert (Hor1 : Str.orElse (row1 !! "SKU") "" = sku1)
    by (rewrite H1; destruct sku1; reflexivity).
  assert (Hor2 : Str.orElse (row2 !! "SKU") "" = sku2)
    by (rewrite H2; destruct sku2; reflexivity).
  cbn [wSKU mapRow]. rewrite Hor1, Hor2.
  destruct (replacePrefix_cases "AZ-" "W-" sku1)
    as [(r1 & E1 & R1) | (Hno1 & R1)];
    destruct (replacePrefix_cases "AZ-" "W-" sku2)
      as [(r2 & E2 & R2) | (Hno2 & R2)];
    rewrite R1, R2; clear R1 R2 Hor1 Hor2 H1 H2.
  - subst sku1 sku2. split.
    + intros H. apply append_inj_l in H. subst r2. left. reflexivity.
    + intros [H | [(r & H & H') | (r & H & _)]].
      * apply append_inj_l in H. rewrite H. reflexivity.
      * simpl in H'. discriminate.
      * simpl in H. discriminate.
  - subst sku1. split.
    + intros <-. right. left. exists r1. auto.
    + intros [H | [(r & H & H') | (r & H & _)]].
      * destruct (Hno2 r1 (eq_sym H)).
      * apply append_inj_l in H. subst r sku2. reflexivity.
      * simpl in H. discriminate.
  - subst sku2. split.
    + intros ->. right. right. exists r2. auto.
    + intros [H | [(r & _ & H') | (r & H & H')]].
      * destruct (Hno1 r2 H).
      * simpl in H'. discriminate.
      * apply append_inj_l in H'. subst r sku1. reflexivity.
  - split; [auto|].
    intros [H | [(r & H & _) | (r & _ & H)]]; [exact H | |].
    + destruct (Hno1 r H).
    + destruct (Hno2 r H).
Qed.

Lemma primary_identifier_collisions_witness :
  wSKU (mapRow rowPrefixedSKU) = wSKU (mapRow rowClashingSKU).
Proof.
  apply (primary_identifier_collisions rowPrefixedSKU rowClashingSKU
           "AZ-77" "W-77").
  - vm_compute. reflexivity.
  - vm_compute. reflexivity.
  - right. left. exists "77". split; reflexivity.
Defined.

(** The mapper works row by row: it maps a concatenation of row lists to
    the concatenation of their images. *)
Theorem mapper_app (rows1 rows2 : list RawRow) :
  mapToCabinetProduct (rows1 ++ rows2)%list =
  (mapToCabinetProduct rows1 ++ mapToCabinetProduct rows2)%list.
Proof.
  unfold mapToCabinetProduct. rewrite List.filter_app, List.map_app.
  reflexivity.
Qed.

(** The number of mapped records is the number of rows with a non-empty
    SKU: at most the number of rows, and equal to it exactly when no row
    is dropped. *)
Theorem mapper_count (rows : list RawRow) :
  (length (mapToCabinetProduct rows) <= length rows)%nat
  /\ (length (mapToCabinetProduct rows) = length rows
      <-> forall row, In row rows ->
            exists sku, row !! "SKU" = Some sku /\ sku <> "").
Proof.
  unfold mapToCabinetProduct. rewrite length_map. split.
  - apply filter_length_le.
  - rewrite filter_length_all. split; intros H row Hin.
    + apply hasSKU_true, H, Hin.
    + apply hasSKU_true, H, Hin.
Qed.

Lemma toLowerCase_app (a b : string) :
  Str.toLowerCase (a +:+ b) = Str.toLowerCase a +:+ Str.toLowerCase b.
Proof.
  unfold Str.toLowerCase. induction a as [|c a IH]; simpl; [reflexivity|].
  rewrite IH. reflexivity.
Qed.

Lemma prefix_app (p s : string) : String.prefix p (p +:+ s) = true.
Proof.
  induction p as [|c p IH]; simpl; [destruct s; reflexivity|].
  destruct (ascii_dec c c) as [_|Hne]; [exact IH | congruence].
Qed.

Lemma includes_unfold (s sub : string) :
  Str.includes s sub =
  String.prefix sub s
  || match s with
     | EmptyString => false
     | String _ s' => Str.includes s' sub
     end.
Proof. destruct s; reflexivity. Qed.

Lemma includes_app (pre sub post : string) :
  Str.includes (pre +:+ sub +:+ post) sub = true.
Proof.
  induction pre as [|c pre IH].
  - change ("" +:+ sub +:+ post) with (sub +:+ post).
    rewrite includes_unfold, prefix_app. reflexivity.
  - change (String.prefix sub (String c (pre +:+ sub +:+ post))
            || Str.includes (pre +:+ sub +:+ post) sub = true).
    rewrite IH. apply orb_true_r.
Qed.

(** The door markers are looked for whatever the letter case of the tags:
    tags that contain a spelling of "double-door" give "Double Door", and
    tags that contain a spelling of "single-door" and none of
    "double-door" give "Single Door". *)
Theorem door_marker_any_case (row : RawRow) (pre mark post : string) :
  row !! "Tags" = Some (pre +:+ mark +:+ post) ->
  (Str.toLowerCase mark = "double-door" ->
   doorStyle (mapRow row) = "Double Door")
  /\ (Str.toLowerCase mark = "single-door" ->
      Str.includes (Str.toLowerCase (pre +:+ mark +:+ post)) "double-door"
        = false ->
      doorStyle (mapRow row) = "Single Door").
Proof.
  intros Htags. rewrite doorStyle_is_tagDoorStyle. unfold tagDoorStyle.
  rewrite Htags.
  assert (Hor : forall d, Str.orElse (Some (pre +:+ mark +:+ post)) d
                          = pre +:+ mark +:+ post
                          \/ mark = "").
  { intros d. destruct (pre +:+ mark +:+ post) eqn:E; [|left; reflexivity].
    right. destruct pre; [|discriminate]. destruct mark; [reflexivity|].
    discriminate. }
  split.
  - intros Hmark. destruct (Hor "") as [-> | ->]; [|discriminate].
    rewrite !toLowerCase_app, Hmark, includes_app. reflexivity.
  - intros Hmark Hno. destruct (Hor "") as [-> | ->]; [|discriminate].
    rewrite Hno. rewrite !toLowerCase_app, Hmark, includes_app. reflexivity.
Qed.

Lemma door_marker_any_case_witness :
  doorStyle (mapRow rowTagged) = "Double Door".
Proof.
  apply (door_marker_any_case rowTagged "Wall, " "DOUBLE-Door" ", Soft Close").
  - vm_compute. reflexivity.
  - vm_compute. reflexivity.
Defined.

Lemma occurs_trimStart (c : ascii) (s : string) :
  occurs c s = false -> occurs c (Str.trimStart s) = false.
Proof.
  induction s as [|a s IH]; simpl; [auto|].
  intros H. apply orb_false_elim in H as [Ha Hs].
  destruct (Str.isSpace a); [apply IH, Hs|]. simpl. rewrite Ha, Hs. reflexivity.
Qed.

Lemma occurs_trimEnd (c : ascii) (s : string) :
  occurs c s = false -> occurs c (Str.trimEnd s) = false.
Proof.
  induction s as [|a s IH]; simpl; [auto|].
  intros H. apply orb_false_elim in H as [Ha Hs]. specialize (IH Hs).
  destruct (Str.trimEnd s) as [|b t].
  - destruct (Str.isSpace a); simpl; [reflexivity|]. rewrite Ha. reflexivity.
  - cbn [occurs]. rewrite Ha. exact IH.
Qed.

Lemma trimEnd_idem (s : string) : Str.trimEnd (Str.trimEnd s) = Str.trimEnd s.
Proof.
  induction s as [|a s IH]; simpl; [reflexivity|].
  destruct (Str.trimEnd s) as [|b t] eqn:E.
  - destruct (Str.isSpace a) eqn:Ea; simpl; [reflexivity|].
    rewrite Ea. reflexivity.
  - cbn [Str.trimEnd]. cbn [Str.trimEnd] in IH. rewrite IH. reflexivity.
Qed.

Lemma trimStart_clean (s : string) : cleanStart (Str.trimStart s).
Proof.
  induction s as [|a s IH]; simpl; [exact I|].
  destruct (Str.isSpace a) eqn:E; [exact IH | exact E].
Qed.

Lemma trimEnd_clean (s : string) : cleanStart s -> cleanStart (Str.trimEnd s).
Proof.
  destruct s as [|a s]; simpl; [auto|]. intros Ha.
  destruct (Str.trimEnd s); [rewrite Ha|]; exact Ha.
Qed.

Lemma trimStart_of_clean (s : string) : cleanStart s -> Str.trimStart s = s.
Proof. destruct s as [|a s]; simpl; [auto|]. intros ->. reflexivity. Qed.

Lemma trim_idem (s : string) : Str.trim (Str.trim s) = Str.trim s.
Proof.
  unfold Str.trim.
  rewrite (trimStart_of_clean (Str.trimEnd (Str.trimStart s))).
  - apply trimEnd_idem.
  - apply trimEnd_clean, trimStart_clean.
Qed.

(** The image path of a mapped record is one entry of the list of images:
    it holds no comma and no white space at either end, and it is empty
    when the row has no image. *)
Theorem imagePath_single_entry (row : RawRow) :
  occurs "," (imagePath (mapRow row)) = false
  /\ Str.trim (imagePath (mapRow row)) = imagePath (mapRow row)
  /\ (row !! "Images" = None \/ row !! "Images" = Some "" ->
      imagePath (mapRow row) = "").
Proof.
  cbn [imagePath mapRow].
  destruct (row !! "Images") as [images|]; cbn [Str.truthy].
  - destruct (Str.truthy images) eqn:Et.
    + assert (Hhead : occurs ","
                (Str.orElse (head (Str.split "," images)) "") = false).
      { destruct (Str.split "," images) as [|w ws] eqn:E; [reflexivity|].
        cbn [head]. unfold Str.orElse.
        destruct (Str.truthy w); [|reflexivity].
        apply (split_no_separator "," images). rewrite E. left. reflexivity. }
      split; [apply occurs_trimEnd, occurs_trimStart, Hhead|].
      split; [apply trim_idem|].
      intros [H|H]; [discriminate|]. injection H as ->. discriminate.
    + repeat split.
  - repeat split.
Qed.

Lemma imagePath_single_entry_witness :
  imagePath (mapRow rowMissingSKU) = "".
Proof.
  apply (imagePath_single_entry rowMissingSKU).
  left. vm_compute. reflexivity.
Defined.

(** In the preview table a mapped record is tracked by its primary
    identifier, whatever its position. *)
Theorem trackById_mapped (raw : list RawRow) (r : CabinetProduct)
    (index : nat) :
  In r (mapToCabinetProduct raw) -> trackById index r = wSKU r.
Proof.
  intros Hin. unfold trackById.
  apply orElse_truthy, (mapped_wSKU_nonempty raw r Hin).
Qed.

Lemma trackById_mapped_witness :
  trackById 4 (mapRow rowScenario1) = "W-123".
Proof.
  rewrite (trackById_mapped [rowScenario1] (mapRow rowScenario1) 4).
  - vm_compute. reflexivity.
  - vm_compute. left. reflexivity.
Defined.

(** * Properties of the upload handlers *)

Lemma endsWith_unfold (s suffix : string) :
  Str.endsWith s suffix =
  String.eqb s suffix
  || match s with
     | EmptyString => false
     | String _ s' => Str.endsWith s' suffix
     end.
Proof. destruct s; reflexivity. Qed.

Lemma endsWith_spec (s suffix : string) :
  Str.endsWith s suffix = true <-> exists base, s = base +:+ suffix.
Proof.
  split.
  - induction s as [|c s IH]; rewrite endsWith_unfold; intros H;
      apply orb_true_iff in H as [H|H].
    + apply String.eqb_eq in H. exists "". exact H.
    + discriminate.
    + apply String.eqb_eq in H. exists "". exact H.
    + destruct (IH H) as [base ->]. exists (String c base). reflexivity.
  - intros [base ->]. induction base as [|c base IH].
    + rewrite endsWith_unfold. change ("" +:+ suffix) with suffix.
      rewrite String.eqb_refl. reflexivity.
    + rewrite endsWith_unfold.
      change (String.eqb (String c base +:+ suffix) suffix
              || Str.endsWith (base +:+ suffix) suffix = true).
      rewrite IH. apply orb_true_r.
Qed.

Lemma isCsv_spec (file : File) :
  isCsv file = true <-> exists base, fileName file = base +:+ ".csv".
Proof. apply endsWith_spec. Qed.

(** A selected file is handed to the parser exactly when it is the first
    of the selection and its name ends with ".csv", in these very letters.
    The component is then parsing, with the error message cleared;
    otherwise it only sets the error message. *)
Theorem onFileUpload_accepts_csv_only (files : list File) (s : Session) :
  (forall file, snd (onFileUpload files s) = Some file <->
     head files = Some file
     /\ exists base, fileName file = base +:+ ".csv")
  /\ (snd (onFileUpload files s) = None ->
      fst (onFileUpload files s)
      = setErrorMessage (Some "Please select a valid CSV file.") s)
  /\ (snd (onFileUpload files s) <> None ->
      fst (onFileUpload files s)
      = setErrorMessage None (setIsParsing true s)).
Proof.
  unfold onFileUpload. destruct (head files) as [f|] eqn:Eh.
  - destruct (isCsv f) eqn:Ec; cbn [fst snd].
    + apply isCsv_spec in Ec. split; [|split].
      * intros file. split.
        -- intros [= <-]. split; [reflexivity | exact Ec].
        -- intros [[= ->] _]. reflexivity.
      * discriminate.
      * reflexivity.
    + split; [|split].
      * intros file. split; [discriminate|].
        intros [[= ->] Hb]. apply isCsv_spec in Hb. congruence.
      * reflexivity.
      * intros H. destruct (H eq_refl).
  - cbn [fst snd]. split; [|split].
    + intros file. split; [discriminate | intros [H _]; discriminate].
    + reflexivity.
    + intros H. destruct (H eq_refl).
Qed.

(** The extension is compared letter by letter: a name in capitals is
    refused. *)
Example upper_case_extension_refused (s : Session) :
  snd (onFileUpload [fileUpperCase] s) = None.
Proof. reflexivity. Qed.

(** A drop always ends the drag feedback and looks at the first dropped
    file only; that file is handed to the parser exactly when its name
    ends with ".csv", as by a selection of it; a drop of nothing changes
    nothing else. *)
Theorem onDrop_first_file_only (files : list File) (s : Session) :
  isDragOver (fst (onDrop files s)) = false
  /\ onDrop files s = onDrop (take 1 files) s
  /\ (forall file, snd (onDrop files s) = Some file <->
        head files = Some file
        /\ exists base, fileName file = base +:+ ".csv")
  /\ (snd (onDrop files s) <> None ->
      onDrop files s = onFileUpload files (onDragLeave s))
  /\ (files = [] -> onDrop files s = (onDragLeave s, None)).
Proof.
  unfold onDrop, onDragLeave. destruct files as [|f rest]; cbn [head take].
  - split; [reflexivity|]. split; [reflexivity|]. split; [|split].
    + intros file. split; [discriminate | intros [H _]; discriminate].
    + intros H. destruct (H eq_refl).
    + reflexivity.
  - unfold onFileUpload. cbn [head].
    destruct (isCsv f) eqn:Ec; cbn [fst snd].
    + apply isCsv_spec in Ec.
      split; [reflexivity|]. split; [reflexivity|]. split; [|split].
      * intros file. split.
        -- intros [= <-]. split; [reflexivity | exact Ec].
        -- intros [[= ->] _]. reflexivity.
      * reflexivity.
      * discriminate.
    + split; [reflexivity|]. split; [reflexivity|]. split; [|split].
      * intros file. split; [discriminate|].
        intros [[= ->] Hb]. apply isCsv_spec in Hb. congruence.
      * intros H. destruct (H eq_refl).
      * discriminate.
Qed.

Lemma handedOver_le (file : option File) (pending : nat) :
  (pending <= handedOver file pending)%nat.
Proof. destruct file; simpl; lia. Qed.

Lemma onFileUpload_parsing (files : list File) (s : Session) :
  (isParsing s = true -> isParsing (fst (onFileUpload files s)) = true)
  /\ (snd (onFileUpload files s) <> None ->
      isParsing (fst (onFileUpload files s)) = true).
Proof.
  unfold onFileUpload. destruct (head files) as [f|].
  - destruct (isCsv f); cbn [fst snd]; split;
      first [reflexivity | exact (fun H => H)
            | intros H; destruct (H eq_refl)].
  - cbn [fst snd]. split; [exact (fun H => H)|].
    intros H. destruct (H eq_refl).
Qed.

Lemma onDrop_parsing (files : list File) (s : Session) :
  (isParsing s = true -> isParsing (fst (onDrop files s)) = true)
  /\ (snd (onDrop files s) <> None ->
      isParsing (fst (onDrop files s)) = true).
Proof.
  unfold onDrop. destruct files as [|f rest].
  - cbn [fst snd]. split; [exact (fun H => H)|].
    intros H. destruct (H eq_refl).
  - destruct (isCsv f) eqn:Ec.
    + unfold onFileUpload. cbn [head]. rewrite Ec. cbn [fst snd].
      split; reflexivity.
    + cbn [fst snd]. split; [exact (fun H => H)|].
      intros H. destruct (H eq_refl).
Qed.

(** No handler but a callback of the parser ends the parsing state, and
    none takes a pending parse away. *)
Lemma fire_keeps_parsing (e : uiEvent) (s : Session) (pending : nat) :
  isCallback e = false -> isParsing s = true ->
  isParsing (fst (fire e (s, pending))) = true
  /\ (pending <= snd (fire e (s, pending)))%nat.
Proof.
  intros He Hs. destruct e as [| |files|files|r]; cbn [fire].
  - split; [exact Hs | reflexivity].
  - split; [exact Hs | reflexivity].
  - destruct (onDrop_parsing files s) as [H _].
    destruct (onDrop files s) as [s' file]. cbn [fst snd] in *.
    split; [exact (H Hs) | apply handedOver_le].
  - destruct (onFileUpload_parsing files s) as [H _].
    destruct (onFileUpload files s) as [s' file]. cbn [fst snd] in *.
    split; [exact (H Hs) | apply handedOver_le].
  - discriminate.
Qed.

Lemma fireAll_keeps_parsing (es : list uiEvent) (s : Session)
    (pending : nat) :
  List.Forall (fun e => isCallback e = false) es -> isParsing s = true ->
  isParsing (fst (fireAll es (s, pending))) = true
  /\ (pending <= snd (fireAll es (s, pending)))%nat.
Proof.
  revert s pending. induction es as [|e es IH]; intros s pending Hes Hs.
  - split; [exact Hs | reflexivity].
  - inversion Hes as [|? ? He Hes']; subst.
    destruct (fire_keeps_parsing e s pending He Hs) as [Hp Hle].
    unfold fireAll. cbn [foldl]. fold (fireAll es (fire e (s, pending))).
    destruct (fire e (s, pending)) as [s1 p1]. cbn [fst snd] in *.
    destruct (IH s1 p1 Hes' Hp) as [Hp' Hle'].
    split; [exact Hp' | lia].
Qed.

(** An event that hands a file to the parser starts the parsing state. *)
Lemma fire_handover (e : uiEvent) (s : Session) (pending : nat) :
  snd (fire e (s, pending)) = S pending ->
  isParsing (fst (fire e (s, pending))) = true.
Proof.
  destruct e as [| |files|files|r]; cbn [fire].
  - cbn [snd]. lia.
  - cbn [snd]. lia.
  - destruct (onDrop_parsing files s) as [_ H].
    destruct (onDrop files s) as [s' [file|]]; cbn [fst snd handedOver] in *.
    + intros _. apply H. discriminate.
    + lia.
  - destruct (onFileUpload_parsing files s) as [_ H].
    destruct (onFileUpload files s) as [s' [file|]];
      cbn [fst snd handedOver] in *.
    + intros _. apply H. discriminate.
    + lia.
  - destruct pending; cbn [snd]; lia.
Qed.

(** From the moment a file is handed to the parser until the next callback
    of the parser, whatever is dragged, dropped or selected in between,
    the file dialog is not opened.  The parsing state is one flag for all
    parses: the first callback that arrives, complete or error, makes the
    dialog available again although every parse but one that was pending
    is still pending. *)
Theorem file_dialog_blocked_until_first_callback (e0 : uiEvent)
    (s : Session) (pending : nat) (es : list uiEvent) (r : parseResult)
    (hasFileInput : bool) :
  snd (fire e0 (s, pending)) = S pending ->
  List.Forall (fun e => isCallback e = false) es ->
  let st := fireAll es (fire e0 (s, pending)) in
  triggerFileSelect hasFileInput (fst st) = false
  /\ (S pending <= snd st)%nat
  /\ triggerFileSelect hasFileInput (fst (fire (ParserCallback r) st))
     = hasFileInput
  /\ snd (fire (ParserCallback r) st) = Nat.pred (snd st).
Proof.
  intros H0 Hes st.
  pose proof (fire_handover e0 s pending H0) as Hp0.
  destruct (fire e0 (s, pending)) as [s0 p0] eqn:E0. cbn [fst snd] in *.
  destruct (fireAll_keeps_parsing es s0 p0 Hes Hp0) as [Hp Hle].
  fold st in Hp, Hle. destruct st as [s1 p1]. cbn [fst snd] in *.
  split; [unfold triggerFileSelect; rewrite Hp; reflexivity|].
  split; [lia|].
  destruct p1 as [|p1']; [lia|]. cbn [fire fst snd Nat.pred].
  split; [|reflexivity].
  unfold triggerFileSelect.
  destruct r as [data errors|msg]; cbn [onParseFinished]; [|reflexivity].
  unfold onParseComplete.
  destruct (List.filter nonFieldError errors); reflexivity.
Qed.

Lemma file_dialog_blocked_witness :
  let st := fireAll [DragOver; Drop [fileCsv]]
              (fire (Select [fileCsv]) (resetState, 0%nat)) in
  triggerFileSelect true (fst st) = false
  /\ triggerFileSelect true (fst (fire (ParserCallback (Failed "aborted")) st))
     = true
  /\ snd (fire (ParserCallback (Failed "aborted")) st) = 1%nat.
Proof.
  destruct (file_dialog_blocked_until_first_callback (Select [fileCsv])
              resetState 0 [DragOver; Drop [fileCsv]] (Failed "aborted") true)
    as (Hblocked & _ & Hopen & Hpending).
  - reflexivity.
  - repeat constructor.
  - cbn zeta. split; [exact Hblocked|]. split; [exact Hopen|].
    rewrite Hpending. reflexivity.
Defined.

Lemma nonFieldError_false (e : ParseError) :
  nonFieldError e = false <-> code e = "TooFewFields".
Proof.
  unfold nonFieldError. rewrite negb_false_iff. apply String.eqb_eq.
Qed.

Lemma filter_nonFieldError_nil (errors : list ParseError) :
  List.filter nonFieldError errors = [] <-> onlyFieldErrors errors.
Proof.
  unfold onlyFieldErrors. induction errors as [|e errors IH]; simpl.
  - split; [constructor | reflexivity].
  - destruct (nonFieldError e) eqn:E.
    + split; [discriminate|]. intros H. inversion H as [|? ? Hc _]; subst.
      apply nonFieldError_false in Hc. congruence.
    + apply nonFieldError_false in E. rewrite IH. split.
      * intros H. constructor; assumption.
      * intros H. inversion H; assumption.
Qed.

Lemma filter_nonFieldError_first (pre post : list ParseError)
    (e : ParseError) :
  onlyFieldErrors pre -> code e <> "TooFewFields" ->
  List.filter nonFieldError (pre ++ e :: post)%list
  = e :: List.filter nonFieldError post.
Proof.
  intros Hpre He. rewrite List.filter_app.
  apply filter_nonFieldError_nil in Hpre. rewrite Hpre. simpl.
  destruct (nonFieldError e) eqn:E; [reflexivity|].
  apply nonFieldError_false in E. congruence.
Qed.

(** Errors of the kind "TooFewFields" do not count: a parse that reports
    only such errors is handled as one that reports none.  Of the others,
    the first one reported is shown, and the data of the parse are not
    looked at. *)
Theorem parse_errors_policy (data : list RawRow) (errors : list ParseError)
    (s : Session) :
  (onlyFieldErrors errors ->
   onParseComplete data errors s = onParseComplete data [] s)
  /\ (forall pre e post,
        errors = (pre ++ e :: post)%list ->
        onlyFieldErrors pre -> code e <> "TooFewFields" ->
        onParseComplete data errors s
        = setErrorMessage (Some ("Parse errors: " +:+ message e))
            (setIsParsing false s)).
Proof.
  split.
  - intros H. apply filter_nonFieldError_nil in H.
    unfold onParseComplete. rewrite H. reflexivity.
  - intros pre e post -> Hpre He. unfold onParseComplete.
    rewrite (filter_nonFieldError_first pre post e Hpre He). reflexivity.
Qed.

(** After a parse that counts as free of errors, every kept row has a
    non-empty SKU, the mapped rows are the images of the kept rows, one
    for one and in their order, the preview is the first ten of them, and
    the two counts of the message are the same number. *)
Theorem parse_success_invariants (data : list RawRow)
    (errors : list ParseError) (s : Session) :
  onlyFieldErrors errors ->
  let s' := onParseComplete data errors s in
  Forall (fun row => exists sku, row !! "SKU" = Some sku /\ sku <> "")
    (parsedRows s')
  /\ sublist (parsedRows s') data
  /\ mappedRows s' = List.map mapRow (parsedRows s')
  /\ previewRows s' = take 10 (mappedRows s')
  /\ length (previewRows s') = Nat.min 10 (length (parsedRows s'))
  /\ successMessage s'
     = Some (Conv.natToString (length (parsedRows s'))
             +:+ " rows mapped successfully from "
             +:+ Conv.natToString (length (parsedRows s')) +:+ " parsed.")
  /\ isParsing s' = false.
Proof.
  intros H. apply filter_nonFieldError_nil in H.
  unfold onParseComplete. rewrite H. cbn zeta.
  cbn [parsedRows mappedRows previewRows successMessage isParsing
       setSuccessMessage setRows setIsParsing].
  assert (Hm : mapToCabinetProduct (List.filter hasSKU data)
               = List.map mapRow (List.filter hasSKU data)).
  { unfold mapToCabinetProduct. rewrite filter_hasSKU_idem. reflexivity. }
  rewrite Hm, length_map. repeat split.
  - apply List.Forall_forall. intros row Hin. apply hasSKU_true.
    apply List.filter_In in Hin. apply Hin.
  - apply filter_hasSKU_sublist.
  - rewrite length_take, length_map. reflexivity.
Qed.

Lemma parse_success_witness :
  let s' := onParseComplete [rowPlainSKU; rowEmptySKU] [errorShortRow]
              resetState in
  length (parsedRows s') = 1%nat /\ length (previewRows s') = 1%nat.
Proof.
  assert (H : onlyFieldErrors [errorShortRow]).
  { repeat constructor. }
  pose proof (parse_success_invariants [rowPlainSKU; rowEmptySKU]
                [errorShortRow] resetState H) as P.
  split; [reflexivity|]. destruct P as (_ & _ & _ & _ & P & _).
  rewrite P. reflexivity.
Defined.

Lemma uploadSucceeds_dec (files : list File) (r : parseResult) :
  uploadSucceeds files r \/ ~ uploadSucceeds files r.
Proof.
  unfold uploadSucceeds.
  destruct (head files) as [f|] eqn:Eh;
    [|right; intros (f & ? & ? & H & _); discriminate].
  destruct (isCsv f) eqn:Ec.
  - destruct r as [data errors|msg];
      [|right; intros (? & ? & ? & _ & _ & H & _); discriminate].
    destruct (List.filter nonFieldError errors) eqn:Ef.
    + left. exists f, data, errors. apply isCsv_spec in Ec.
      apply filter_nonFieldError_nil in Ef. auto.
    + right. intros (? & ? & ? & _ & _ & [= <- <-] & H).
      apply filter_nonFieldError_nil in H. congruence.
  - right. intros (? & ? & ? & [= <-] & H & _).
    apply isCsv_spec in H. congruence.
Qed.

(** An upload ends in one of two ways.  When the first file is a ".csv"
    file and the parser completes with no error that counts, no error
    message is left and the rows are those of the file.  In every other
    case an error message is left, and the rows and the success message of
    the upload before stay as they were. *)
Theorem upload_replaces_rows_or_reports (files : list File)
    (r : parseResult) (s : Session) :
  let s' := uploadFile files r s in
  (uploadSucceeds files r ->
   errorMessage s' = None
   /\ exists data errors,
        r = Completed data errors
        /\ parsedRows s' = List.filter hasSKU data
        /\ mappedRows s' = mapToCabinetProduct data)
  /\ (~ uploadSucceeds files r ->
      errorMessage s' <> None
      /\ parsedRows s' = parsedRows s
      /\ mappedRows s' = mappedRows s
      /\ previewRows s' = previewRows s
      /\ successMessage s' = successMessage s).
Proof.
  cbn zeta. unfold uploadFile, onFileUpload. split.
  - intros (f & data & errors & -> & Hc & -> & He).
    apply isCsv_spec in Hc. rewrite Hc. cbn [onParseFinished].
    apply filter_nonFieldError_nil in He. unfold onParseComplete.
    rewrite He. cbn zeta. split; [reflexivity|].
    exists data, errors. split; [reflexivity|]. split; [reflexivity|].
    cbn [mappedRows setSuccessMessage setRows]. unfold mapToCabinetProduct.
    rewrite filter_hasSKU_idem. reflexivity.
  - intros Hn. destruct (head files) as [f|] eqn:Eh.
    + destruct (isCsv f) eqn:Ec.
      * destruct r as [data errors|msg]; cbn [onParseFinished].
        -- unfold onParseComplete.
           destruct (List.filter nonFieldError errors) eqn:Ef.
           ++ destruct Hn. exists f, data, errors. apply isCsv_spec in Ec.
              apply filter_nonFieldError_nil in Ef.
              unfold uploadSucceeds. auto.
           ++ repeat split. discriminate.
        -- repeat split. discriminate.
      * repeat split. discriminate.
    + repeat split. discriminate.
Qed.

Lemma upload_replaces_rows_witness :
  errorMessage
    (uploadFile [fileCsv] (Completed [rowPlainSKU] [errorShortRow])
       session2) = None
  /\ mappedRows
       (uploadFile [fileCsv] (Completed [rowPlainSKU] [errorQuotes])
          session2) = mappedRows session2.
Proof.
  split.
  - apply (upload_replaces_rows_or_reports [fileCsv]
             (Completed [rowPlainSKU] [errorShortRow]) session2).
    exists fileCsv, [rowPlainSKU], [errorShortRow].
    split; [reflexivity|]. split; [exists "export"; reflexivity|].
    split; [reflexivity|]. repeat constructor.
  - apply (upload_replaces_rows_or_reports [fileCsv]
             (Completed [rowPlainSKU] [errorQuotes]) session2).
    intros (f & data & errors & _ & _ & [= <- <-] & H).
    inversion H as [|? ? Hc _]. discriminate.
Defined.

(** * Further properties of the importer *)

Section InFlight.
Context {Created : Type}.
Implicit Types tr : list (event Created).

Lemma inFlight_app (p : nat) tr1 tr2 :
  inFlight p (tr1 ++ tr2)%list
  = (inFlight p tr1 ++ inFlight (pendingAfter p tr1) tr2)%list.
Proof.
  revert p. induction tr1 as [|e tr1 IH]; intros p; [reflexivity|].
  destruct e; simpl; rewrite IH; reflexivity.
Qed.

Lemma inFlightAtTicks_app (p : nat) tr1 tr2 :
  inFlightAtTicks p (tr1 ++ tr2)%list
  = (inFlightAtTicks p tr1 ++ inFlightAtTicks (pendingAfter p tr1) tr2)%list.
Proof.
  revert p. induction tr1 as [|e tr1 IH]; intros p; [reflexivity|].
  destruct e; simpl; rewrite IH; reflexivity.
Qed.

Lemma pendingAfter_app (p : nat) tr1 tr2 :
  pendingAfter p (tr1 ++ tr2)%list = pendingAfter (pendingAfter p tr1) tr2.
Proof.
  revert p. induction tr1 as [|e tr1 IH]; intros p; [reflexivity|].
  destruct e; simpl; rewrite IH; reflexivity.
Qed.

Lemma calls_inFlight (ks : list nat) (inputs : list CabinetProduct)
    (p : nat) :
  length ks = length inputs ->
  let cs := zip_with (Call (Created:=Created)) ks inputs in
  List.Forall (fun c => (c <= p + length ks)%nat) (inFlight p cs)
  /\ pendingAfter p cs = (p + length ks)%nat
  /\ inFlightAtTicks p cs = []
  /\ ((0 < length ks)%nat -> In (p + length ks)%nat (inFlight p cs)).
Proof.
  revert inputs p.
  induction ks as [|k ks IH]; intros [|input inputs] p Hlen;
    simpl in *; try discriminate.
  - repeat split; [constructor | lia | lia].
  - destruct (IH inputs (S p) ltac:(lia)) as (Hall & Hend & Hticks & Hmax).
    split; [|split; [|split]].
    + constructor; [lia|].
      eapply List.Forall_impl; [|exact Hall]. simpl. intros c Hc. lia.
    + rewrite Hend. lia.
    + exact Hticks.
    + intros _. destruct ks as [|k' ks'].
      * left. simpl. lia.
      * right. replace (p + S (length (k' :: ks')))%nat
          with (S p + length (k' :: ks'))%nat by lia.
        apply Hmax. simpl. lia.
Qed.

Lemma settles_inFlight (f : nat -> option Created) (ks : list nat)
    (p : nat) :
  let ss := (fun k => Settle k (f k)) <$> ks in
  List.Forall (fun c => (c <= p)%nat) (inFlight p ss)
  /\ pendingAfter p ss = (p - length ks)%nat
  /\ inFlightAtTicks p ss = [].
Proof.
  revert p. induction ks as [|k ks IH]; intros p; cbn zeta.
  - simpl. repeat split; [constructor | lia].
  - destruct (IH (Nat.pred p)) as (Hall & Hend & Hticks).
    cbn zeta in Hall, Hend, Hticks.
    rewrite fmap_cons. cbn [inFlight pendingAfter inFlightAtTicks length].
    split; [|split].
    + constructor; [lia|].
      eapply List.Forall_impl; [|exact Hall]. simpl. intros c Hc. lia.
    + rewrite Hend. lia.
    + exact Hticks.
Qed.

Variable svc : nat -> CabinetProduct -> outcome Created.
Variable latency : nat -> nat.
Variable b : nat.
Variable defaults : Defaults.
Variable rows : list CabinetProduct.

Local Abbreviation segment :=
  (segment Created svc latency b defaults rows).

Lemma segment_inFlight (i : nat) :
  List.Forall (fun c => (c <= batchLen b rows i)%nat)
    (inFlight 0 (segment i))
  /\ pendingAfter 0 (segment i) = 0%nat
  /\ inFlightAtTicks 0 (segment i) = [0%nat]
  /\ ((0 < batchLen b rows i)%nat ->
      In (batchLen b rows i) (inFlight 0 (segment i))).
Proof.
  unfold Run.segment, Run.batchEvents. cbn zeta.
  set (ks := seq i (batchLen b rows i)).
  set (inputs := makeInput defaults <$> take b (drop i rows)).
  set (f := Run.resultOf Created svc defaults rows).
  assert (Hks : length ks = batchLen b rows i) by apply length_seq.
  assert (Hlen : length ks = length inputs).
  { unfold inputs. rewrite length_fmap, batch_length. exact Hks. }
  destruct (calls_inFlight ks inputs 0 Hlen) as (Hc & Hcp & Hct & Hmax).
  cbn zeta in Hc, Hcp, Hct, Hmax. rewrite Hks in Hc, Hcp, Hmax.
  destruct (settles_inFlight f (settleOrder latency ks) (batchLen b rows i))
    as (Hs & Hsp & Hst).
  cbn zeta in Hs, Hsp, Hst.
  rewrite (Permutation_length (settleOrder_perm latency ks)), Hks,
    Nat.sub_diag in Hsp.
  simpl in Hc, Hcp, Hmax.
  rewrite <- !app_assoc.
  rewrite !inFlight_app, !inFlightAtTicks_app, !pendingAfter_app.
  rewrite Hcp, Hsp, Hct, Hst. simpl.
  split; [|split; [reflexivity|split; [reflexivity|]]].
  - apply List.Forall_app. split; [exact Hc|].
    apply List.Forall_app. split; [exact Hs|].
    repeat constructor; lia.
  - intros H. apply in_app_iff. left. apply Hmax, H.
Qed.

Lemma segments_inFlight (starts : list nat) :
  List.Forall (fun c => (c <= b)%nat) (inFlight 0 (flat_map segment starts))
  /\ pendingAfter 0 (flat_map segment starts) = 0%nat
  /\ List.Forall (fun c => c = 0%nat)
       (inFlightAtTicks 0 (flat_map segment starts)).
Proof.
  induction starts as [|i starts (IHa & IHp & IHt)]; simpl.
  - repeat split; constructor.
  - destruct (segment_inFlight i) as (Ha & Hp & Ht & _).
    rewrite inFlight_app, inFlightAtTicks_app, pendingAfter_app, Hp, Ht.
    split; [|split].
    + apply List.Forall_app. split; [|exact IHa].
      eapply List.Forall_impl; [|exact Ha]. simpl. intros c Hc.
      unfold Run.batchLen in Hc. lia.
    + exact IHp.
    + constructor; [reflexivity | exact IHt].
Qed.

End InFlight.

(** The calls of a run never pile up: at no moment are more calls in
    flight than the batch size, none is in flight when the counters are
    updated or when the run ends, and the calls of a batch are all in
    flight at once: when the run is not refused, the number in flight
    reaches the size of the first batch. *)
Theorem calls_in_flight_bounded (Created : Type)
    (svc : nat -> CabinetProduct -> outcome Created) (latency : nat -> nat)
    (b : nat) (defaults : Defaults) (s : Session) :
  (0 < b)%nat ->
  exists s' tr,
    importRows Created svc latency b defaults s = Some (s', tr)
    /\ List.Forall (fun c => (c <= b)%nat) (inFlight 0 tr)
    /\ List.Forall (fun c => c = 0%nat) (inFlightAtTicks 0 tr)
    /\ pendingAfter 0 tr = 0%nat
    /\ (formInvalid defaults = false -> mappedRows s <> [] ->
        In (Nat.min b (length (mappedRows s))) (inFlight 0 tr)).
Proof.
  intros Hb.
  assert (Hrun :
    (formInvalid defaults = true \/ mappedRows s = [])
    /\ importRows Created svc latency b defaults s =
       Some (setErrorMessage
               (Some "Invalid form or no rows to import.") s, [])
    \/ importRows Created svc latency b defaults s =
       Some (finalState Created svc defaults (mappedRows s) s,
             flat_map (segment Created svc latency b defaults (mappedRows s))
               (batchStarts b 0 (batchCount b (mappedRows s))))).
  { destruct (formInvalid defaults) eqn:Hvalid.
    - left. split; [left; reflexivity|]. apply importRows_refused.
      left. exact Hvalid.
    - destruct (mappedRows s) as [|row rows] eqn:Hrows.
      + left. split; [right; reflexivity|]. apply importRows_refused.
        right. exact Hrows.
      + right. rewrite <- Hrows. apply importRows_spec; try assumption.
        * reflexivity.
        * rewrite Hrows. simpl. lia. }
  destruct Hrun as [[Hwhy Hrun]|Hrun]; rewrite Hrun; do 2 eexists;
    (split; [reflexivity|]).
  - split; [constructor|]. split; [constructor|]. split; [reflexivity|].
    intros Hvalid Hrows. destruct Hwhy; congruence.
  - destruct (segments_inFlight svc latency b defaults (mappedRows s)
                (batchStarts b 0 (batchCount b (mappedRows s))))
      as (Ha & Hp & Ht).
    split; [exact Ha|]. split; [exact Ht|]. split; [exact Hp|].
    intros _ Hrows.
    assert (Hn : (0 < length (mappedRows s))%nat)
      by (destruct (mappedRows s); [congruence | simpl; lia]).
    pose proof (batchCount_pos b (mappedRows s) Hb Hn) as Hbc.
    destruct (batchCount b (mappedRows s)) as [|m]; [lia|].
    rewrite batchStarts_S. cbn [flat_map]. rewrite inFlight_app.
    apply in_app_iff. left.
    destruct (segment_inFlight svc latency b defaults (mappedRows s)
                (0 * b)%nat) as (_ & _ & _ & Hmax).
    unfold Run.batchLen in Hmax. simpl in Hmax.
    rewrite Nat.sub_0_r in Hmax. apply Hmax. lia.
Qed.

Lemma calls_in_flight_witness :
  exists s' tr,
    importRows unit serviceFailingAt3 reverseLatency 10 defaultsTenPercent
      session25 = Some (s', tr)
    /\ List.Forall (fun c => (c <= 10)%nat) (inFlight 0 tr)
    /\ pendingAfter 0 tr = 0%nat.
Proof.
  destruct (calls_in_flight_bounded unit serviceFailingAt3 reverseLatency 10
              defaultsTenPercent session25 ltac:(lia))
    as (s' & tr & Hrun & Ha & _ & Hp & _).
  exists s', tr. auto.
Defined.

Lemma round_whole (m : Q) :
  (0 <= m)%Q -> (m <= 100)%Q ->
  exists z : Z, (0 <= z <= 100)%Z /\ round (Fin false m) = Fin false (inject_Z z).
Proof.
  intros H0 H100. unfold round, signed.
  set (z := Qfloor (m + (1 # 2))%Q).
  assert (Hlo : (0 <= z)%Z).
  { change 0%Z with (Qfloor 0%Q). apply Qfloor_resp_le. lra. }
  assert (Hhi : (z <= 100)%Z).
  { change 100%Z with (Qfloor (100 + (1 # 2))%Q). apply Qfloor_resp_le.
    lra. }
  exists z. split; [lia|].
  destruct (Z.eqb_spec z 0) as [->|Hz]; [reflexivity|].
  destruct (Z.ltb_spec z 0) as [H|H]; [lia|].
  rewrite Z.abs_eq by lia. reflexivity.
Qed.

Lemma progressAt_whole (rows : list CabinetProduct) (k : nat) :
  (k <= length rows)%nat -> (0 < length rows)%nat ->
  (Z.of_nat (length rows) < 2 ^ 32)%Z ->
  exists z : Z, (0 <= z <= 100)%Z /\ progressAt rows k = Fin false (inject_Z z).
Proof.
  intros Hk Hn Hbound. unfold progressAt.
  destruct (ratio_chain k k (length rows) (Nat.le_refl k) Hk Hn Hbound)
    as (m1 & m2 & -> & _ & H0 & Hm & H100).
  apply round_whole; lra.
Qed.

(** Every value the progress takes during a run is a whole number of
    percent between 0 and 100 (for fewer than [2 ^ 32] records). *)
Theorem progress_whole_percentage (Created : Type)
    (svc : nat -> CabinetProduct -> outcome Created) (latency : nat -> nat)
    (b : nat) (defaults : Defaults) (s : Session) :
  (0 < b)%nat ->
  Z.of_nat (length (mappedRows s)) < 2 ^ 32 ->
  exists s' tr,
    importRows Created svc latency b defaults s = Some (s', tr)
    /\ forall p, In p (progressOf tr) ->
         exists z : Z, (0 <= z <= 100)%Z /\ p = Fin false (inject_Z z).
Proof.
  intros Hb Hbound.
  destruct (importRows_total Created svc latency b defaults s Hb)
    as [Hrun|Hrun]; rewrite Hrun; do 2 eexists; (split; [reflexivity|]).
  - intros p [].
  - set (rows := mappedRows s) in *. intros p Hin.
    rewrite (progressLog_snd Created (0 * b)%nat) in Hin.
    rewrite (progressLog_from Created svc latency b defaults rows Hb)
      in Hin by lia.
    rewrite <- list_fmap_compose in Hin.
    apply list_elem_of_In, list_elem_of_fmap in Hin as (j & -> & Hj).
    apply elem_of_seq in Hj. cbn [compose snd].
    assert (Hn : (0 < length rows)%nat).
    { destruct (Nat.eq_dec (length rows) 0%nat) as [H0|H0]; [|lia].
      unfold batchCount in Hj. rewrite H0 in Hj.
      rewrite Nat.div_small in Hj by lia. lia. }
    apply progressAt_whole; [lia | exact Hn | exact Hbound].
Qed.

Lemma progress_whole_percentage_witness :
  exists s' tr,
    importRows unit serviceFailingAt3 reverseLatency 10 defaultsTenPercent
      session25 = Some (s', tr)
    /\ forall p, In p (progressOf tr) ->
         exists z : Z, (0 <= z <= 100)%Z /\ p = Fin false (inject_Z z).
Proof.
  apply (progress_whole_percentage unit serviceFailingAt3 reverseLatency 10
           defaultsTenPercent session25).
  - lia.
  - vm_compute. reflexivity.
Defined.

Section CallsOf.
Context {Created : Type}.
Implicit Types tr : list (event Created).

Lemma callsOf_app tr1 tr2 :
  callsOf (tr1 ++ tr2)%list = (callsOf tr1 ++ callsOf tr2)%list.
Proof.
  induction tr1 as [|e tr1 IH]; [reflexivity|].
  destruct e; simpl; rewrite IH; reflexivity.
Qed.

Lemma callsOf_calls (ks : list nat) (inputs : list CabinetProduct) :
  callsOf (zip_with (Call (Created:=Created)) ks inputs) = zip ks inputs.
Proof.
  revert inputs. induction ks as [|k ks IH]; intros [|input inputs];
    simpl; try reflexivity.
  rewrite IH. reflexivity.
Qed.

Lemma callsOf_settles (f : nat -> option Created) (ks : list nat) :
  callsOf ((fun k => Settle k (f k)) <$> ks) = [].
Proof. induction ks as [|k ks IH]; [reflexivity | exact IH]. Qed.

(** The calls of a batch and their inputs are settled by the rows and the
    form alone. *)
Lemma callsOf_segment (svc : nat -> CabinetProduct -> outcome Created)
    (latency : nat -> nat) (b : nat) (defaults : Defaults)
    (rows : list CabinetProduct) (i : nat) :
  callsOf (segment Created svc latency b defaults rows i)
  = zip (seq i (batchLen b rows i))
        (makeInput defaults <$> take b (drop i rows)).
Proof.
  unfold Run.segment, Run.batchEvents.
  rewrite !callsOf_app, callsOf_calls, callsOf_settles. simpl.
  rewrite !app_nil_r. reflexivity.
Qed.

Lemma callsOf_segments (svc svc' : nat -> CabinetProduct -> outcome Created)
    (latency latency' : nat -> nat) (b : nat) (defaults : Defaults)
    (rows : list CabinetProduct) (starts : list nat) :
  callsOf (flat_map (segment Created svc latency b defaults rows) starts)
  = callsOf (flat_map (segment Created svc' latency' b defaults rows) starts).
Proof.
  induction starts as [|i starts IH]; [reflexivity|].
  cbn [flat_map]. rewrite !callsOf_app, IH, !callsOf_segment. reflexivity.
Qed.

End CallsOf.

(** A run starts over.  It leaves the rows of the session in place and
    sets the counters and messages anew, so a second run, whatever the
    service answered in the first run and answers in the second, makes
    the call of every row again with the same input, and ends as a first
    run with the answers of the second would: nothing of the first run is
    carried over, and the count is that of the second run alone. *)
Theorem run_starts_over (Created : Type)
    (svc svc' : nat -> CabinetProduct -> outcome Created)
    (latency latency' : nat -> nat)
    (b : nat) (defaults : Defaults) (s : Session) :
  (0 < b)%nat -> formInvalid defaults = false -> mappedRows s <> [] ->
  exists s1 tr1 s2 tr2,
    importRows Created svc latency b defaults s = Some (s1, tr1)
    /\ importRows Created svc' latency' b defaults s1 = Some (s2, tr2)
    /\ mappedRows s1 = mappedRows s
    /\ parsedRows s1 = parsedRows s
    /\ previewRows s1 = previewRows s
    /\ callsOf tr2 = callsOf tr1
    /\ callRows tr2 = seq 0 (length (mappedRows s))
    /\ importRows Created svc' latency' b defaults s1
       = importRows Created svc' latency' b defaults s
    /\ importedCount s2
       = importedUpTo Created svc' defaults (mappedRows s)
           (length (mappedRows s)).
Proof.
  intros Hb Hvalid Hrows.
  set (rows := mappedRows s) in *.
  assert (Hn : (0 < length rows)%nat)
    by (destruct rows; [congruence | simpl; lia]).
  set (s1 := finalState Created svc defaults rows s).
  assert (Hkeep : mappedRows s1 = rows).
  { unfold s1, finalState.
    destruct (importedUpTo Created svc defaults rows (length rows)
              =? length rows)%nat; reflexivity. }
  assert (Hsame : finalState Created svc' defaults rows s1
                  = finalState Created svc' defaults rows s).
  { unfold s1, finalState.
    destruct (importedUpTo Created svc defaults rows (length rows)
              =? length rows)%nat;
      destruct (importedUpTo Created svc' defaults rows (length rows)
                =? length rows)%nat; reflexivity. }
  assert (Hrun1 := importRows_spec Created svc latency b defaults rows Hb s
                     Hvalid eq_refl Hn).
  assert (Hrun2 := importRows_spec Created svc' latency' b defaults rows Hb
                     s1 Hvalid Hkeep Hn).
  assert (Hrun3 := importRows_spec Created svc' latency' b defaults rows Hb
                     s Hvalid eq_refl Hn).
  exists s1, (flat_map (segment Created svc latency b defaults rows)
                (batchStarts b 0 (batchCount b rows))),
         (finalState Created svc' defaults rows s1),
         (flat_map (segment Created svc' latency' b defaults rows)
            (batchStarts b 0 (batchCount b rows))).
  split; [exact Hrun1|]. split; [exact Hrun2|]. split; [exact Hkeep|].
  split.
  { unfold s1, finalState.
    destruct (importedUpTo Created svc defaults rows (length rows)
              =? length rows)%nat; reflexivity. }
  split.
  { unfold s1, finalState.
    destruct (importedUpTo Created svc defaults rows (length rows)
              =? length rows)%nat; reflexivity. }
  split; [apply callsOf_segments|]. split.
  { rewrite (calls_from Created svc' latency' b defaults rows Hb
               (batchCount b rows) 0) by reflexivity.
    simpl. rewrite Nat.sub_0_r. reflexivity. }
  split; [rewrite Hrun2, Hrun3, Hsame; reflexivity|].
  unfold finalState.
  destruct (importedUpTo Created svc' defaults rows (length rows)
            =? length rows)%nat; reflexivity.
Qed.

Lemma run_starts_over_witness :
  exists s1 tr1 s2 tr2,
    importRows unit serviceFailingAt3 reverseLatency 10 defaultsTenPercent
      session25 = Some (s1, tr1)
    /\ importRows unit (fun _ _ => Rejected) (fun k => k) 10
         defaultsTenPercent s1 = Some (s2, tr2)
    /\ callsOf tr2 = callsOf tr1
    /\ importedCount s2 = 0%nat.
Proof.
  destruct (run_starts_over unit serviceFailingAt3 (fun _ _ => Rejected)
              reverseLatency (fun k => k) 10 defaultsTenPercent session25)
    as (s1 & tr1 & s2 & tr2 & H1 & H2 & _ & _ & _ & Hcalls & _ & _ & Hcount).
  - lia.
  - reflexivity.
  - vm_compute. discriminate.
  - exists s1, tr1, s2, tr2. split; [exact H1|]. split; [exact H2|].
    split; [exact Hcalls|]. rewrite Hcount. vm_compute. reflexivity.
Defined.

(** From the file to the service: after an upload that goes through, an
    import with a valid form calls the create-operation once for each row
    of the file that has a non-empty SKU, in the order of the file, with
    the input built from the mapping of that row; a file without such a
    row makes the import refuse to run. *)
Theorem upload_then_import (Created : Type)
    (svc : nat -> CabinetProduct -> outcome Created) (latency : nat -> nat)
    (defaults : Defaults) (files : list File) (data : list RawRow)
    (errors : list ParseError) (s : Session) :
  uploadSucceeds files (Completed data errors) ->
  formInvalid defaults = false ->
  let s1 := uploadFile files (Completed data errors) s in
  let kept := List.filter hasSKU data in
  exists s2 tr,
    onImportRows Created svc latency defaults s1 = Some (s2, tr)
    /\ callRows tr = seq 0 (length kept)
    /\ (forall k input, In (Call k input) tr ->
          exists row, kept !! k = Some row
                      /\ input = makeInput defaults (mapRow row))
    /\ (kept = [] ->
        tr = []
        /\ errorMessage s2 = Some "Invalid form or no rows to import.").
Proof.
  intros Hup Hvalid s1 kept.
  assert (Hrows : mappedRows s1 = List.map mapRow kept).
  { unfold s1, uploadFile, onFileUpload.
    destruct Hup as (f & data' & errors' & -> & Hc & [= <- <-] & He).
    apply isCsv_spec in Hc. rewrite Hc. cbn [onParseFinished].
    apply filter_nonFieldError_nil in He. unfold onParseComplete.
    rewrite He. cbn zeta. cbn [mappedRows setSuccessMessage setRows].
    unfold mapToCabinetProduct. rewrite filter_hasSKU_idem. reflexivity. }
  unfold onImportRows.
  destruct kept as [|row0 kept'] eqn:Ek.
  - rewrite (importRows_refused Created svc latency 10 defaults s1)
      by (right; exact Hrows).
    do 2 eexists. split; [reflexivity|]. split; [reflexivity|].
    split; [intros k input []|]. intros _. split; reflexivity.
  - assert (H10 : (0 < 10)%nat) by lia.
    assert (Hn : (0 < length (mappedRows s1))%nat)
      by (rewrite Hrows; simpl; lia).
    rewrite (importRows_spec Created svc latency 10 defaults (mappedRows s1)
               H10 s1 Hvalid eq_refl Hn).
    do 2 eexists. split; [reflexivity|]. split; [|split].
    + rewrite (calls_from Created svc latency 10 defaults (mappedRows s1)
                 H10 (batchCount 10 (mappedRows s1)) 0) by reflexivity.
      rewrite Hrows, length_map. simpl. reflexivity.
    + intros k input Hin.
      apply (call_inputs Created svc latency 10 defaults (mappedRows s1))
        in Hin as (r & Hr & ->).
      rewrite Hrows in Hr.
      change (List.map mapRow (row0 :: kept'))
        with (mapRow <$> (row0 :: kept')) in Hr.
      rewrite list_lookup_fmap in Hr.
      destruct ((row0 :: kept') !! k) as [row|]; [|discriminate].
      injection Hr as <-. exists row. split; reflexivity.
    + discriminate.
Qed.

Lemma upload_then_import_witness :
  exists s2 tr,
    onImportRows unit serviceFailingAt3 reverseLatency defaultsTenPercent
      (uploadFile [fileCsv]
         (Completed [rowPlainSKU; rowEmptySKU; rowPrefixedSKU] [])
         resetState) = Some (s2, tr)
    /\ callRows tr = [0%nat; 1%nat].
Proof.
  destruct (upload_then_import unit serviceFailingAt3 reverseLatency
              defaultsTenPercent [fileCsv]
              [rowPlainSKU; rowEmptySKU; rowPrefixedSKU] [] resetState)
    as (s2 & tr & Hrun & Hcalls & _).
  - exists fileCsv, [rowPlainSKU; rowEmptySKU; rowPrefixedSKU], [].
    split; [reflexivity|]. split; [exists "export"; reflexivity|].
    split; [reflexivity | constructor].
  - reflexivity.
  - exists s2, tr. split; [exact Hrun | exact Hcalls].
Defined.

(** * The cells that the mapper reads *)

Lemma orElse_cell (row : RawRow) (column d : string) :
  Str.orElse (row !! column) d = Str.orElse (Some (cell row column)) d.
Proof.
  unfold cell. destruct (row !! column) as [[|c t]|]; reflexivity.
Qed.

Lemma orElseOpt_cell (row : RawRow) (column1 column2 d : string) :
  Str.orElse (Str.orElseOpt (row !! column1) (row !! column2)) d
  = Str.orElse
      (Some (Str.orElse (Some (cell row column1)) (cell row column2))) d.
Proof.
  unfold cell.
  destruct (row !! column1) as [[|c t]|];
    destruct (row !! column2) as [[|c' t']|]; reflexivity.
Qed.

Lemma images_cell (row : RawRow) (f : string -> string) :
  match row !! "Images" with
  | Some images => if Str.truthy images then f images else ""
  | None => ""
  end
  = if Str.truthy (cell row "Images") then f (cell row "Images") else "".
Proof.
  unfold cell. destruct (row !! "Images") as [[|c t]|]; reflexivity.
Qed.

Lemma published_cell (row : RawRow) :
  bool_decide (row !! "Published" = Some "1")
  = String.eqb (cell row "Published") "1".
Proof.
  unfold cell. destruct (row !! "Published") as [v|] eqn:E.
  - destruct v as [|c t]; [reflexivity|].
    change (Str.orElse (Some (String c t)) "") with (String c t).
    destruct (String.eqb_spec (String c t) "1") as [Heq|Hne].
    + rewrite Heq. reflexivity.
    + apply bool_decide_eq_false. congruence.
  - reflexivity.
Qed.

Lemma hasSKU_cell (row : RawRow) :
  hasSKU row = Str.truthy (cell row "SKU").
Proof.
  unfold hasSKU, cell. destruct (row !! "SKU") as [[|c t]|]; reflexivity.
Qed.

(** The mapper reads twelve columns of a row and nothing else, and of a
    cell only its text, a missing cell counting as an empty one: two rows
    that agree on these are kept or dropped together and map to the same
    record. *)
Theorem mapper_reads_cells (row1 row2 : RawRow) :
  (forall column, In column columns -> cell row1 column = cell row2 column) ->
  hasSKU row1 = hasSKU row2 /\ mapRow row1 = mapRow row2.
Proof.
  intros H.
  assert (Hsku := H "SKU" ltac:(simpl; tauto)).
  assert (Hname := H "Name" ltac:(simpl; tauto)).
  assert (Hdesc := H "Short description" ltac:(simpl; tauto)).
  assert (Htags := H "Tags" ltac:(simpl; tauto)).
  assert (Hreg := H "Regular price" ltac:(simpl; tauto)).
  assert (Hsale := H "Sale price" ltac:(simpl; tauto)).
  assert (Hweight := H "Weight (lbs)" ltac:(simpl; tauto)).
  assert (Himg := H "Images" ltac:(simpl; tauto)).
  assert (Hfee := H "Meta: assembly_fee" ltac:(simpl; tauto)).
  assert (Hcost := H "Meta: assembly_cost" ltac:(simpl; tauto)).
  assert (Hcat := H "Categories" ltac:(simpl; tauto)).
  assert (Hpub := H "Published" ltac:(simpl; tauto)).
  split.
  - rewrite !hasSKU_cell, Hsku. reflexivity.
  - unfold mapRow, titleDoorStyle, tagDoorStyle, doorCount, extractMeta.
    cbv zeta.
    change ("Meta: " +:+ "assembly_fee") with "Meta: assembly_fee".
    change ("Meta: " +:+ "assembly_cost") with "Meta: assembly_cost".
    rewrite !(images_cell row1), !(images_cell row2).
    rewrite !(published_cell row1), !(published_cell row2).
    rewrite !(orElseOpt_cell row1), !(orElseOpt_cell row2).
    rewrite !(orElse_cell row1), !(orElse_cell row2).
    rewrite Hsku, Hname, Hdesc, Htags, Hreg, Hsale, Hweight, Himg, Hfee,
      Hcost, Hcat, Hpub.
    reflexivity.
Qed.

Lemma mapper_reads_cells_witness :
  mapRow (<["Stock" := "12"]> (<["Tags" := ""]> rowPlainSKU))
  = mapRow (delete "Tags" rowPlainSKU).
Proof.
  apply (mapper_reads_cells
           (<["Stock" := "12"]> (<["Tags" := ""]> rowPlainSKU))
           (delete "Tags" rowPlainSKU)).
  intros column Hin. simpl in Hin.
  repeat (destruct Hin as [<-|Hin]; [vm_compute; reflexivity|]).
  destruct Hin.
Defined.

(** * The discounted price *)

Section DiscountPrice.
Local Open Scope Q_scope.

Lemma round64_unit (x : Q) :
  0 <= x -> x <= 1 ->
  exists y, round64 false x = Fin false y /\ 0 <= y /\ y <= 1.
Proof.
  intros H0 H1.
  destruct (round64_fin_le x x 1 1 H0 (Qle_refl x) H1 round64_one)
    as (y & y' & Ey & _ & Hy0 & Hyy & Hy1).
  exists y. split; [exact Ey|]. split; [exact Hy0 | lra].
Qed.

(** The factor [1 - d / 100] of a discount between 0 and 100. *)
Lemma discount_factor (dq : Q) :
  0 <= dq -> dq <= 100 ->
  exists y,
    sub one (div (Fin false dq) (ofNat 100)) = Fin false y
    /\ 0 <= y /\ y <= 1
    /\ (dq == 0 -> y = 1)
    /\ (dq == 100 -> y = 0).
Proof.
  intros H0 H100. rewrite ofNat_100. unfold div.
  change (Qeq_bool 100 0) with false. cbn [xorb].
  assert (Hx0 : 0 <= dq / 100) by (apply Qle_shift_div_l; lra).
  assert (Hx1 : dq / 100 <= 1) by (apply Qle_shift_div_r; lra).
  destruct (round64_unit (dq / 100) Hx0 Hx1) as (x & Ex & Hx & Hx').
  rewrite Ex. unfold sub, one, neg, add. cbn [negb signed andb].
  destruct (Qeq_bool (1 + - x) 0) eqn:Er.
  - apply Qeq_bool_eq in Er. exists 0.
    split; [reflexivity|]. split; [lra|]. split; [lra|].
    split; [|reflexivity].
    intros Hd. rewrite (round64_Qeq false (dq / 100) 0) in Ex
      by (rewrite Hd; reflexivity).
    injection Ex as <-. lra.
  - apply Qeq_bool_neq in Er.
    destruct (Qlt_le_dec (1 + - x) 0) as [Hneg|Hpos]; [lra|].
    rewrite (round64_Qeq false (Qabs (1 + - x)) (1 + - x))
      by (apply Qabs_pos; exact Hpos).
    destruct (round64_unit (1 + - x) Hpos ltac:(lra)) as (y & Ey & Hy & Hy').
    exists y. split; [exact Ey|]. split; [exact Hy|]. split; [exact Hy'|].
    split.
    + intros Hd. rewrite (round64_Qeq false (dq / 100) 0) in Ex
        by (rewrite Hd; reflexivity).
      injection Ex as <-.
      rewrite (round64_Qeq false (1 + - 0) 1) in Ey by reflexivity.
      rewrite round64_one in Ey. injection Ey as <-. reflexivity.
    + intros Hd. rewrite (round64_Qeq false (dq / 100) 1) in Ex
        by (rewrite Hd; reflexivity).
      rewrite round64_one in Ex. injection Ex as <-.
      destruct Er. reflexivity.
Qed.

(** With a discount between 0 and 100 and a price that is a non-negative
    binary64 value, the discounted price lies between 0 and the price. *)
Lemma discountPrice_bounds (defaults : Defaults)
    (row : CabinetProduct) (dq p : Q) :
  defaultDiscount defaults = Some (Fin false dq) ->
  0 <= dq -> dq <= 100 ->
  retailPrice row = Fin false p ->
  0 <= p -> round64 false p = Fin false p ->
  exists q,
    discountPrice (makeInput defaults row) = Fin false q
    /\ 0 <= q /\ q <= p
    /\ (dq == 0 -> q == p)
    /\ (dq == 100 -> q == 0).
Proof.
  intros Hd H0 H100 Hprice Hp Hrep.
  cbn [discountPrice makeInput]. rewrite Hd, Hprice. cbn [toNumber].
  destruct (discount_factor dq H0 H100) as (y & -> & Hy0 & Hy1 & Hz & Hf).
  assert (Hor : exists p', orElse (Fin false p) zero = Fin false p'
                           /\ p' == p /\ round64 false p' = Fin false p').
  { unfold orElse, truthy, isNaN, isZero. cbn [orb negb].
    destruct (Qeq_bool p 0) eqn:E.
    - apply Qeq_bool_eq in E. exists 0.
      split; [reflexivity|]. split; [symmetry; exact E | reflexivity].
    - exists p. split; [reflexivity|]. split; [reflexivity | exact Hrep]. }
  destruct Hor as (p' & -> & Hpp & Hrep').
  unfold mul. cbn [xorb].
  assert (Hp' : 0 <= p') by lra.
  assert (Hlo : 0 <= p' * y) by (apply Qmult_le_0_compat; assumption).
  assert (Hhi : p' * y <= p') by nra.
  destruct (round64_fin_le (p' * y) (p' * y) p' p' Hlo (Qle_refl _) Hhi Hrep')
    as (q & q' & Eq & _ & Hq0 & Hqq & Hq').
  exists q. split; [exact Eq|]. split; [exact Hq0|]. split; [lra|]. split.
  - intros Hdz. rewrite (Hz Hdz) in Eq.
    rewrite (round64_Qeq false (p' * 1) p') in Eq by ring.
    rewrite Hrep' in Eq. injection Eq as <-. exact Hpp.
  - intros Hdf. rewrite (Hf Hdf) in Eq.
    rewrite (round64_Qeq false (p' * 0) 0) in Eq by ring.
    injection Eq as <-. reflexivity.
Qed.

End DiscountPrice.

(** * The numbers of a mapped record are binary64 values *)

Section Binary64.
Local Open Scope Q_scope.

Lemma ilog2_unique (x : Q) (k : Z) :
  0 < x -> 2 ^ k <= x -> x < 2 ^ (k + 1) -> ilog2 x = k.
Proof.
  intros Hx Hlo Hhi. destruct (ilog2_spec x Hx) as [Hl Hh].
  assert (H1 : (k < ilog2 x + 1)%Z) by (apply pow2_lt_inv; lra).
  assert (H2 : (ilog2 x < k + 1)%Z) by (apply pow2_lt_inv; lra).
  lia.
Qed.

Lemma roundHalfEven_whole (x : Q) (z : Z) :
  x == inject_Z z -> roundHalfEven x = z.
Proof.
  intros H.
  pose proof (roundHalfEven_le_Z x z ltac:(lra)).
  pose proof (roundHalfEven_ge_Z x z ltac:(lra)).
  lia.
Qed.

Lemma roundMag_Qeq (p q : Q) : 0 < p -> p == q -> roundMag p == roundMag q.
Proof.
  intros Hp Hpq.
  pose proof (roundMag_mono p q Hp ltac:(lra)).
  pose proof (roundMag_mono q p ltac:(lra) ltac:(lra)).
  lra.
Qed.

(** A multiple of a power of two at or above the last place is its own
    rounding. *)
Lemma roundMag_grid (r : Q) (m e0 : Z) :
  0 < r -> r == inject_Z m * 2 ^ e0 -> (ulpExp r <= e0)%Z ->
  roundMag r == r.
Proof.
  intros Hr Hm He. unfold roundMag. set (e := ulpExp r) in *.
  pose proof (pow2_pos e) as Hpos.
  assert (Hsplit : 2 ^ e0 == inject_Z (2 ^ (e0 - e)) * 2 ^ e).
  { rewrite <- pow2_Z by lia. rewrite <- pow2_add.
    replace (e0 - e + e)%Z with e0 by lia. reflexivity. }
  assert (Hq : r / 2 ^ e == inject_Z (m * 2 ^ (e0 - e))).
  { rewrite inject_Z_mult, Hm, Hsplit. field. lra. }
  rewrite (roundHalfEven_whole _ _ Hq).
  rewrite inject_Z_mult, Hm, Hsplit. ring.
Qed.

Lemma roundMag_idem (q : Q) :
  0 < q -> 0 < roundMag q -> roundMag (roundMag q) == roundMag q.
Proof.
  intros Hq Hr.
  set (e := ulpExp q). set (m := roundHalfEven (q / 2 ^ e)).
  assert (Er : roundMag q == inject_Z m * 2 ^ e) by reflexivity.
  pose proof (pow2_pos e) as Hpos.
  destruct (ilog2_spec q Hq) as [_ Hhi].
  assert (He : (ilog2 q - 52 <= e)%Z /\ (-1074 <= e)%Z)
    by (unfold e, ulpExp; lia).
  assert (Hm : (m <= 2 ^ 53)%Z).
  { apply roundHalfEven_le_Z. apply Qle_shift_div_r; [exact Hpos|].
    rewrite <- pow2_Z by lia. rewrite <- pow2_add.
    assert (H : 2 ^ (ilog2 q + 1) <= 2 ^ (53 + e)) by (apply pow2_le; lia).
    lra. }
  assert (Hgrid : 2 ^ (53 + e) == inject_Z (2 ^ 53) * 2 ^ e).
  { rewrite pow2_add. rewrite <- pow2_Z by lia. reflexivity. }
  destruct (Z.eq_dec m (2 ^ 53)%Z) as [Hmax|Hlt].
  - assert (Hval : roundMag q == 2 ^ (53 + e))
      by (rewrite Er, Hmax, Hgrid; reflexivity).
    assert (Hlog : ilog2 (roundMag q) = (53 + e)%Z).
    { apply ilog2_unique; [exact Hr | lra |].
      rewrite Hval. rewrite (pow2_succ (53 + e)).
      pose proof (pow2_pos (53 + e)). lra. }
    apply (roundMag_grid (roundMag q) (2 ^ 52)%Z (e + 1)%Z); [exact Hr | |].
    + rewrite Hval. rewrite (pow2_add 53 e), (pow2_succ e).
      rewrite <- (pow2_Z 52) by lia.
      change (2 ^ 53) with (2 * 2 ^ 52). ring.
    + unfold ulpExp. rewrite Hlog. lia.
  - apply (roundMag_grid (roundMag q) m e); [exact Hr | exact Er |].
    assert (Hbelow : roundMag q < 2 ^ (53 + e)).
    { rewrite Er, Hgrid. apply Qmult_lt_compat_r; [exact Hpos|].
      rewrite <- Zlt_Qlt. lia. }
    destruct (ilog2_spec (roundMag q) Hr) as [Hlo _].
    assert (H : (ilog2 (roundMag q) < 53 + e)%Z)
      by (apply pow2_lt_inv; lra).
    unfold ulpExp. lia.
Qed.

(** What [round64] returns is a binary64 value: rounding it again gives
    it back. *)
Lemma round64_idem (s s' : bool) (q p : Q) :
  0 <= q -> round64 s q = Fin s' p ->
  0 <= p /\ round64 s' p = Fin s' p.
Proof.
  intros Hq H. unfold round64 in H.
  destruct (Qeq_bool (Qred q) 0) eqn:E0.
  - injection H as <- <-. split; [lra | reflexivity].
  - apply Qeq_bool_neq in E0. rewrite Qred_correct in E0.
    assert (Hpos : 0 < Qred q) by (rewrite Qred_correct; lra).
    set (r := roundMag (Qred q)) in *.
    destruct (Qle_bool (2 ^ 1024) r) eqn:Eo; [discriminate|].
    injection H as <- <-.
    pose proof (roundMag_nonneg (Qred q) Hpos) as Hnn. fold r in Hnn.
    split; [rewrite Qred_correct; exact Hnn|].
    destruct (Qeq_dec r 0) as [Hz|Hnz].
    + rewrite (Qred_complete r 0 Hz). reflexivity.
    + assert (Hr : 0 < r) by lra.
      assert (Hrr : 0 < Qred r) by (rewrite Qred_correct; exact Hr).
      rewrite (round64_pos s (Qred r) Hrr).
      assert (Hsame : roundMag (Qred (Qred r)) == r).
      { rewrite (roundMag_Qeq (Qred (Qred r)) r).
        - apply roundMag_idem; assumption.
        - rewrite !Qred_correct. exact Hr.
        - rewrite !Qred_correct. reflexivity. }
      destruct (Qle_bool (2 ^ 1024) (roundMag (Qred (Qred r)))) eqn:Eo'.
      * apply Qle_bool_iff in Eo'. rewrite Hsame in Eo'.
        apply Qle_bool_iff in Eo'. congruence.
      * rewrite (Qred_complete _ _ Hsame). reflexivity.
Qed.

End Binary64.

Lemma digitVal_digit (c : ascii) : Str.isDigit c = true -> 0 <= Conv.digitVal c.
Proof.
  intros H. unfold Conv.digitVal. rewrite H. unfold Str.isDigit in H.
  apply andb_true_iff in H as [H _]. apply N.leb_le in H. lia.
Qed.

Lemma digitsValue_nonneg (ds : string) (acc : Z) :
  allChars Str.isDigit ds = true -> 0 <= acc ->
  0 <= Conv.digitsValue 10 acc ds.
Proof.
  revert acc. induction ds as [|c ds IH]; intros acc Hall Hacc; simpl.
  - exact Hacc.
  - simpl in Hall. apply andb_true_iff in Hall as [Hc Hall].
    apply IH; [exact Hall|]. pose proof (digitVal_digit c Hc). lia.
Qed.

Lemma span_allChars (p : ascii -> bool) (s : string) :
  allChars p (fst (Conv.span p s)) = true.
Proof.
  induction s as [|c s IH]; simpl; [reflexivity|].
  destruct (p c) eqn:E; [|reflexivity].
  destruct (Conv.span p s) as [a b]. simpl in *. rewrite E, IH. reflexivity.
Qed.

Lemma allChars_app (p : ascii -> bool) (s t : string) :
  allChars p (s +:+ t) = allChars p s && allChars p t.
Proof.
  induction s as [|c s IH]; simpl; [reflexivity|].
  rewrite IH. apply andb_assoc.
Qed.

Lemma decimal_binary64 (neg s : bool) (m e : Z) (p : Q) :
  0 <= m -> Conv.decimal neg m e = Fin s p ->
  (0 <= p)%Q /\ round64 s p = Fin s p.
Proof.
  intros Hm H. unfold Conv.decimal in H.
  apply (round64_idem neg s (inject_Z m * 10 ^ e)%Q p); [|exact H].
  apply Qmult_le_0_compat.
  - change 0%Q with (inject_Z 0). rewrite <- Zle_Qle. exact Hm.
  - apply Qlt_le_weak, Qpower_0_lt. reflexivity.
Qed.

(** A finite number that [parseFloat] returns is a binary64 value. *)
Lemma parseFloat_binary64 (str : string) (s : bool) (p : Q) :
  Conv.parseFloat str = Fin s p -> (0 <= p)%Q /\ round64 s p = Fin s p.
Proof.
  unfold Conv.parseFloat.
  destruct (Conv.parseSign (Str.trimStart str)) as [neg s0].
  destruct (String.prefix "Infinity" s0); [discriminate|].
  pose proof (span_allChars Str.isDigit s0) as Hip.
  destruct (Conv.span Str.isDigit s0) as [ip r1]. cbn [fst] in Hip.
  assert (Hint : (if Str.truthy ip
                  then Conv.decimal neg (Conv.digitsValue 10 0 ip)
                         (Conv.parseExponent r1)
                  else NaN) = Fin s p ->
                 (0 <= p)%Q /\ round64 s p = Fin s p).
  { destruct (Str.truthy ip); [|discriminate].
    apply decimal_binary64, digitsValue_nonneg; [exact Hip | lia]. }
  destruct r1 as [|c r2]; [exact Hint|].
  destruct (Ascii.eqb_spec c ".") as [->|Hne].
  - pose proof (span_allChars Str.isDigit r2) as Hfp.
    destruct (Conv.span Str.isDigit r2) as [fp r3]. cbn [fst] in Hfp.
    destruct (Str.truthy ip || Str.truthy fp); [|discriminate].
    apply decimal_binary64, digitsValue_nonneg; [|lia].
    rewrite allChars_app, Hip, Hfp. reflexivity.
  - destruct c as [[] [] [] [] [] [] [] []]; try exact Hint.
    destruct Hne. reflexivity.
Qed.

Lemma orElse_zero_binary64 (x : number) (p : Q) :
  (forall s q, x = Fin s q -> (0 <= q)%Q /\ round64 s q = Fin s q) ->
  orElse x zero = Fin false p ->
  (0 <= p)%Q /\ round64 false p = Fin false p.
Proof.
  intros Hx. unfold orElse. destruct (truthy x).
  - apply Hx.
  - intros [= <-]. split; [apply Qle_refl | reflexivity].
Qed.

(** For a row of the file whose price is a number [p >= 0] and a discount
    between 0 and 100, the discounted price handed to the service lies
    between 0 and [p]: the rounding of the three operations never pushes
    it outside; a discount of 0 leaves the price and a discount of 100
    gives 0.  A price cell beyond the range of binary64 reads as
    [Infinity]: the discounted price is then [Infinity] or [NaN], and it
    is [NaN] at a discount of 100. *)
Theorem discountPrice_within_price (defaults : Defaults) (row : RawRow)
    (dq : Q) :
  defaultDiscount defaults = Some (Fin false dq) ->
  (0 <= dq)%Q -> (dq <= 100)%Q ->
  (forall p, retailPrice (mapRow row) = Fin false p ->
     exists q,
       discountPrice (makeInput defaults (mapRow row)) = Fin false q
       /\ (0 <= q)%Q /\ (q <= p)%Q
       /\ (dq == 0 -> q == p)%Q
       /\ (dq == 100 -> q == 0)%Q)
  /\ (retailPrice (mapRow row) = Inf false ->
      (discountPrice (makeInput defaults (mapRow row)) = Inf false
       \/ discountPrice (makeInput defaults (mapRow row)) = NaN)
      /\ ((dq == 0)%Q ->
          discountPrice (makeInput defaults (mapRow row)) = Inf false)
      /\ ((dq == 100)%Q ->
          discountPrice (makeInput defaults (mapRow row)) = NaN)).
Proof.
  intros Hd H0 H100. split.
  - intros p Hprice.
    assert (Hrep : (0 <= p)%Q /\ round64 false p = Fin false p).
    { cbn [retailPrice mapRow] in Hprice.
      apply (orElse_zero_binary64 _ p (fun s q => parseFloat_binary64 _ s q)
               Hprice). }
    destruct Hrep as [Hp Hrep].
    apply (discountPrice_bounds defaults (mapRow row) dq p); assumption.
  - intros Hprice.
    destruct (discount_factor dq H0 H100) as (y & Hy & _ & _ & Hz & Hf).
    assert (Hdp : discountPrice (makeInput defaults (mapRow row))
                  = if Qeq_bool y 0 then NaN else Inf false).
    { cbn [discountPrice makeInput]. rewrite Hd, Hprice. cbn [toNumber].
      rewrite Hy. reflexivity. }
    rewrite Hdp. split; [|split].
    + destruct (Qeq_bool y 0); [right | left]; reflexivity.
    + intros Hdz. rewrite (Hz Hdz). reflexivity.
    + intros Hdf. rewrite (Hf Hdf). reflexivity.
Qed.

Lemma discountPrice_within_price_witness :
  (exists q : Q,
     discountPrice (makeInput defaultsTenPercent (mapRow rowPriced))
     = Fin false q
     /\ (0 <= q)%Q /\ (q <= 200)%Q)
  /\ discountPrice (makeInput defaultsFullDiscount (mapRow rowInfinitePrice))
     = NaN.
Proof.
  split.
  - destruct (discountPrice_within_price defaultsTenPercent rowPriced 10)
      as [Hfin _].
    + reflexivity.
    + vm_compute. discriminate.
    + vm_compute. discriminate.
    + destruct (Hfin 200%Q) as (q & Hq & H0 & Hp & _).
      * vm_compute. reflexivity.
      * exists q. auto.
  - destruct (discountPrice_within_price defaultsFullDiscount
                rowInfinitePrice 100)
      as [_ Hinf].
    + reflexivity.
    + vm_compute. discriminate.
    + vm_compute. discriminate.
    + apply Hinf; [vm_compute; reflexivity | reflexivity].
Defined.
